(** * Request Builder and Response Validator of the k6 performance-test framework

    A shallow embedding of [src/helpers/request-builder.ts] and
    [src/helpers/response-validator.ts], with the part of the JavaScript
    runtime the two classes rely on, and of the threshold validator of
    [src/utils/validator.ts], the [Logger] of [src/utils/logger.ts] and the
    environment table of [src/config/environment.ts].

    Modelling conventions.
    - A JavaScript string is a [string]: the bytes of its UTF-8 encoding,
      a surrogate code unit being the three bytes of its generalised UTF-8
      form. A leading surrogate followed at once by a trailing one is a
      pair, that is, one code point.
    - A thrown exception is the [Throw] case of [outcome].
    - The calls the builder and the validator make to the [Logger] write to
      the console only; they neither change a return value nor throw on the
      arguments passed here, and are left out of the embedding of the two
      classes. The [Logger] itself is embedded with its calls of
      [console.log] as the value it returns.
    - An object that a caller passes as a mapping (query parameters, a
      batch of headers) is the list of its own enumerable properties in the
      order they were created; [JS.entries] puts them in the order of
      enumeration. A value of a body or a payload ([JObject]) lists its
      properties in the order of enumeration. The header mapping of a
      builder, which is only read by key, is a [gmap]; a write to its key
      [__proto__] reaches the setter of [Object.prototype]
      ([RequestBuilder.assign_property]).
    - Numbers that are HTTP status codes or element counts are integers
      [Z], printed as the double they denote ([Number.of_Z]); measured
      durations are IEEE 754 doubles [float]. Numbers inside a response
      body are never inspected by the code, so bodies are parametric in the
      type of numbers; [Number] has the doubles with [Number::toString] and
      [StringToNumber]. *)

From Stdlib Require Import ZArith Floats Ascii String Sorted.
From stdpp Require Import gmap strings list pretty.

Local Open Scope string_scope.

(** ** The JavaScript runtime *)

Module JS.

Inductive exn : Type :=
| TypeError
| SyntaxError
| URIError
| InvalidCharacterError
| Error (message : string).

Inductive outcome (A : Type) : Type :=
| Ok (a : A)
| Throw (e : exn).
Arguments Ok {A} a.
Arguments Throw {A} e.

#[export] Instance outcome_ret : MRet outcome := fun A a => Ok a.
#[export] Instance outcome_bind : MBind outcome :=
  fun A B f m => match m with Ok a => f a | Throw e => Throw e end.
#[export] Instance outcome_fmap : FMap outcome :=
  fun A B f m => match m with Ok a => Ok (f a) | Throw e => Throw e end.

(** [undefined], [null] or a value: the argument of a parameter typed
    [string] that the code nevertheless tests against [null] and
    [undefined]. *)
Inductive nullable (A : Type) : Type :=
| Undefined
| Null
| Val (a : A).
Arguments Undefined {A}.
Arguments Null {A}.
Arguments Val {A} a.

(** *** Strings *)

Definition bytes (codes : list nat) : string :=
  string_of_list_ascii (map ascii_of_nat codes).

Definition startsWith (s searchString : string) : bool :=
  String.prefix searchString s.

Definition endsWith (s searchString : string) : bool :=
  let n := String.length s in
  let k := String.length searchString in
  (k <=? n)%nat && String.eqb (substring (n - k) k s) searchString.

(** [s.slice(start, stop)]: negative positions count from the end. *)
Definition slice (s : string) (start stop : Z) : string :=
  let len := Z.of_nat (String.length s) in
  let from := if (start <? 0)%Z then Z.max (len + start) 0 else Z.min start len in
  let to := if (stop <? 0)%Z then Z.max (len + stop) 0 else Z.min stop len in
  substring (Z.to_nat from) (Z.to_nat (to - from)) s.

(** The code points [String.prototype.trim] removes (WhiteSpace and
    LineTerminator of ECMA-262), each as its UTF-8 bytes. *)
Definition white_space : list string :=
  map bytes
    [ [9]; [10]; [11]; [12]; [13]; [32];
      [194; 160];
      [225; 154; 128];
      [226; 128; 128]; [226; 128; 129]; [226; 128; 130]; [226; 128; 131];
      [226; 128; 132]; [226; 128; 133]; [226; 128; 134]; [226; 128; 135];
      [226; 128; 136]; [226; 128; 137]; [226; 128; 138];
      [226; 128; 168]; [226; 128; 169]; [226; 128; 175];
      [226; 129; 159];
      [227; 128; 128];
      [239; 187; 191] ].

Fixpoint strip_first (table : list string) (s : string) : option string :=
  match table with
  | [] => None
  | w :: table' =>
      if String.prefix w s
      then Some (substring (String.length w) (String.length s - String.length w) s)
      else strip_first table' s
  end.

Fixpoint strip_all (table : list string) (fuel : nat) (s : string) : string :=
  match fuel with
  | O => s
  | S fuel' =>
      match strip_first table s with
      | Some rest => strip_all table fuel' rest
      | None => s
      end
  end.

Definition trimStart (s : string) : string :=
  strip_all white_space (String.length s) s.

Definition trimEnd (s : string) : string :=
  String.rev (strip_all (map String.rev white_space) (String.length s) (String.rev s)).

Definition trim (s : string) : string := trimEnd (trimStart s).

Definition join (l : list string) (separator : string) : string :=
  String.concat separator l.

(** *** [encodeURIComponent] *)

Definition in_range (lo hi : nat) (c : ascii) : bool :=
  (lo <=? nat_of_ascii c)%nat && (nat_of_ascii c <=? hi)%nat.

Definition is_digit (c : ascii) : bool := in_range 48 57 c.

Definition is_alpha (c : ascii) : bool := in_range 65 90 c || in_range 97 122 c.

Definition uri_unreserved (c : ascii) : bool :=
  is_alpha c || is_digit c
  || existsb (Ascii.eqb c) ["-"; "_"; "."; "!"; "~"; "*"; "'"; "("; ")"]%char.

Definition nth_char (alphabet : string) (i : nat) : ascii :=
  match String.get i alphabet with Some c => c | None => "000"%char end.

Definition hex_upper (n : nat) : ascii := nth_char "0123456789ABCDEF" n.

Definition percent_encode (c : ascii) : string :=
  let n := nat_of_ascii c in
  String "%" (String (hex_upper (n / 16)) (String (hex_upper (n mod 16)) "")).

(** UTF-8 bytes of a code point below 0x110000. *)
Definition utf8 (n : N) : string :=
  string_of_list_ascii (map ascii_of_N
    (if n <? 128 then [n]
     else if n <? 2048 then [192 + n / 64; 128 + n mod 64]
     else if n <? 65536 then
       [224 + n / 4096; 128 + n / 64 mod 64; 128 + n mod 64]
     else
       [240 + n / 262144; 128 + n / 4096 mod 64; 128 + n / 64 mod 64;
        128 + n mod 64])%N).

(** The three bytes of a surrogate code unit: 0xED, a byte from 0xA0 to
    0xAF (leading surrogates, U+D800 to U+DBFF) or from 0xB0 to 0xBF
    (trailing surrogates, U+DC00 to U+DFFF), and a continuation byte. *)
Definition continuation (c : ascii) : bool := in_range 128 191 c.

Definition leading_surrogate (a b c : ascii) : bool :=
  Ascii.eqb a "237" && in_range 160 175 b && continuation c.

Definition trailing_surrogate (a b c : ascii) : bool :=
  Ascii.eqb a "237" && in_range 176 191 b && continuation c.

(** The code unit of a surrogate, from its second and third byte. *)
Definition surrogate_code (b c : ascii) : N :=
  (53248 + (N_of_ascii b - 128) * 64 + (N_of_ascii c - 128))%N.

(** The code point of a surrogate pair, from the second and third byte of
    each half. *)
Definition pair_code_point (b c e f : ascii) : N :=
  (65536
   + ((N_of_ascii b - 160) * 64 + (N_of_ascii c - 128)) * 1024
   + ((N_of_ascii e - 176) * 64 + (N_of_ascii f - 128)))%N.

(** Whether a string holds a surrogate that is not half of a pair. *)
Fixpoint lone_surrogate (s : string) : bool :=
  match s with
  | "" => false
  | String a rest =>
      match rest with
      | String b (String c rest3) =>
          if leading_surrogate a b c then
            match rest3 with
            | String d (String e (String f rest6)) =>
                if trailing_surrogate d e f then lone_surrogate rest6 else true
            | _ => true
            end
          else if trailing_surrogate a b c then true
          else lone_surrogate rest
      | _ => lone_surrogate rest
      end
  end.

Fixpoint percent_encode_all (octets : string) : string :=
  match octets with
  | "" => ""
  | String c rest => percent_encode c +:+ percent_encode_all rest
  end.

(** Every code point that is not unreserved, as the escapes of the
    octets of its UTF-8 encoding. *)
Fixpoint percent_encoded (s : string) : string :=
  match s with
  | "" => ""
  | String a rest =>
      let unit := if uri_unreserved a then String a "" else percent_encode a in
      match rest with
      | String b (String c (String d (String e (String f rest6)))) =>
          if leading_surrogate a b c && trailing_surrogate d e f
          then percent_encode_all (utf8 (pair_code_point b c e f))
               +:+ percent_encoded rest6
          else unit +:+ percent_encoded rest
      | _ => unit +:+ percent_encoded rest
      end
  end.

(** [encodeURIComponent(s)]: a [URIError] on a surrogate outside a pair. *)
Definition encodeURIComponent (s : string) : outcome string :=
  if lone_surrogate s then Throw URIError else Ok (percent_encoded s).

(** *** The order of own properties *)

Fixpoint numeral (acc : N) (s : string) : option N :=
  match s with
  | "" => Some acc
  | String c rest =>
      if is_digit c then numeral (acc * 10 + (N_of_ascii c - 48))%N rest else None
  end.

(** The array index a property name denotes: the name is the decimal
    numeral, without a leading zero, of an integer below [2^32 - 1]. *)
Definition integer_key (key : string) : option N :=
  match key with
  | "" => None
  | String c rest =>
      if Ascii.eqb c "0" && negb (String.eqb rest "") then None
      else n ← numeral 0 key; if (n <? 4294967295)%N then Some n else None
  end.

Definition order_rank (key : string) : N := default 4294967295%N (integer_key key).

Fixpoint insert_by {A : Type} (rank : A -> N) (x : A) (l : list A) : list A :=
  match l with
  | [] => [x]
  | y :: l' => if (rank y <? rank x)%N then y :: insert_by rank x l' else x :: l
  end.

Definition sort_by {A : Type} (rank : A -> N) (l : list A) : list A :=
  foldr (insert_by rank) [] l.

(** [Object.entries(o)] for an object whose own properties are
    [properties] in the order they were created: first the properties
    whose name is an array index, by ascending index, then the others in
    the order of creation (OrdinaryOwnPropertyKeys). *)
Definition entries {A : Type} (properties : list (string * A)) : list (string * A) :=
  sort_by (fun p => order_rank p.1) properties.

(** [l.map(f)] for a callback that may throw. *)
Fixpoint map_throwing {A B : Type} (f : A -> outcome B) (l : list A)
  : outcome (list B) :=
  match l with
  | [] => Ok []
  | x :: l' =>
      y ← f x;
      ys ← map_throwing f l';
      Ok (y :: ys)
  end.

(** *** [btoa] *)

(** The Latin-1 code units of a string, [None] when a character lies
    above U+00FF. *)
Fixpoint latin1 (s : string) : option (list nat) :=
  match s with
  | "" => Some []
  | String c rest =>
      let n := nat_of_ascii c in
      if (n <? 128)%nat then cons n <$> latin1 rest
      else
        match rest with
        | String d rest' =>
            if (n =? 194)%nat then cons (nat_of_ascii d) <$> latin1 rest'
            else if (n =? 195)%nat then cons (nat_of_ascii d + 64) <$> latin1 rest'
            else None
        | "" => None
        end
  end.

Definition b64 (n : nat) : ascii :=
  nth_char "ABCDEFGHIJKLMNOPQRSTUVWXYZabcdefghijklmnopqrstuvwxyz0123456789+/" n.

Fixpoint base64 (l : list nat) : string :=
  match l with
  | [] => ""
  | [a] =>
      String (b64 (a / 4)) (String (b64 (a mod 4 * 16)) "==")
  | [a; b] =>
      String (b64 (a / 4)) (String (b64 (a mod 4 * 16 + b / 16))
        (String (b64 (b mod 16 * 4)) "="))
  | a :: b :: c :: l' =>
      String (b64 (a / 4)) (String (b64 (a mod 4 * 16 + b / 16))
        (String (b64 (b mod 16 * 4 + c / 64)) (String (b64 (c mod 64))
          (base64 l'))))
  end.

Definition btoa (s : string) : outcome string :=
  match latin1 s with
  | Some l => Ok (base64 l)
  | None => Throw InvalidCharacterError
  end.

(** *** Values *)

#[local] Unset Elimination Schemes.
Inductive JSValue (number : Type) : Type :=
| JUndefined
| JNull
| JBoolean (b : bool)
| JNumber (n : number)
| JString (s : string)
| JArray (elements : list (JSValue number))
| JObject (properties : list (string * JSValue number)).
#[local] Set Elimination Schemes.
Arguments JUndefined {number}.
Arguments JNull {number}.
Arguments JBoolean {number} b.
Arguments JNumber {number} n.
Arguments JString {number} s.
Arguments JArray {number} elements.
Arguments JObject {number} properties.

(** The prototype chains of the realm: for a property name, the [typeof]
    of the member found on [Object.prototype], respectively on
    [Array.prototype] and then [Object.prototype], if any. *)
Record Realm : Type := {
  ObjectPrototype : string -> option string;
  ArrayPrototype : string -> option string
}.

Section Values.
Context {number : Type}.
#[local] Abbreviation JSValue := (JSValue number).

Definition typeof (v : JSValue) : string :=
  match v with
  | JUndefined => "undefined"
  | JNull => "object"
  | JBoolean _ => "boolean"
  | JNumber _ => "number"
  | JString _ => "string"
  | JArray _ => "object"
  | JObject _ => "object"
  end.

Definition isArray (v : JSValue) : bool :=
  match v with JArray _ => true | _ => false end.

Fixpoint own_property (properties : list (string * JSValue)) (key : string)
  : option JSValue :=
  match properties with
  | [] => None
  | (k, v) :: properties' =>
      if String.eqb k key then Some v else own_property properties' key
  end.

(** [Object.keys(v)] for a value that is neither [null] nor
    [undefined]. *)
Definition keys (v : JSValue) : list string :=
  match v with
  | JObject properties => map fst properties
  | JArray elements => map (fun i : nat => pretty i) (seq 0 (length elements))
  | JString s => map (fun i : nat => pretty i) (seq 0 (String.length s))
  | _ => []
  end.

(** What a property lookup [v[key]] finds, as far as the code observes
    it: an own value, the [length] of an array, or a member inherited
    from the prototype chain, of which only the [typeof] is known. *)
Inductive property : Type :=
| OwnValue (v : JSValue)
| ArrayLength (n : nat)
| Inherited (type : string).

Definition array_index (key : string) (n : nat) : option nat :=
  find (fun i : nat => String.eqb (pretty i) key) (seq 0 n).

Definition lookup_property (realm : Realm) (v : JSValue) (key : string)
  : option property :=
  match v with
  | JObject properties =>
      match own_property properties key with
      | Some x => Some (OwnValue x)
      | None => Inherited <$> ObjectPrototype realm key
      end
  | JArray elements =>
      if String.eqb key "length" then Some (ArrayLength (length elements))
      else
        match array_index key (length elements) with
        | Some i => OwnValue <$> (elements !! i)
        | None => Inherited <$> ArrayPrototype realm key
        end
  | _ => None
  end.

(** [key in v]: a [TypeError] unless [v] is an object. *)
Definition has_property (realm : Realm) (key : string) (v : JSValue)
  : outcome bool :=
  match v with
  | JObject _ | JArray _ => Ok (bool_decide (is_Some (lookup_property realm v key)))
  | _ => Throw TypeError
  end.

(** [v[key] === null || v[key] === undefined] *)
Definition property_is_nullish (p : option property) : bool :=
  match p with
  | Some (OwnValue JNull) | Some (OwnValue JUndefined) | None => true
  | _ => false
  end.

(** [Array.isArray(v[key]) ? "array" : typeof v[key]] *)
Definition property_type (p : option property) : string :=
  match p with
  | Some (OwnValue x) => if isArray x then "array" else typeof x
  | Some (ArrayLength _) => "number"
  | Some (Inherited type) => type
  | None => "undefined"
  end.
End Values.
Arguments property : clear implicits.

End JS.

(** ** [JSON.stringify] and [JSON.parse] *)

Module JSON.
Import JS.

Definition dquote : ascii := "034"%char.
Definition backslash : ascii := "092"%char.

Definition hex_lower (n : nat) : ascii := nth_char "0123456789abcdef" n.

(** One character inside a quoted string (QuoteJSONString of ECMA-262). *)
Definition escape_char (c : ascii) : string :=
  let n := nat_of_ascii c in
  if (n =? 8)%nat then String backslash "b"
  else if (n =? 9)%nat then String backslash "t"
  else if (n =? 10)%nat then String backslash "n"
  else if (n =? 12)%nat then String backslash "f"
  else if (n =? 13)%nat then String backslash "r"
  else if (n =? 34)%nat then String backslash (String dquote "")
  else if (n =? 92)%nat then String backslash (String backslash "")
  else if (n <? 32)%nat then
    String backslash
      (String "u" (String "0" (String "0"
        (String (hex_lower (n / 16)) (String (hex_lower (n mod 16)) "")))))
  else String c "".

(** [\uXXXX] with lower-case digits (UnicodeEscape). *)
Definition unicode_escape (n : N) : string :=
  String backslash
    (String "u"
      (String (hex_lower (N.to_nat (n / 4096)))
        (String (hex_lower (N.to_nat (n / 256 mod 16)))
          (String (hex_lower (N.to_nat (n / 16 mod 16)))
            (String (hex_lower (N.to_nat (n mod 16))) ""))))).

(** The characters of a quoted string: a surrogate outside a pair is
    written as its escape, a pair as it is. *)
Fixpoint escape (s : string) : string :=
  match s with
  | "" => ""
  | String a rest =>
      match rest with
      | String b (String c rest3) =>
          if leading_surrogate a b c then
            match rest3 with
            | String d (String e (String f rest6)) =>
                if trailing_surrogate d e f
                then String a (String b (String c (String d (String e (String f
                       (escape rest6))))))
                else unicode_escape (surrogate_code b c) +:+ escape rest3
            | _ => unicode_escape (surrogate_code b c) +:+ escape rest3
            end
          else if trailing_surrogate a b c
          then unicode_escape (surrogate_code b c) +:+ escape rest3
          else escape_char a +:+ escape rest
      | _ => escape_char a +:+ escape rest
      end
  end.

Definition QuoteJSONString (s : string) : string :=
  String dquote (escape s +:+ String dquote "").

(** *** Reading *)

Definition is_ws (c : ascii) : bool :=
  let n := nat_of_ascii c in
  (n =? 32)%nat || (n =? 9)%nat || (n =? 10)%nat || (n =? 13)%nat.

Fixpoint skip_ws (s : string) : string :=
  match s with
  | "" => ""
  | String c rest => if is_ws c then skip_ws rest else s
  end.

Definition hex_value (c : ascii) : option N :=
  let n := N_of_ascii c in
  if in_range 48 57 c then Some (n - 48)%N
  else if in_range 97 102 c then Some (n - 87)%N
  else if in_range 65 70 c then Some (n - 55)%N
  else None.

Definition hex4 (a b c d : ascii) : option N :=
  x ← hex_value a; y ← hex_value b; z ← hex_value c; w ← hex_value d;
  Some (((x * 16 + y) * 16 + z) * 16 + w)%N.

Definition simple_escape (c : ascii) : option ascii :=
  let n := nat_of_ascii c in
  if (n =? 34)%nat then Some dquote
  else if (n =? 92)%nat then Some backslash
  else if (n =? 47)%nat then Some "/"%char
  else if (n =? 98)%nat then Some "008"%char
  else if (n =? 102)%nat then Some "012"%char
  else if (n =? 110)%nat then Some "010"%char
  else if (n =? 114)%nat then Some "013"%char
  else if (n =? 116)%nat then Some "009"%char
  else None.

(** A low surrogate escape at the head of [s], with what follows it. *)
Definition low_surrogate (s : string) : option (N * string) :=
  match s with
  | String e (String u (String a (String b (String c (String d rest))))) =>
      if Ascii.eqb e backslash && Ascii.eqb u "u" then
        n ← hex4 a b c d;
        if (56320 <=? n)%N && (n <=? 57343)%N then Some (n, rest) else None
      else None
  | _ => None
  end.

Definition prepend (p : string) (r : option (string * string))
  : option (string * string) :=
  '(str, rest) ← r; Some (p +:+ str, rest).

(** The characters of a string literal after its opening quote, up to the
    closing quote, and the text after it. A surrogate pair written as two
    [\u] escapes is one code point; a lone surrogate escape is kept as the
    three bytes of its generalised UTF-8 form. *)
Fixpoint read_string (s : string) : option (string * string) :=
  match s with
  | "" => None
  | String c rest =>
      if Ascii.eqb c dquote then Some ("", rest)
      else if Ascii.eqb c backslash then
        match rest with
        | "" => None
        | String e rest' =>
            match simple_escape e with
            | Some x => prepend (String x "") (read_string rest')
            | None =>
                if Ascii.eqb e "u" then
                  match rest' with
                  | String h1 (String h2 (String h3 (String h4 rest''))) =>
                      match hex4 h1 h2 h3 h4 with
                      | Some n =>
                          if (55296 <=? n)%N && (n <=? 56319)%N then
                            match rest'' with
                            | String e' (String u' (String l1 (String l2
                                (String l3 (String l4 rest3))))) =>
                                match low_surrogate rest'' with
                                | Some (m, _) =>
                                    prepend
                                      (utf8 (65536 + (n - 55296) * 1024 + (m - 56320))%N)
                                      (read_string rest3)
                                | None => prepend (utf8 n) (read_string rest'')
                                end
                            | _ => prepend (utf8 n) (read_string rest'')
                            end
                          else prepend (utf8 n) (read_string rest'')
                      | None => None
                      end
                  | _ => None
                  end
                else None
            end
        end
      else if (nat_of_ascii c <? 32)%nat then None
      else prepend (String c "") (read_string rest)
  end.

Fixpoint span_digits (s : string) : string * string :=
  match s with
  | "" => ("", "")
  | String c rest =>
      if is_digit c
      then let '(digits, rest') := span_digits rest in (String c digits, rest')
      else ("", s)
  end.

Definition digits1 (s : string) : option (string * string) :=
  match span_digits s with
  | ("", _) => None
  | (digits, rest) => Some (digits, rest)
  end.

Definition lex_int (s : string) : option (string * string) :=
  match s with
  | "" => None
  | String c rest =>
      if Ascii.eqb c "0" then Some ("0", rest)
      else if is_digit c then digits1 s
      else None
  end.

Definition lex_frac (s : string) : option (string * string) :=
  match s with
  | String c rest =>
      if Ascii.eqb c "." then prepend "." (digits1 rest) else Some ("", s)
  | "" => Some ("", "")
  end.

Definition lex_sign (s : string) : string * string :=
  match s with
  | String c rest =>
      if Ascii.eqb c "+" || Ascii.eqb c "-" then (String c "", rest) else ("", s)
  | "" => ("", "")
  end.

Definition lex_exp (s : string) : option (string * string) :=
  match s with
  | String c rest =>
      if Ascii.eqb c "e" || Ascii.eqb c "E" then
        let '(sign, rest') := lex_sign rest in
        prepend (String c sign) (digits1 rest')
      else Some ("", s)
  | "" => Some ("", "")
  end.

(** The longest prefix of [s] that is a JSON number, and the rest. *)
Definition lex_number (s : string) : option (string * string) :=
  let '(minus, s1) :=
    match s with
    | String c rest => if Ascii.eqb c "-" then ("-", rest) else ("", s)
    | "" => ("", "")
    end in
  '(int, s2) ← lex_int s1;
  '(frac, s3) ← lex_frac s2;
  '(exp, s4) ← lex_exp s3;
  Some (minus +:+ int +:+ frac +:+ exp, s4).

Fixpoint expect (literal s : string) : option string :=
  match literal, s with
  | "", _ => Some s
  | String a literal', String b s' =>
      if Ascii.eqb a b then expect literal' s' else None
  | _, "" => None
  end.

Section Codec.
Context {number : Type}.
#[local] Abbreviation JSValue := (JSValue number).

(** The text [JSON.stringify] writes for a number ([null] for a number
    that is not finite), and the number a JSON numeric literal denotes:
    Number::toString and StringToNumber of the host. *)
Variable number_text : number -> string.
Variable number_value : string -> number.

(** SerializeJSONProperty without indentation: [None] is [undefined]. *)
Fixpoint serialize (v : JSValue) : option string :=
  match v with
  | JUndefined => None
  | JNull => Some "null"
  | JBoolean b => Some (if b then "true" else "false")
  | JNumber n => Some (number_text n)
  | JString s => Some (QuoteJSONString s)
  | JArray elements =>
      let element e := default "null" (serialize e) in
      Some ("[" +:+ join (map element elements) "," +:+ "]")
  | JObject properties =>
      let member (p : string * JSValue) :=
        text ← serialize p.2; Some (QuoteJSONString p.1 +:+ ":" +:+ text) in
      Some ("{" +:+ join (omap member properties) "," +:+ "}")
  end.

(** A value of this model is a finite tree of plain data, so the
    [TypeError] of a cyclic structure does not arise. *)
Definition stringify (v : JSValue) : outcome (option string) :=
  Ok (serialize v).

(** [CreateDataProperty] on the properties in the order of creation: a
    repeated key keeps its place and takes the later value. *)
Fixpoint define (properties : list (string * JSValue)) (key : string) (v : JSValue)
  : list (string * JSValue) :=
  match properties with
  | [] => [(key, v)]
  | (k, x) :: properties' =>
      if String.eqb k key then (k, v) :: properties'
      else (k, x) :: define properties' key v
  end.

(** The object with the members of an object literal, its properties in
    the order of enumeration. *)
Definition object_of (members : list (string * JSValue)) : JSValue :=
  JObject (entries (fold_left (fun properties m => define properties m.1 m.2) members [])).

Fixpoint parse_value (fuel : nat) (s : string) : option (JSValue * string) :=
  match fuel with
  | O => None
  | S fuel' =>
      match skip_ws s with
      | "" => None
      | String c rest =>
          if Ascii.eqb c "{" then
            match skip_ws rest with
            | String d rest' =>
                if Ascii.eqb d "}" then Some (JObject [], rest')
                else '(members, rest'') ← parse_members fuel' rest;
                     Some (object_of members, rest'')
            | "" => None
            end
          else if Ascii.eqb c "[" then
            match skip_ws rest with
            | String d rest' =>
                if Ascii.eqb d "]" then Some (JArray [], rest')
                else '(elements, rest'') ← parse_elements fuel' rest;
                     Some (JArray elements, rest'')
            | "" => None
            end
          else if Ascii.eqb c dquote then
            '(str, rest') ← read_string rest; Some (JString str, rest')
          else if Ascii.eqb c "t" then
            rest' ← expect "rue" rest; Some (JBoolean true, rest')
          else if Ascii.eqb c "f" then
            rest' ← expect "alse" rest; Some (JBoolean false, rest')
          else if Ascii.eqb c "n" then
            rest' ← expect "ull" rest; Some (JNull, rest')
          else
            '(literal, rest') ← lex_number (String c rest);
            Some (JNumber (number_value literal), rest')
      end
  end
with parse_elements (fuel : nat) (s : string) : option (list JSValue * string) :=
  match fuel with
  | O => None
  | S fuel' =>
      '(v, rest) ← parse_value fuel' s;
      match skip_ws rest with
      | String c rest' =>
          if Ascii.eqb c "," then
            '(elements, rest'') ← parse_elements fuel' rest';
            Some (v :: elements, rest'')
          else if Ascii.eqb c "]" then Some ([v], rest')
          else None
      | "" => None
      end
  end
with parse_members (fuel : nat) (s : string)
  : option (list (string * JSValue) * string) :=
  match fuel with
  | O => None
  | S fuel' =>
      match skip_ws s with
      | String q rest =>
          if Ascii.eqb q dquote then
            '(key, rest1) ← read_string rest;
            match skip_ws rest1 with
            | String c rest2 =>
                if Ascii.eqb c ":" then
                  '(v, rest3) ← parse_value fuel' rest2;
                  match skip_ws rest3 with
                  | String d rest4 =>
                      if Ascii.eqb d "," then
                        '(members, rest5) ← parse_members fuel' rest4;
                        Some ((key, v) :: members, rest5)
                      else if Ascii.eqb d "}" then Some ([(key, v)], rest4)
                      else None
                  | "" => None
                  end
                else None
            | "" => None
            end
          else None
      | "" => None
      end
  end.

(** [JSON.parse(text)]. The parser takes one step of fuel per call and
    at most two calls per character read, so twice the length of the
    text is enough for every text. *)
Definition parse (text : string) : outcome JSValue :=
  match parse_value (2 * String.length text + 1) text with
  | Some (v, rest) =>
      if String.eqb (skip_ws rest) "" then Ok v else Throw SyntaxError
  | None => Throw SyntaxError
  end.
End Codec.

End JSON.

(** ** Numbers

    The doubles, with the text [Number::toString] writes for one (the
    shortest decimal that reads back as the same double, the closest to it
    among those) and the double a numeric literal denotes (the nearest one,
    ties to even). *)

Module Number.
Import JS JSON.
Local Open Scope Z_scope.

(** *** Decimal digits *)

Definition digit (d : Z) : ascii := ascii_of_N (Z.to_N (48 + d)).

(** The last [k] decimal digits of [n], the most significant first. *)
Fixpoint digits (k : nat) (n : Z) : string :=
  match k with
  | O => ""
  | S k' => String (digit (n / 10 ^ Z.of_nat k' mod 10)) (digits k' n)
  end.

Fixpoint zeros (k : nat) : string :=
  match k with
  | O => ""
  | S k' => String "0" (zeros k')
  end.

(** The number a string of decimal digits denotes, after [acc]. *)
Fixpoint number_of (acc : Z) (s : string) : Z :=
  match s with
  | "" => acc
  | String c rest => number_of (10 * acc + (Z.of_nat (nat_of_ascii c) - 48)) rest
  end.

Fixpoint size (fuel : nat) (n : Z) : nat :=
  match fuel with
  | O => O
  | S fuel' => if n <? 10 then 1%nat else S (size fuel' (n / 10))
  end.

(** The number of decimal digits of [n]. *)
Definition decimal_length (n : Z) : nat := size (S (Z.to_nat (Z.log2 n))) n.

(** *** Rounding to the nearest double, ties to even *)

(** [num / den < 2 ^ l] *)
Definition below (num den l : Z) : bool :=
  num * 2 ^ Z.max 0 (- l) <? den * 2 ^ Z.max 0 l.

(** The integer [l] with [2 ^ l <= num / den < 2 ^ (l + 1)]. *)
Definition floor_log2 (num den : Z) : Z :=
  let l := Z.log2 num - Z.log2 den in
  if below num den l then l - 1 else l.

(** [n / d] rounded to the nearest integer, ties to even. *)
Definition nearest_integer (n d : Z) : Z :=
  let q := n / d in
  match 2 * (n mod d) ?= d with
  | Lt => q
  | Gt => q + 1
  | Eq => if Z.even q then q else q + 1
  end.

(** The double nearest to [num / den], for [num >= 0] and [den > 0]: a
    mantissa below [2 ^ 53] and an exponent between [-1074] and [971]. *)
Definition nearest (negative : bool) (num den : Z) : spec_float :=
  let e := Z.max (floor_log2 num den - 52) (-1074) in
  let m := nearest_integer (num * 2 ^ Z.max 0 (- e)) (den * 2 ^ Z.max 0 e) in
  let '(m, e) := if m =? 2 ^ 53 then (2 ^ 52, e + 1) else (m, e) in
  if m =? 0 then S754_zero negative
  else if 971 <? e then S754_infinity negative
  else S754_finite negative (Z.to_pos m) e.

(** The double nearest to [a * 10 ^ q]. *)
Definition decimal (negative : bool) (a q : Z) : spec_float :=
  if 0 <=? q then nearest negative (a * 10 ^ q) 1
  else nearest negative a (10 ^ (- q)).

(** [𝔽(z)], the Number value for an integer. *)
Definition of_Z (z : Z) : float :=
  SF2Prim (decimal (z <? 0) (Z.abs z) 0).

(** *** The value of a numeric literal *)

Definition exponent_of (exp : string) : Z :=
  match exp with
  | String _ rest =>
      let '(sign, ds) := lex_sign rest in
      if String.eqb sign "-" then - number_of 0 ds else number_of 0 ds
  | "" => 0
  end.

(** StringToNumber on a JSON numeric literal: the literal's digits [a]
    and decimal exponent [q], rounded. *)
Definition value (literal : string) : float :=
  let '(negative, s1) :=
    match literal with
    | String c rest => if Ascii.eqb c "-" then (true, rest) else (false, literal)
    | "" => (false, "")
    end in
  let '(int, s2) := default ("", s1) (lex_int s1) in
  let '(frac, s3) := default ("", s2) (lex_frac s2) in
  let fraction := match frac with String _ ds => ds | "" => "" end in
  let a := number_of 0 (int +:+ fraction) in
  let q := exponent_of s3 - Z.of_nat (String.length fraction) in
  SF2Prim (decimal negative a q).

(** *** Number::toString *)

Definition same (x y : spec_float) : bool :=
  match x, y with
  | S754_finite s m e, S754_finite s' m' e' =>
      Bool.eqb s s' && Pos.eqb m m' && Z.eqb e e'
  | _, _ => false
  end.

Section Shortest.
(** A positive finite double [x = D * 10 ^ E], [D] having [L] digits. *)
Variables (x : spec_float) (D E : Z) (L : nat).

(** [10 ^ (k - 1) <= s < 10 ^ k] and [𝔽(s * 10 ^ (n - k))] is [x]. *)
Definition represents (s n : Z) (k : nat) : bool :=
  (10 ^ (Z.of_nat k - 1) <=? s) && (s <? 10 ^ Z.of_nat k)
  && same (decimal false s (n - Z.of_nat k)) x.

(** With [k] digits: [D] cut after [k] digits, or the next number of
    [k] digits above it, whichever denotes [x]; the closer one when both
    do, the even one when they are as close. *)
Definition with_digits (k : nat) : option (Z * Z) :=
  let unit := 10 ^ Z.of_nat (L - k) in
  let n := Z.of_nat L + E in
  let lo := D / unit in
  let hi := lo + 1 in
  let up := if hi =? 10 ^ Z.of_nat k then (10 ^ (Z.of_nat k - 1), n + 1) else (hi, n) in
  match represents lo n k, represents up.1 up.2 k with
  | true, true =>
      match D - lo * unit ?= hi * unit - D with
      | Lt => Some (lo, n)
      | Gt => Some up
      | Eq => if Z.even lo then Some (lo, n) else Some up
      end
  | true, false => Some (lo, n)
  | false, true => Some up
  | false, false => None
  end.

(** The least [k], from [k] on, with its [s] and [n]; all [L] digits of
    [D] denote [x] exactly. *)
Fixpoint shortest (steps : nat) (k : nat) : Z * Z * nat :=
  match steps with
  | O => (D, Z.of_nat L + E, L)
  | S steps' =>
      match with_digits k with
      | Some (s, n) => (s, n, k)
      | None => shortest steps' (S k)
      end
  end.
End Shortest.

Definition format (s n : Z) (k : nat) : string :=
  let kz := Z.of_nat k in
  if (kz <=? n) && (n <=? 21) then digits k s +:+ zeros (Z.to_nat (n - kz))
  else if (0 <? n) && (n <=? 21) then
    digits (Z.to_nat n) (s / 10 ^ (kz - n)) +:+ "." +:+ digits (Z.to_nat (kz - n)) s
  else if (-6 <? n) && (n <=? 0) then "0." +:+ zeros (Z.to_nat (- n)) +:+ digits k s
  else
    let e := n - 1 in
    let exponent :=
      (if 0 <=? e then "e+" else "e-")
      +:+ digits (decimal_length (Z.abs e)) (Z.abs e) in
    match k with
    | 1%nat => digits k s +:+ exponent
    | _ => digits 1 (s / 10 ^ (kz - 1)) +:+ "." +:+ digits (k - 1) s +:+ exponent
    end.

Definition toString (x : float) : string :=
  match Prim2SF x with
  | S754_zero _ => "0"
  | S754_infinity false => "Infinity"
  | S754_infinity true => "-Infinity"
  | S754_nan => "NaN"
  | S754_finite negative m e =>
      let D := if 0 <=? e then Z.pos m * 2 ^ e else Z.pos m * 5 ^ (- e) in
      let E := Z.min e 0 in
      let L := decimal_length D in
      let '(s, n, k) :=
        shortest (S754_finite false m e) D E L (L - 1) 1 in
      (if negative then "-" else "") +:+ format s n k
  end.

Definition is_finite (x : float) : bool :=
  match Prim2SF x with
  | S754_zero _ | S754_finite _ _ _ => true
  | _ => false
  end.

(** The text [JSON.stringify] writes for a number. *)
Definition json_text (x : float) : string :=
  if is_finite x then toString x else "null".
(** A text that does not go on with a digit. *)
Definition ends_digits (rest : string) : Prop :=
  match rest with
  | "" => True
  | String c _ => is_digit c = false
  end.
End Number.


(** ** [src/constants/index.ts] *)

Module Constants.

Module HTTP_STATUS.
Definition SUCCESS_MIN : Z := 200.
Definition SUCCESS_MAX : Z := 299.
Definition CLIENT_ERROR_MIN : Z := 400.
Definition CLIENT_ERROR_MAX : Z := 499.
Definition SERVER_ERROR_MIN : Z := 500.
Definition SERVER_ERROR_MAX : Z := 599.
End HTTP_STATUS.

Module ContentType.
Definition JSON : string := "application/json".
End ContentType.

Module ERROR_MESSAGES.
Definition INVALID_URL : string := "Invalid URL format provided".
Definition MISSING_REQUIRED_FIELD : string := "Required field is missing".
Definition INVALID_JSON : string := "Invalid JSON format".
Definition THRESHOLD_EXCEEDED : string := "Performance threshold exceeded".
Definition EMPTY_RESPONSE : string := "Response body is empty".
End ERROR_MESSAGES.

End Constants.

(** ** [src/helpers/response-validator.ts] *)

Module ResponseValidator.
Import JS Constants.

Inductive Details : Type :=
| ExpectedFields (expectedFields : list string)
| FieldDetails (missingFields nullFields : list string)
| ErrorDetails (errors : list string).

Record ValidationResult : Type := {
  valid : bool;
  message : option string;
  details : option Details
}.

(** The result [{ valid, missing }] of [hasRequiredFields]. *)
Module Fields.
Record t : Type := { valid : bool; missing : list string }.
End Fields.

(** [l.filter(p)] for a predicate that may throw. *)
Fixpoint filter_throwing {A : Type} (p : A -> outcome bool) (l : list A)
  : outcome (list A) :=
  match l with
  | [] => Ok []
  | x :: l' =>
      keep ← p x;
      rest ← filter_throwing p l';
      Ok (if keep : bool then x :: rest else rest)
  end.

(** [l.forEach(step)] over an accumulator, for a step that may throw. *)
Fixpoint for_each {A S : Type} (step : S -> A -> outcome S) (l : list A) (s : S)
  : outcome S :=
  match l with
  | [] => Ok s
  | x :: l' => s' ← step s x; for_each step l' s'
  end.

Definition isSuccessful (statusCode : Z) : bool :=
  (statusCode >=? HTTP_STATUS.SUCCESS_MIN)%Z && (statusCode <=? HTTP_STATUS.SUCCESS_MAX)%Z.

Definition isClientError (statusCode : Z) : bool :=
  (statusCode >=? HTTP_STATUS.CLIENT_ERROR_MIN)%Z
  && (statusCode <=? HTTP_STATUS.CLIENT_ERROR_MAX)%Z.

Definition isServerError (statusCode : Z) : bool :=
  (statusCode >=? HTTP_STATUS.SERVER_ERROR_MIN)%Z
  && (statusCode <=? HTTP_STATUS.SERVER_ERROR_MAX)%Z.

Definition hasExpectedStatus (statusCode expectedCode : Z) : bool :=
  (statusCode =? expectedCode)%Z.

Definition meetsPerformanceThresholds (responseTime threshold : float) : bool :=
  if PrimFloat.ltb responseTime 0 || PrimFloat.ltb threshold 0 then false
  else
    let meetsThreshold := PrimFloat.leb responseTime threshold in
    meetsThreshold.

Section Bodies.
Context {number : Type}.
#[local] Abbreviation JSValue := (JSValue number).
Variable realm : Realm.
Variable number_value : string -> number.

Definition is_null (v : JSValue) : bool :=
  match v with JNull => true | _ => false end.

Definition is_undefined (v : JSValue) : bool :=
  match v with JUndefined => true | _ => false end.

(** [typeof response !== "object" || response === null] *)
Definition not_an_object (response : JSValue) : bool :=
  negb (String.eqb (typeof response) "object") || is_null response.

Definition hasRequiredFields (response : JSValue) (fields : list string)
  : outcome Fields.t :=
  if not_an_object response then
    Ok {| Fields.valid := false; Fields.missing := fields |}
  else
    missingFields ←
      filter_throwing (fun field => negb <$> has_property realm field response) fields;
    Ok {| Fields.valid := (length missingFields =? 0)%nat;
          Fields.missing := missingFields |}.

Definition hasRequestFields (response : JSValue) (fields : list string)
  : outcome Fields.t :=
  hasRequiredFields response fields.

Definition validateRequiredFields (response : JSValue) (fields : list string)
  : outcome ValidationResult :=
  if not_an_object response then
    Ok {| valid := false;
          message := Some ERROR_MESSAGES.INVALID_JSON;
          details := Some (ExpectedFields fields) |}
  else
    '(missingFields, nullFields) ←
      for_each
        (fun '((missingFields, nullFields) : list string * list string) field =>
           present ← has_property realm field response;
           if negb present then Ok ((missingFields ++ [field])%list, nullFields)
           else if property_is_nullish (lookup_property realm response field)
           then Ok (missingFields, (nullFields ++ [field])%list)
           else Ok (missingFields, nullFields))
        fields ([], []);
    let isValid := (length missingFields =? 0)%nat && (length nullFields =? 0)%nat in
    Ok {| valid := isValid;
          message :=
            Some (if isValid then "All required fields present and valid"
                  else ERROR_MESSAGES.MISSING_REQUIRED_FIELD);
          details := Some (FieldDetails missingFields nullFields) |}.

Definition isValidJson (response : string) : bool :=
  if String.eqb response "" || String.eqb (trim response) "" then false
  else
    match JSON.parse number_value response with
    | Ok _ => true
    | Throw _ => false
    end.

Definition isvalidJson (response : string) : bool := isValidJson response.

Definition parseJsonSafely (response : string) : JSValue :=
  match JSON.parse number_value response with
  | Ok v => v
  | Throw _ => JNull
  end.

Definition hasResponseBody (body : JSValue) : bool :=
  if is_null body || is_undefined body then false
  else if
    match body with
    | JString s => String.eqb (trim s) ""
    | _ => false
    end
  then false
  else if String.eqb (typeof body) "object" && (length (keys body) =? 0)%nat then false
  else true.

Definition hasExpectedType (response : JSValue) (field expectedType : string)
  : outcome bool :=
  present ← has_property realm field response;
  if negb present then Ok false
  else
    let actualType := property_type (lookup_property realm response field) in
    if negb (String.eqb actualType expectedType) then Ok false
    else Ok true.

Definition validateSchema (response : JSValue) (schema : list (string * string))
  : outcome ValidationResult :=
  errors ←
    for_each
      (fun (errors : list string) '(field, expectedType) =>
         ok ← hasExpectedType response field expectedType;
         Ok (if negb ok
             then (errors ++ ["Field '" +:+ field +:+ "' validation failed"])%list
             else errors))
      schema [];
  Ok {| valid := (length errors =? 0)%nat;
        message :=
          Some (if (length errors =? 0)%nat then "Schema validation passed"
                else "Schema validation failed");
        details := Some (ErrorDetails errors) |}.

Definition hasMinLength (response : JSValue) (minLength : Z) : bool :=
  match response with
  | JArray elements => (Z.of_nat (length elements) >=? minLength)%Z
  | _ => false
  end.

Definition validateResponse (statusCode : Z) (body : JSValue)
    (requiredFields : option (list string)) (maxDuration : option float)
  : outcome ValidationResult :=
  let errors : list string := [] in
  let errors :=
    if negb (isSuccessful statusCode)
    then (errors ++ ["Invalid status code: "
                     +:+ Number.toString (Number.of_Z statusCode)])%list
    else errors in
  let errors :=
    if negb (hasResponseBody body)
    then (errors ++ [ERROR_MESSAGES.EMPTY_RESPONSE])%list
    else errors in
  errors ←
    match requiredFields with
    | Some fields =>
        if (0 <? length fields)%nat then
          fieldValidation ← hasRequiredFields body fields;
          Ok (if negb (Fields.valid fieldValidation)
              then (errors ++ ["Missing required fields: "
                               +:+ join (Fields.missing fieldValidation) ", "])%list
              else errors)
        else Ok errors
    | None => Ok errors
    end;
  Ok {| valid := (length errors =? 0)%nat;
        message :=
          Some (if (length errors =? 0)%nat then "Response validation passed"
                else "Response validation failed");
        details := Some (ErrorDetails errors) |}.
End Bodies.

End ResponseValidator.

(** ** [src/helpers/request-builder.ts] *)

Module RequestBuilder.
Import JS Constants.

(** *** The store

    Builders and header mappings are objects reached through references:
    methods update them in place, [clearHeaders] rebinds the [headers]
    field of its builder, and [clone] allocates. *)

Definition loc : Type := positive.

Record Logger : Type := { context : string }.

(** The fields of a [RequestBuilder] object. *)
Record Builder : Type := {
  baseUrl : string;
  headers : loc;
  logger : Logger
}.

Record Heap : Type := {
  objects : gmap loc (gmap string string);
  builders : gmap loc Builder
}.

Definition empty_heap : Heap := {| objects := ∅; builders := ∅ |}.

(** A computation reads and updates the store and returns or throws; the
    store outlives a throw. *)
Definition M (A : Type) : Type := Heap -> outcome A * Heap.

#[export] Instance M_ret : MRet M := fun A a h => (Ok a, h).
#[export] Instance M_bind : MBind M :=
  fun A B f m h =>
    match m h with
    | (Ok a, h') => f a h'
    | (Throw e, h') => (Throw e, h')
    end.

Definition throw {A : Type} (e : exn) : M A := fun h => (Throw e, h).

Definition lift {A : Type} (o : outcome A) : M A := fun h => (o, h).

Definition alloc_object (m : gmap string string) : M loc :=
  fun h =>
    let l := fresh (dom (objects h)) in
    (Ok l, {| objects := <[l:=m]> (objects h); builders := builders h |}).

Definition alloc_builder (b : Builder) : M loc :=
  fun h =>
    let l := fresh (dom (builders h)) in
    (Ok l, {| objects := objects h; builders := <[l:=b]> (builders h) |}).

(** A method called on something that is not a builder finds no such
    field and throws a [TypeError]. *)
Definition get_builder (this : loc) : M Builder :=
  fun h =>
    match builders h !! this with
    | Some b => (Ok b, h)
    | None => (Throw TypeError, h)
    end.

Definition set_builder (this : loc) (b : Builder) : M unit :=
  fun h => (Ok (), {| objects := objects h; builders := <[this:=b]> (builders h) |}).

Definition get_object (l : loc) : M (gmap string string) :=
  fun h =>
    match objects h !! l with
    | Some m => (Ok m, h)
    | None => (Throw TypeError, h)
    end.

Definition set_object (l : loc) (m : gmap string string) : M unit :=
  fun h => (Ok (), {| objects := <[l:=m]> (objects h); builders := builders h |}).

(** [object[key] = value] on an ordinary object whose values are strings.
    Unless the object has it as an own property, [__proto__] is the
    accessor of [Object.prototype], and its setter ignores a value that is
    neither an object nor [null]: nothing is stored. *)
Definition assign_property (m : gmap string string) (key value : string)
  : gmap string string :=
  if String.eqb key "__proto__" && bool_decide (m !! key = None) then m
  else <[key := value]> m.

(** [l.forEach(f)] *)
Fixpoint forEach {A : Type} (f : A -> M unit) (l : list A) : M unit :=
  match l with
  | [] => mret ()
  | x :: l' => _ ← f x; forEach f l'
  end.

(** *** The class *)

Definition default_headers : gmap string string :=
  <["Content-Type" := ContentType.JSON]> (<["Accept" := ContentType.JSON]> ∅).

(** [`${value}`] *)
Definition ToString (value : nullable string) : string :=
  match value with
  | Undefined => "undefined"
  | Null => "null"
  | Val s => s
  end.

Definition exn_text (e : exn) : string :=
  match e with
  | TypeError => "TypeError"
  | SyntaxError => "SyntaxError"
  | URIError => "URIError"
  | InvalidCharacterError => "InvalidCharacterError"
  | Error message => "Error: " +:+ message
  end.

Section Class.
(** Whether [new URL(url)] returns rather than throws. *)
Variable url_parses : string -> bool.

(** [validateUrl] reports a failure through [this.logger], given here as
    the field's content at the time of the call ([None] while it is
    unassigned). *)
Definition validateUrl (this_logger : option Logger) (url : string) : outcome unit :=
  if url_parses url then Ok ()
  else
    match this_logger with
    | None => Throw TypeError
    | Some _ => Throw (Error (ERROR_MESSAGES.INVALID_URL +:+ ": " +:+ url))
    end.

(** [new RequestBuilder(baseUrl)]. The constructor validates before it
    assigns [this.logger]. *)
Definition new (baseUrl : string) : M loc :=
  _ ← lift (validateUrl None baseUrl);
  let stored := if endsWith baseUrl "/" then slice baseUrl 0 (-1) else baseUrl in
  h ← alloc_object default_headers;
  alloc_builder {| baseUrl := stored; headers := h;
                   logger := {| context := "RequestBuilder" |} |}.

Definition setHeader (this : loc) (key : string) (value : nullable string) : M loc :=
  if String.eqb key "" || String.eqb (trim key) "" then
    throw (Error "Header key cannot be empty")
  else
    match value with
    | Null | Undefined =>
        throw (Error ("Header value for '" +:+ key +:+ "' cannot be null or undefined"))
    | Val v =>
        b ← get_builder this;
        m ← get_object (headers b);
        _ ← set_object (headers b) (assign_property m key v);
        mret this
    end.

Definition setHeaders (this : loc) (headers : list (string * nullable string)) : M loc :=
  _ ← forEach (fun '(key, value) => _ ← setHeader this key value; mret ())
        (entries headers);
  mret this.

Definition setContentType (this : loc) (contentType : nullable string) : M loc :=
  setHeader this "Content-Type" contentType.

Definition setBearerToken (this : loc) (token : nullable string) : M loc :=
  setHeader this "Authorization" (Val ("Bearer " +:+ ToString token)).

Definition setBasicAuth (this : loc) (username password : nullable string) : M loc :=
  encoded ← lift (btoa (ToString username +:+ ":" +:+ ToString password));
  setHeader this "Authorization" (Val ("Basic " +:+ encoded)).

Definition buildUrl (this : loc) (endpoint : string)
    (queryParams : option (list (string * nullable string))) : M string :=
  b ← get_builder this;
  let normalizedEndpoint :=
    if startsWith endpoint "/" then endpoint else "/" +:+ endpoint in
  let url := baseUrl b +:+ normalizedEndpoint in
  match queryParams with
  | None => mret url
  | Some params =>
      if (length (map fst (entries params)) =? 0)%nat then mret url
      else
        let validParams :=
          List.filter
            (fun p : string * nullable string =>
               match p.2 with
               | Null | Undefined => false
               | Val s => negb (String.eqb s "")
               end)
            (entries params) in
        if (length validParams =? 0)%nat then mret url
        else
          texts ←
            lift (map_throwing
                    (fun p : string * nullable string =>
                       key ← encodeURIComponent p.1;
                       value ← encodeURIComponent (ToString p.2);
                       Ok (key +:+ "=" +:+ value))
                    validParams);
          let queryString := join texts "&" in
          mret (url +:+ "?" +:+ queryString)
  end.

(** The spread copy is returned by value. *)
Definition getHeaders (this : loc) : M (gmap string string) :=
  b ← get_builder this;
  get_object (headers b).

Definition getRequestHeaders (this : loc) : M (gmap string string) :=
  getHeaders this.

Definition removeHeader (this : loc) (key : string) : M loc :=
  b ← get_builder this;
  m ← get_object (headers b);
  _ ← set_object (headers b) (delete key m);
  mret this.

Definition clearHeaders (this : loc) : M loc :=
  b ← get_builder this;
  h ← alloc_object default_headers;
  _ ← set_builder this {| baseUrl := baseUrl b; headers := h; logger := logger b |};
  mret this.

Definition buildPayload {number : Type} (number_text : number -> string)
    (data : JSValue number) : outcome (option string) :=
  match JSON.stringify number_text data with
  | Ok text => Ok text
  | Throw error =>
      Throw (Error ("Failed to serialize data to JSON: " +:+ exn_text error))
  end.

Definition getBaseUrl (this : loc) : M string :=
  b ← get_builder this;
  mret (baseUrl b).

Definition clone (this : loc) : M loc :=
  b ← get_builder this;
  newBuilder ← new (baseUrl b);
  m ← get_object (headers b);
  copy ← alloc_object m;
  nb ← get_builder newBuilder;
  _ ← set_builder newBuilder
        {| baseUrl := baseUrl nb; headers := copy; logger := logger nb |};
  mret newBuilder.
End Class.

End RequestBuilder.

(** ** A host to run the embedding on examples

    The statements below hold for every realm and every URL parser, and
    those that do not depend on how a number is written for every
    representation of numbers. To evaluate the embedding on the inputs of
    the test suite, [Sample] fixes one of each. *)

Module Sample.
Import JS.

(** URLs [http://host] and [https://host], optionally followed by a path,
    where [host] is made of dot-separated labels of lower-case letters
    and the path of letters, digits and [/ - _ .]: a subset of the
    strings [new URL] accepts. *)
Fixpoint split_host (s : string) : string * string :=
  match s with
  | "" => ("", "")
  | String c rest =>
      if Ascii.eqb c "/" then ("", s)
      else let '(host, path) := split_host rest in (String c host, path)
  end.

Fixpoint labels (in_label : bool) (s : string) : bool :=
  match s with
  | "" => in_label
  | String c rest =>
      if in_range 97 122 c then labels true rest
      else if Ascii.eqb c "." then in_label && labels false rest
      else false
  end.

Fixpoint path_chars (s : string) : bool :=
  match s with
  | "" => true
  | String c rest =>
      (is_alpha c || is_digit c || existsb (Ascii.eqb c) ["/"; "-"; "_"; "."]%char)
      && path_chars rest
  end.

Definition url_parses (s : string) : bool :=
  match
    match JSON.expect "https://" s with
    | Some rest => Some rest
    | None => JSON.expect "http://" s
    end
  with
  | Some rest => let '(host, path) := split_host rest in labels false host && path_chars path
  | None => false
  end.

(** The members of [Object.prototype] and [Array.prototype] in
    ECMAScript 2015, with what the validator reports as their type. *)
Definition object_members : list string :=
  [ "constructor"; "hasOwnProperty"; "isPrototypeOf"; "propertyIsEnumerable";
    "toLocaleString"; "toString"; "valueOf"; "__defineGetter__";
    "__defineSetter__"; "__lookupGetter__"; "__lookupSetter__" ].

Definition array_members : list string :=
  [ "concat"; "copyWithin"; "entries"; "every"; "fill"; "filter"; "find";
    "findIndex"; "forEach"; "indexOf"; "join"; "keys"; "lastIndexOf"; "map";
    "pop"; "push"; "reduce"; "reduceRight"; "reverse"; "shift"; "slice";
    "some"; "sort"; "splice"; "unshift"; "values" ].

Definition member_of (l : list string) (key : string) : bool :=
  existsb (String.eqb key) l.

Definition realm : Realm := {|
  ObjectPrototype key :=
    if String.eqb key "__proto__" then Some "object"
    else if member_of object_members key then Some "function"
    else None;
  ArrayPrototype key :=
    if String.eqb key "__proto__" then Some "array"
    else if member_of (array_members ++ object_members)%list key then Some "function"
    else None
|}.

(** Integers as numbers: written in decimal, and a numeric literal read
    as its value rounded toward zero. *)
Definition number_text (n : Z) : string := pretty n.

Definition digits_value (s : string) : Z :=
  fold_left (fun acc c => acc * 10 + (Z.of_nat (nat_of_ascii c) - 48))%Z
    (list_ascii_of_string s) 0%Z.

Definition number_value (literal : string) : Z :=
  let '(negative, s1) :=
    match literal with
    | String c rest => if Ascii.eqb c "-" then (true, rest) else (false, literal)
    | "" => (false, "")
    end in
  let '(int, s2) := default ("", s1) (JSON.lex_int s1) in
  let '(frac, s3) := default ("", s2) (JSON.lex_frac s2) in
  let fraction := substring 1 (String.length frac - 1) frac in
  let '(sign, exponent) := JSON.lex_sign (substring 1 (String.length s3 - 1) s3) in
  let e := ((if String.eqb sign "-" then - digits_value exponent else digits_value exponent)
            - Z.of_nat (String.length fraction))%Z in
  let mantissa := digits_value (int +:+ fraction) in
  let magnitude :=
    if (0 <=? e)%Z then (mantissa * 10 ^ e)%Z else (mantissa / 10 ^ (- e))%Z in
  if negative then (- magnitude)%Z else magnitude.

(** The builder and the store that [new RequestBuilder] leaves when called on
    ["https://api.example.com"] in the empty store. *)
Definition builder : RequestBuilder.loc := 1%positive.

Definition instance : RequestBuilder.Builder :=
  {| RequestBuilder.baseUrl := "https://api.example.com";
     RequestBuilder.headers := 1%positive;
     RequestBuilder.logger := {| RequestBuilder.context := "RequestBuilder" |} |}.

Definition store : RequestBuilder.Heap :=
  {| RequestBuilder.objects := {[1%positive := RequestBuilder.default_headers]};
     RequestBuilder.builders := {[1%positive := instance]} |}.

(** A payload with every kind of JSON value. *)
Definition payload : JSValue Z :=
  JObject
    [ ("title", JString "Test");
      ("userId", JNumber 1%Z);
      ("tags", JArray [JString "a"; JBoolean true; JNull; JNumber (-20)%Z]);
      ("user", JObject [("name", JString "John"); ("age", JNumber 30%Z)]);
      ("empty", JArray []) ].

(** The same over the doubles, with a fraction and a key that is an array
    index. *)
Definition document : JSValue float :=
  JObject
    [ ("1", JString "one");
      ("title", JString "Test");
      ("userId", JNumber 1%float);
      ("price", JNumber 0x1.999999999999ap-4%float);
      ("tags", JArray [JString "a"; JBoolean true; JNull; JNumber (-20)%float]);
      ("user", JObject [("name", JString "John"); ("age", JNumber 30%float)]);
      ("empty", JArray []) ].

End Sample.

(** ** Regular expressions

    The patterns of [src/utils/validator.ts] use literals, character
    classes, [+] and the anchors [^] and [$] only; [test] on such an
    anchored pattern decides whether the whole string is in its language,
    computed here with derivatives. *)

Module RegExp.
Import JS.

Inductive regex : Type :=
| Never
| Empty
| Class (accepts : ascii -> bool)
| Seq (r1 r2 : regex)
| Alt (r1 r2 : regex)
| Star (r : regex).

Definition Lit (c : ascii) : regex := Class (Ascii.eqb c).

Definition Plus (r : regex) : regex := Seq r (Star r).

Fixpoint Literal (s : string) : regex :=
  match s with
  | "" => Empty
  | String c rest => Seq (Lit c) (Literal rest)
  end.

(** [\d] *)
Definition Digit : regex := Class is_digit.

Fixpoint nullable (r : regex) : bool :=
  match r with
  | Never => false
  | Empty => true
  | Class _ => false
  | Seq r1 r2 => nullable r1 && nullable r2
  | Alt r1 r2 => nullable r1 || nullable r2
  | Star _ => true
  end.

Fixpoint derivative (c : ascii) (r : regex) : regex :=
  match r with
  | Never => Never
  | Empty => Never
  | Class accepts => if accepts c then Empty else Never
  | Seq r1 r2 =>
      if nullable r1
      then Alt (Seq (derivative c r1) r2) (derivative c r2)
      else Seq (derivative c r1) r2
  | Alt r1 r2 => Alt (derivative c r1) (derivative c r2)
  | Star r1 => Seq (derivative c r1) (Star r1)
  end.

(** [/^r$/.test(s)] *)
Fixpoint test (r : regex) (s : string) : bool :=
  match s with
  | "" => nullable r
  | String c rest => test (derivative c r) rest
  end.

End RegExp.

(** ** [src/utils/validator.ts] *)

Module Validator.
Import JS RegExp.

(** [/^p\(\d+\)<\d+$/], [/^rate<[\d.]+$/] and [/^count[<>=]\d+$/] *)
Definition validPattern : list regex :=
  [ Seq (Literal "p(") (Seq (Plus Digit) (Seq (Literal ")<") (Plus Digit)));
    Seq (Literal "rate<") (Plus (Class (fun c => is_digit c || Ascii.eqb c ".")));
    Seq (Literal "count")
      (Seq (Class (fun c => existsb (Ascii.eqb c) ["<"; ">"; "="]%char)) (Plus Digit)) ].

Definition validateThresholds (thresholds : list string) : bool :=
  forallb
    (fun threshold => existsb (fun pattern => test pattern threshold) validPattern)
    thresholds.

End Validator.

(** ** [src/utils/logger.ts] *)

Module Logger.
Import JS.

Inductive LogLevel : Type := DEBUG | INFO | WARN | ERROR.

(** The value of the enumeration member. *)
Definition level_text (level : LogLevel) : string :=
  match level with
  | DEBUG => "DEBUG"
  | INFO => "INFO"
  | WARN => "WARN"
  | ERROR => "ERROR"
  end.

(** The fields of a [Logger]. *)
Record t : Type := { context : string; logLevel : LogLevel }.

(** A call of [console.log], with one argument or with two. *)
Inductive call : Type :=
| Line (text : string)
| Labelled (label text : string).

(** [new Logger(context, logLevel)], each argument optional. *)
Definition new (context : option string) (logLevel : option LogLevel) : t :=
  {| context := default "K6Test" context; logLevel := default INFO logLevel |}.

(** [levels.indexOf(level)] in [[DEBUG, INFO, WARN, ERROR]] *)
Definition indexOf (level : LogLevel) : Z :=
  match level with
  | DEBUG => 0
  | INFO => 1
  | WARN => 2
  | ERROR => 3
  end.

Definition shouldLog (this : t) (level : LogLevel) : bool :=
  let currentLevelIndex := indexOf (logLevel this) in
  let messageLevelIndex := indexOf level in
  (messageLevelIndex >=? currentLevelIndex)%Z.

Section Output.
Context {number : Type}.
#[local] Abbreviation Properties := (list (string * JSValue number)).

(** [JSON.stringify(context, null, 2)] *)
Variable stringify_indented : Properties -> string.

(** [duration.toFixed(2)] *)
Variable toFixed2 : float -> string.

Record LogEntry : Type := {
  level : LogLevel;
  message : string;
  timestamp : string;
  entry_context : option Properties
}.

(** The calls of [console.log] that [log] makes. *)
Definition log (this : t) (entry : LogEntry) : list call :=
  if negb (shouldLog this (level entry)) then []
  else
    let logMessage :=
      "[" +:+ timestamp entry +:+ "] [" +:+ level_text (level entry) +:+ "] ["
      +:+ context this +:+ "] " +:+ message entry in
    (Line logMessage
     :: match entry_context entry with
        | Some properties =>
            if (0 <? length (map fst properties))%nat
            then [Labelled "Context:" (stringify_indented properties)]
            else []
        | None => []
        end)%list.

(** The logging methods; [now] is what [new Date().toISOString()] returns
    at the call. *)
Definition debug (this : t) (now : string) (message : string) (context : option Properties)
  : list call :=
  log this {| level := DEBUG; message := message; timestamp := now;
              entry_context := context |}.

Definition info (this : t) (now : string) (message : string) (context : option Properties)
  : list call :=
  log this {| level := INFO; message := message; timestamp := now;
              entry_context := context |}.

Definition warn (this : t) (now : string) (message : string) (context : option Properties)
  : list call :=
  log this {| level := WARN; message := message; timestamp := now;
              entry_context := context |}.

Definition error (this : t) (now : string) (message : string) (context : option Properties)
  : list call :=
  log this {| level := ERROR; message := message; timestamp := now;
              entry_context := context |}.

Definition step (this : t) (now : string) (step : string) (details : option Properties)
  : list call :=
  info this now ("STEP: " +:+ step) details.

Definition logRequest (this : t) (now : string) (method url : string) (statusCode : Z)
    (duration : float) : list call :=
  info this now
    (method +:+ " " +:+ url +:+ " - Status: " +:+ Number.toString (Number.of_Z statusCode)
     +:+ " - Duration: " +:+ toFixed2 duration +:+ "ms")
    None.
End Output.

Definition setLogLevel (this : t) (level : LogLevel) : t :=
  {| context := context this; logLevel := level |}.

Definition getLogLevel (this : t) : LogLevel := logLevel this.

End Logger.

(** ** [src/config/environment.ts] *)

Module Environment.
Import JS.

Definition DEVELOPMENT : string := "development".
Definition STAGING : string := "staging".
Definition PRODUCTION : string := "production".
Definition LOCAL : string := "local".

Record EnvironmentConfig : Type := {
  name : string;
  baseUrl : string;
  timeout : Z;
  retryAttempts : Z;
  logLevel : string;
  enableMetrics : bool;
  apiKey : option string;
  customHeaders : option (gmap string string)
}.

(** The table [environmentConfigs]: one shared, mutable configuration object
    per environment name. *)
Definition Table : Type := gmap string EnvironmentConfig.

Definition environmentConfigs : Table :=
  <[LOCAL :=
      {| name := LOCAL; baseUrl := "http://localhost:3000"; timeout := 30000;
         retryAttempts := 1; logLevel := "DEBUG"; enableMetrics := true;
         apiKey := None; customHeaders := None |}]>
  (<[DEVELOPMENT :=
      {| name := DEVELOPMENT; baseUrl := "https://dev-api.example.com"; timeout := 30000;
         retryAttempts := 2; logLevel := "DEBUG"; enableMetrics := true;
         apiKey := None; customHeaders := None |}]>
  (<[STAGING :=
      {| name := STAGING; baseUrl := "https://staging-api.example.com"; timeout := 30000;
         retryAttempts := 3; logLevel := "INFO"; enableMetrics := true;
         apiKey := None; customHeaders := None |}]>
  (<[PRODUCTION :=
      {| name := PRODUCTION; baseUrl := "https://api.example.com"; timeout := 30000;
         retryAttempts := 3; logLevel := "WARN"; enableMetrics := true;
         apiKey := None; customHeaders := None |}]> ∅))).

(** [__ENV[key]] when it is truthy: present and not the empty string. *)
Definition env_var (__ENV : gmap string string) (key : string) : option string :=
  match __ENV !! key with
  | Some value => if String.eqb value "" then None else Some value
  | None => None
  end.

Definition getCurrentEnvironment (__ENV : gmap string string) : string :=
  let envString := default "development" (env_var __ENV "ENVIRONMENT") in
  if String.eqb envString "" then DEVELOPMENT else envString.

Definition with_baseUrl (url : string) (c : EnvironmentConfig) : EnvironmentConfig :=
  {| name := name c; baseUrl := url; timeout := timeout c;
     retryAttempts := retryAttempts c; logLevel := logLevel c;
     enableMetrics := enableMetrics c; apiKey := apiKey c;
     customHeaders := customHeaders c |}.

Definition with_logLevel (level : string) (c : EnvironmentConfig) : EnvironmentConfig :=
  {| name := name c; baseUrl := baseUrl c; timeout := timeout c;
     retryAttempts := retryAttempts c; logLevel := level;
     enableMetrics := enableMetrics c; apiKey := apiKey c;
     customHeaders := customHeaders c |}.

(** An assignment to a field of the entry [config] refers to: a
    [TypeError] when [config] is [undefined]. *)
Definition assign (currentEnv : string) (update : EnvironmentConfig -> EnvironmentConfig)
    (table : Table) : outcome unit * Table :=
  match table !! currentEnv with
  | Some c => (Ok (), <[currentEnv := update c]> table)
  | None => (Throw TypeError, table)
  end.

(** [getEnvironmentConfig(env)] looks the entry up, writes the overrides
    into it and returns it ([None] is [undefined]). The entry is looked up
    among the entries of the table: a name that [Object.prototype] defines,
    such as ["constructor"], would find that member instead, and is not a
    name this embedding covers. *)
Definition getEnvironmentConfig (__ENV : gmap string string) (env : nullable string)
    (table : Table) : outcome (option EnvironmentConfig) * Table :=
  let currentEnv :=
    match env with
    | Val e => if String.eqb e "" then getCurrentEnvironment __ENV else e
    | Null | Undefined => getCurrentEnvironment __ENV
    end in
  match
    match env_var __ENV "BASE_URL" with
    | Some url => assign currentEnv (with_baseUrl url) table
    | None => (Ok (), table)
    end
  with
  | (Throw e, table1) => (Throw e, table1)
  | (Ok _, table1) =>
      match
        match env_var __ENV "LOG_LEVEL" with
        | Some level => assign currentEnv (with_logLevel level) table1
        | None => (Ok (), table1)
        end
      with
      | (Throw e, table2) => (Throw e, table2)
      | (Ok _, table2) => (Ok (table2 !! currentEnv), table2)
      end
  end.

(** [Object.values(Environment).includes(env)] *)
Definition isValidEnvironment (env : string) : bool :=
  existsb (String.eqb env) [DEVELOPMENT; STAGING; PRODUCTION; LOCAL].

Definition getBaseUrl (__ENV : gmap string string) (table : Table)
  : outcome string * Table :=
  match getEnvironmentConfig __ENV Undefined table with
  | (Ok (Some config), t) => (Ok (baseUrl config), t)
  | (Ok None, t) => (Throw TypeError, t)
  | (Throw e, t) => (Throw e, t)
  end.

Definition isProduction (__ENV : gmap string string) : bool :=
  String.eqb (getCurrentEnvironment __ENV) PRODUCTION.

Definition isDevelopment (__ENV : gmap string string) : bool :=
  String.eqb (getCurrentEnvironment __ENV) DEVELOPMENT.

End Environment.

(** ** The specification's vocabulary *)

Module Spec.
Import JS Constants ResponseValidator.

Section Bodies.
Context {number : Type}.
#[local] Abbreviation JSValue := (JSValue number).
Variable realm : Realm.

(** A non-null structured object. *)
Definition is_object (v : JSValue) : bool :=
  match v with
  | JObject _ | JArray _ => true
  | _ => false
  end.

(** [field] is present as a key of [v]. *)
Definition present (v : JSValue) (field : string) : bool :=
  bool_decide (is_Some (lookup_property realm v field)).

(** The required fields that are missing from a body: all of them when
    the body is not an object, else those not present as keys, in the
    order of the input list. *)
Definition missing_fields (body : JSValue) (fields : list string) : list string :=
  if is_object body
  then List.filter (fun field => negb (present body field)) fields
  else fields.

(** The three independent failures of the aggregate check, each with its
    message: a status outside 200 to 299, printed as the number it is; a
    body that is [null], [undefined], a string that is blank after
    trimming, the empty array or the empty object; and required fields
    that are missing, listed with [", "] between them. *)
Definition status_failure (statusCode : Z) : list string :=
  if decide (200 <= statusCode <= 299)%Z then []
  else ["Invalid status code: " +:+ Number.toString (Number.of_Z statusCode)].

Definition empty_body (body : JSValue) : bool :=
  match body with
  | JNull | JUndefined | JArray [] | JObject [] => true
  | JString s => bool_decide (trim s = "")
  | _ => false
  end.

Definition body_failure (body : JSValue) : list string :=
  if empty_body body then ["Response body is empty"] else [].

Fixpoint comma_separated (fields : list string) : string :=
  match fields with
  | [] => ""
  | [field] => field
  | field :: fields' => field +:+ ", " +:+ comma_separated fields'
  end.

Definition fields_failure (body : JSValue) (requiredFields : option (list string))
  : list string :=
  match requiredFields with
  | None | Some [] => []
  | Some fields =>
      match missing_fields body fields with
      | [] => []
      | missing => ["Missing required fields: " +:+ comma_separated missing]
      end
  end.

Definition failures (statusCode : Z) (body : JSValue)
    (requiredFields : option (list string)) : list string :=
  status_failure statusCode ++ body_failure body ++ fields_failure body requiredFields.
End Bodies.

(** *** JSON *)

(** The text that follows a serialized value: nothing, or a separator or
    closing bracket. *)
Definition stop (rest : string) : Prop :=
  match rest with
  | "" => True
  | String c _ => c = ","%char \/ c = "]"%char \/ c = "}"%char
  end.

(** A character that ends a number: no part of a numeric literal goes on
    past it. *)
Definition ends_number (c : ascii) : bool :=
  negb (is_digit c)
  && negb (existsb (Ascii.eqb c) ["."; "e"; "E"; "+"; "-"]%char).

Definition halts (rest : string) : Prop :=
  match rest with
  | "" => True
  | String c _ => ends_number c = true
  end.

Section Json.
Context {number : Type}.
Variable number_text : number -> string.
Variable number_value : string -> number.

(** A number survives the round trip when its text is one JSON numeric
    literal that denotes it. *)
Definition number_round_trips (n : number) : Prop :=
  JSON.lex_number (number_text n) = Some (number_text n, "")
  /\ number_value (number_text n) = n.

(** The properties of an object in the order of enumeration: no key
    twice, array indices first and ascending. *)
Definition enumeration {A : Type} (properties : list (string * A)) : Prop :=
  NoDup (map fst properties) /\ entries properties = properties.

(** The values that come back from the round trip as they are: no
    [undefined] anywhere, numbers that survive the round trip, and objects
    with their properties in the order of enumeration. *)
Fixpoint serializable (v : JSValue number) : Prop :=
  match v with
  | JUndefined => False
  | JNull | JBoolean _ | JString _ => True
  | JNumber n => number_round_trips n
  | JArray elements =>
      (fix all (l : list (JSValue number)) : Prop :=
         match l with
         | [] => True
         | e :: l' => serializable e /\ all l'
         end) elements
  | JObject properties =>
      enumeration properties
      /\ (fix all (l : list (string * JSValue number)) : Prop :=
            match l with
            | [] => True
            | p :: l' => serializable p.2 /\ all l'
            end) properties
  end.

(** The text of a serializable value. *)
Definition text_of (v : JSValue number) : string :=
  default "null" (JSON.serialize number_text v).

Definition member_text (p : string * JSValue number) : string :=
  JSON.QuoteJSONString p.1 +:+ ":" +:+ text_of p.2.
End Json.

(** The number of parser calls a value takes. *)
Fixpoint size {number : Type} (v : JSValue number) : nat :=
  match v with
  | JArray elements =>
      S ((fix sum (l : list (JSValue number)) : nat :=
            match l with
            | [] => 0
            | e :: l' => S (size e + sum l')
            end) elements)
  | JObject properties =>
      S ((fix sum (l : list (string * JSValue number)) : nat :=
            match l with
            | [] => 0
            | p :: l' => S (size p.2 + sum l')
            end) properties)
  | _ => 1
  end.

Definition elements_size {number : Type} (l : list (JSValue number)) : nat :=
  fold_right (fun e n => S (size e + n)) 0 l.

Definition members_size {number : Type} (l : list (string * JSValue number)) : nat :=
  fold_right (fun p n => S (size p.2 + n)) 0 l.

(** *** Payloads over the doubles *)

Definition negative_zero (n : float) : bool :=
  match Prim2SF n with
  | S754_zero true => true
  | _ => false
  end.

(** A property of a value and of every value inside it. *)
Fixpoint every (P : JSValue float -> Prop) (v : JSValue float) : Prop :=
  P v
  /\ match v with
     | JArray elements =>
         (fix all (l : list (JSValue float)) : Prop :=
            match l with
            | [] => True
            | e :: l' => every P e /\ all l'
            end) elements
     | JObject properties =>
         (fix all (l : list (string * JSValue float)) : Prop :=
            match l with
            | [] => True
            | p :: l' => every P p.2 /\ all l'
            end) properties
     | _ => True
     end.

(** An object lists its properties in the order of enumeration. *)
Definition enumerated (v : JSValue float) : Prop :=
  match v with
  | JObject properties => enumeration properties
  | _ => True
  end.

(** Neither [undefined] nor a number that is not finite. *)
Definition defined_and_finite (v : JSValue float) : Prop :=
  match v with
  | JUndefined => False
  | JNumber n => Number.is_finite n = true
  | _ => True
  end.

Definition not_negative_zero (v : JSValue float) : Prop :=
  match v with
  | JNumber n => negative_zero n = false
  | _ => True
  end.

(** The JSON-serializable values: plain data of objects, arrays, strings,
    finite numbers, booleans and [null]. *)
Definition json_serializable (v : JSValue float) : Prop :=
  every enumerated v /\ every defined_and_finite v.

(** What the round trip through JSON makes of a value: a number that is
    not finite and an [undefined] element of an array become [null], a
    property that is [undefined] is left out, and the negative zero loses
    its sign. *)
Fixpoint image (v : JSValue float) : JSValue float :=
  match v with
  | JUndefined => JNull
  | JNumber n =>
      if Number.is_finite n
      then JNumber (if negative_zero n then 0%float else n)
      else JNull
  | JArray elements => JArray (map image elements)
  | JObject properties =>
      JObject (omap (fun p : string * JSValue float =>
                       match p.2 with
                       | JUndefined => None
                       | _ => Some (p.1, image p.2)
                       end) properties)
  | _ => v
  end.

Import RequestBuilder.

(** [b] without one trailing slash, if it has one. *)
Fixpoint chop_slash (b : string) : string :=
  match b with
  | "" => ""
  | String c rest =>
      match rest with
      | "" => if Ascii.eqb c "/" then "" else b
      | String _ _ => String c (chop_slash rest)
      end
  end.

(** [endpoint] with one leading slash, added when it has none. *)
Definition with_leading_slash (endpoint : string) : string :=
  match endpoint with
  | String c _ => if Ascii.eqb c "/" then endpoint else String "/" endpoint
  | "" => "/"
  end.

(** The query parameters that are kept: those whose value is a non-empty
    string, in the order of the input. *)
Fixpoint kept (params : list (string * nullable string)) : list (string * string) :=
  match params with
  | [] => []
  | (key, Val value) :: params' =>
      if String.eqb value "" then kept params' else (key, value) :: kept params'
  | (_, Null) :: params' | (_, Undefined) :: params' => kept params'
  end.

(** The pairs [encodeURIComponent] accepts: no key and no value holds a
    surrogate outside a pair. *)
Definition encodable (pairs : list (string * string)) : bool :=
  forallb (fun p => negb (lone_surrogate p.1) && negb (lone_surrogate p.2)) pairs.

Definition pair_text (p : string * string) : string :=
  percent_encoded p.1 +:+ "=" +:+ percent_encoded p.2.

Definition query_string (pairs : list (string * string)) : string :=
  join (map pair_text pairs) "&".

Fixpoint occurs (c : ascii) (s : string) : bool :=
  match s with
  | "" => false
  | String d rest => Ascii.eqb c d || occurs c rest
  end.

(** The reference of the builder a successful construction returns, and the
    store it leaves. *)
Definition constructed (baseUrl : string) (h : Heap) : loc * Heap :=
  let l := fresh (dom (objects h)) in
  let this := fresh (dom (builders h)) in
  (this,
   {| objects := <[l := default_headers]> (objects h);
      builders :=
        <[this := {| baseUrl := chop_slash baseUrl; headers := l;
                     logger := {| context := "RequestBuilder" |} |}]> (builders h) |}).

(** The two failures of [setHeader]. *)
Definition InvalidHeaderKey : exn := Error "Header key cannot be empty".

Definition InvalidHeaderValue (key : string) : exn :=
  Error ("Header value for '" +:+ key +:+ "' cannot be null or undefined").

Definition blank (key : string) : Prop := key = "" \/ trim key = "".

(** The header operations of a builder, and a sequence of them applied to
    one builder by a caller that carries on after a failed call. *)
Inductive HeaderOp : Type :=
| SetHeader (key : string) (value : nullable string)
| SetHeaders (entries : list (string * nullable string))
| SetContentType (contentType : nullable string)
| SetBearerToken (token : nullable string)
| SetBasicAuth (username password : nullable string)
| RemoveHeader (key : string)
| ClearHeaders.

Definition apply_op (this : loc) (op : HeaderOp) : M loc :=
  match op with
  | SetHeader key value => setHeader this key value
  | SetHeaders entries => setHeaders this entries
  | SetContentType contentType => setContentType this contentType
  | SetBearerToken token => setBearerToken this token
  | SetBasicAuth username password => setBasicAuth this username password
  | RemoveHeader key => removeHeader this key
  | ClearHeaders => clearHeaders this
  end.

Fixpoint run_ops (this : loc) (ops : list HeaderOp) (h : Heap) : Heap :=
  match ops with
  | [] => h
  | op :: ops' => run_ops this ops' (apply_op this op h).2
  end.

(** One update of the store by a header operation of builder [x]: its
    header mapping is overwritten in place, or a fresh default mapping is
    allocated and bound to its [headers] field. *)
Inductive step (x : loc) (h : Heap) : Heap -> Prop :=
| step_update (bx : Builder) (m : gmap string string) :
    builders h !! x = Some bx ->
    is_Some (objects h !! headers bx) ->
    step x h {| objects := <[headers bx := m]> (objects h); builders := builders h |}
| step_rebind (bx : Builder) :
    builders h !! x = Some bx ->
    step x h
      {| objects := <[fresh (dom (objects h)) := default_headers]> (objects h);
         builders :=
           <[x := {| baseUrl := baseUrl bx; headers := fresh (dom (objects h));
                     logger := logger bx |}]> (builders h) |}.

(** Two builders that share no header mapping. *)
Definition separate (h : Heap) (x y : loc) : Prop :=
  exists bx by_,
    builders h !! x = Some bx /\ builders h !! y = Some by_
    /\ x <> y /\ headers bx <> headers by_
    /\ is_Some (objects h !! headers bx) /\ is_Some (objects h !! headers by_).

(** The header mapping [getHeaders] returns in a store. *)
Definition headers_of (this : loc) (h : Heap) : outcome (gmap string string) :=
  (getHeaders this h).1.

End Spec.

(** ** Further vocabulary *)

Module Terms.
Import JS Constants ResponseValidator.

Section Bodies.
Context {number : Type}.
Variable realm : Realm.

(** The required fields that are present with a [null] or [undefined]
    value. *)
Definition null_fields (response : JSValue number) (fields : list string) : list string :=
  List.filter
    (fun field =>
       Spec.present realm response field
       && property_is_nullish (lookup_property realm response field))
    fields.


End Bodies.

End Terms.

Module Calls.
Import JS Constants RequestBuilder.

(** An entry [setHeader] accepts: a key that is not blank and a value
    that is a string. *)
Definition accepts (entry : string * nullable string) : bool :=
  negb (String.eqb entry.1 "" || String.eqb (trim entry.1) "")
  && match entry.2 with Val _ => true | Null | Undefined => false end.

(** The error of an entry that is not accepted. *)
Definition rejection (entry : string * nullable string) : exn :=
  if String.eqb entry.1 "" || String.eqb (trim entry.1) ""
  then Spec.InvalidHeaderKey
  else Spec.InvalidHeaderValue entry.1.

(** The entries before the first one that is not accepted, and that one. *)
Fixpoint accepted (entries : list (string * nullable string)) : list (string * string) :=
  match entries with
  | (key, Val value) :: entries' =>
      if accepts (key, Val value) then (key, value) :: accepted entries' else []
  | _ => []
  end.

Fixpoint rejected (entries : list (string * nullable string))
  : option (string * nullable string) :=
  match entries with
  | [] => None
  | entry :: entries' => if accepts entry then rejected entries' else Some entry
  end.

(** A mapping after a sequence of writes, the later ones winning. *)
Definition inserted (pairs : list (string * string)) (m : gmap string string)
  : gmap string string :=
  fold_left (fun m p => assign_property m p.1 p.2) pairs m.

(** The value the last write to [key] among [pairs] gives it. *)
Fixpoint written (key : string) (pairs : list (string * string)) : option string :=
  match pairs with
  | [] => None
  | (k, v) :: pairs' =>
      match written key pairs' with
      | Some w => Some w
      | None => if String.eqb k key then Some v else None
      end
  end.

(** The number of occurrences of a character. *)
Fixpoint count (c : ascii) (s : string) : nat :=
  match s with
  | "" => 0
  | String d rest => (if Ascii.eqb c d then 1 else 0) + count c rest
  end.

(** The kept query parameters, as parameters again. *)
Definition as_params (pairs : list (string * string)) : list (string * nullable string) :=
  map (fun p => (p.1, Val p.2)) pairs.
End Calls.

Module Shapes.
Import JS RegExp.

(** The strings a pattern denotes. *)
Inductive matches : regex -> string -> Prop :=
| matches_empty : matches Empty ""
| matches_class (accepts : ascii -> bool) (c : ascii) :
    accepts c = true -> matches (Class accepts) (String c "")
| matches_seq (r1 r2 : regex) (s1 s2 : string) :
    matches r1 s1 -> matches r2 s2 -> matches (Seq r1 r2) (s1 +:+ s2)
| matches_alt_l (r1 r2 : regex) (s : string) :
    matches r1 s -> matches (Alt r1 r2) s
| matches_alt_r (r1 r2 : regex) (s : string) :
    matches r2 s -> matches (Alt r1 r2) s
| matches_star_nil (r : regex) : matches (Star r) ""
| matches_star_cons (r : regex) (s1 s2 : string) :
    matches r s1 -> matches (Star r) s2 -> matches (Star r) (s1 +:+ s2).

(** Every character of [s] satisfies [accepts]. *)
Fixpoint all (accepts : ascii -> bool) (s : string) : bool :=
  match s with
  | "" => true
  | String c rest => accepts c && all accepts rest
  end.

(** One or more characters, each satisfying [accepts]. *)
Definition some_of (accepts : ascii -> bool) (s : string) : Prop :=
  s <> "" /\ all accepts s = true.

Definition digit_or_dot (c : ascii) : bool := is_digit c || Ascii.eqb c ".".

(** The three shapes of a threshold: [p(N)<M], [rate<X] and [count?N] with
    [?] one of [<], [>] and [=], where [N] and [M] are runs of digits and
    [X] a run of digits and dots. *)
Definition threshold (t : string) : Prop :=
  (exists n m, some_of is_digit n /\ some_of is_digit m
               /\ t = "p(" +:+ n +:+ ")<" +:+ m)
  \/ (exists x, some_of digit_or_dot x /\ t = "rate<" +:+ x)
  \/ (exists op n, (op = "<" \/ op = ">" \/ op = "=")%char /\ some_of is_digit n
                   /\ t = "count" +:+ String op n).
End Shapes.

Module Runs.
Import JS Environment.

(** A name that [Object.prototype] does not define: looking it up in
    the table finds an entry of the table or nothing. *)
Definition plain (realm : Realm) (name : string) : Prop :=
  ObjectPrototype realm name = None.

(** The environment a call of [getEnvironmentConfig] is about. *)
Definition resolved (__ENV : gmap string string) (env : nullable string) : string :=
  match env with
  | Val e => if String.eqb e "" then getCurrentEnvironment __ENV else e
  | Null | Undefined => getCurrentEnvironment __ENV
  end.

(** An entry with the overrides of the environment variables written
    into it. *)
Definition overridden (__ENV : gmap string string) (c : EnvironmentConfig)
  : EnvironmentConfig :=
  {| name := name c;
     baseUrl := default (baseUrl c) (env_var __ENV "BASE_URL");
     timeout := timeout c;
     retryAttempts := retryAttempts c;
     logLevel := default (logLevel c) (env_var __ENV "LOG_LEVEL");
     enableMetrics := enableMetrics c;
     apiKey := apiKey c;
     customHeaders := customHeaders c |}.

(** The table after a sequence of calls, each with the environment
    variables of its run and its argument, by a caller that carries on after
    a failed call. *)
Fixpoint after (calls : list (gmap string string * nullable string)) (table : Table)
  : Table :=
  match calls with
  | [] => table
  | (__ENV, env) :: calls' => after calls' (getEnvironmentConfig __ENV env table).2
  end.

(** The fields of an entry that no call writes. *)
Definition fixed (c : EnvironmentConfig)
  : string * Z * Z * bool * option string * option (gmap string string) :=
  (name c, timeout c, retryAttempts c, enableMetrics c, apiKey c, customHeaders c).
End Runs.

Module Text.
Import JS.

(** A visible ASCII character: none of the bytes of a code point that
    [trim] removes. *)
Definition visible (c : ascii) : bool := in_range 33 126 c.

(** The levels a logger set to [current] prints: [current] and the more
    severe ones, in the order DEBUG, INFO, WARN, ERROR. *)
Definition printed (current level : Logger.LogLevel) : bool :=
  match current, level with
  | Logger.DEBUG, _ => true
  | Logger.INFO, (Logger.INFO | Logger.WARN | Logger.ERROR) => true
  | Logger.WARN, (Logger.WARN | Logger.ERROR) => true
  | Logger.ERROR, Logger.ERROR => true
  | _, _ => false
  end.

(** The line of an entry: its time, its level and the context of the
    logger in brackets, then its message. *)
Definition line (timestamp level context message : string) : string :=
  "[" +:+ timestamp +:+ "] [" +:+ level +:+ "] [" +:+ context +:+ "] " +:+ message.
End Text.

(** * Properties of the runtime *)

Section OrderFacts.
Import JS.
Local Open Scope list_scope.
Context {A : Type}.
Implicit Types (rank : A -> N) (l : list A).

Lemma insert_by_head rank (x : A) l :
  Forall (fun y => (rank x <= rank y)%N) l -> insert_by rank x l = x :: l.
Proof.
  destruct 1 as [|y l Hy _]; [reflexivity|]. simpl.
  destruct (N.ltb_spec (rank y) (rank x)); [lia|reflexivity].
Qed.

Lemma insert_by_permutation rank (x : A) l : insert_by rank x l ≡ₚ x :: l.
Proof.
  induction l as [|y l IH]; [reflexivity|]. simpl.
  destruct (rank y <? rank x)%N; [|reflexivity].
  rewrite IH. apply Permutation_swap.
Qed.

Lemma sort_by_permutation rank l : sort_by rank l ≡ₚ l.
Proof.
  induction l as [|x l IH]; [reflexivity|].
  unfold sort_by. cbn [foldr]. rewrite insert_by_permutation. f_equiv. exact IH.
Qed.

Lemma insert_by_sorted rank (x : A) l :
  StronglySorted (fun a b => (rank a <= rank b)%N) l ->
  StronglySorted (fun a b => (rank a <= rank b)%N) (insert_by rank x l).
Proof.
  induction 1 as [|y l Hl IH Hy]; simpl.
  - constructor; constructor.
  - destruct (N.ltb_spec (rank y) (rank x)) as [Hlt|Hge].
    + constructor; [exact IH|].
      rewrite insert_by_permutation. constructor; [lia|exact Hy].
    + constructor; [constructor; assumption|].
      constructor; [exact Hge|].
      eapply Forall_impl; [exact Hy|]. simpl. intros z Hz. lia.
Qed.

Lemma sort_by_sorted rank l :
  StronglySorted (fun a b => (rank a <= rank b)%N) (sort_by rank l).
Proof.
  induction l as [|x l IH]; [constructor|]. apply insert_by_sorted, IH.
Qed.

Lemma sort_by_fixed rank l :
  StronglySorted (fun a b => (rank a <= rank b)%N) l -> sort_by rank l = l.
Proof.
  induction 1 as [|x l Hl IH Hx]; [reflexivity|].
  unfold sort_by. cbn [foldr]. fold (sort_by rank l). rewrite IH.
  apply insert_by_head, Hx.
Qed.

End OrderFacts.

Section OrderOmap.
Import JS.
Local Open Scope list_scope.
Context {A B : Type}.
Implicit Types (rank : A -> N) (l : list A).

Lemma omap_insert_by (f : A -> option B) rank (rank' : B -> N) (x : A) l :
  (forall a b, f a = Some b -> rank' b = rank a) ->
  StronglySorted (fun a b => (rank a <= rank b)%N) l ->
  omap f (insert_by rank x l)
  = match f x with
    | Some y => insert_by rank' y (omap f l)
    | None => omap f l
    end.
Proof.
  intros Hf. induction 1 as [|y l Hl IH Hy]; cbn [insert_by].
  - cbn [omap list_omap]. destruct (f x); reflexivity.
  - destruct (N.ltb_spec (rank y) (rank x)) as [Hlt|Hge].
    + cbn [omap list_omap]. fold (omap f (insert_by rank x l)). fold (omap f l).
      rewrite IH.
      destruct (f x) as [x'|] eqn:Hx, (f y) as [y'|] eqn:Hy'; try reflexivity.
      cbn [insert_by]. rewrite (Hf _ _ Hx), (Hf _ _ Hy').
      destruct (N.ltb_spec (rank y) (rank x)); [reflexivity|lia].
    + change (omap f (x :: y :: l))
        with (match f x with Some x' => x' :: omap f (y :: l) | None => omap f (y :: l) end).
      destruct (f x) as [x'|] eqn:Hx; [|reflexivity].
      symmetry. apply insert_by_head.
      apply Forall_forall. intros b Hb.
      apply list_elem_of_omap in Hb as (a & Ha & Hab).
      rewrite (Hf _ _ Hx), (Hf _ _ Hab).
      apply elem_of_cons in Ha as [->|Ha]; [exact Hge|].
      pose proof (proj1 (Forall_forall _ _) Hy a Ha). simpl in *. lia.
Qed.

Lemma omap_sort_by (f : A -> option B) rank (rank' : B -> N) l :
  (forall a b, f a = Some b -> rank' b = rank a) ->
  omap f (sort_by rank l) = sort_by rank' (omap f l).
Proof.
  intros Hf. induction l as [|x l IH]; [reflexivity|].
  unfold sort_by at 1. cbn [foldr]. fold (sort_by rank l).
  rewrite (omap_insert_by f rank rank' x _ Hf (sort_by_sorted rank l)), IH.
  cbn [omap list_omap]. fold (omap f l). destruct (f x); reflexivity.
Qed.
End OrderOmap.

Section EntriesFacts.
Import JS.
Local Open Scope list_scope.
Context {A B : Type}.

Lemma entries_permutation (l : list (string * A)) : entries l ≡ₚ l.
Proof. apply sort_by_permutation. Qed.

Lemma entries_nil (l : list (string * A)) : entries l = [] <-> l = [].
Proof.
  split; [|intros ->; reflexivity].
  intros H. apply Permutation_nil. rewrite <- H. apply entries_permutation.
Qed.

Lemma entries_length (l : list (string * A)) : length (entries l) = length l.
Proof. apply Permutation_length, entries_permutation. Qed.

(** A mapping without array indices among its keys is enumerated in the
    order of creation. *)
Lemma entries_plain (l : list (string * A)) :
  Forall (fun p => integer_key p.1 = None) l -> entries l = l.
Proof.
  intros Hl. apply sort_by_fixed.
  induction Hl as [|p l Hp Hl IH]; constructor; [exact IH|].
  eapply Forall_impl; [exact Hl|]. simpl. intros q Hq.
  unfold order_rank. rewrite Hp, Hq. reflexivity.
Qed.

Lemma entries_idempotent (l : list (string * A)) : entries (entries l) = entries l.
Proof. apply sort_by_fixed, sort_by_sorted. Qed.

(** Leaving properties out, or changing their values, commutes with the
    enumeration. *)
Lemma entries_omap (f : string * A -> option (string * B)) (l : list (string * A)) :
  (forall p q, f p = Some q -> q.1 = p.1) ->
  omap f (entries l) = entries (omap f l).
Proof.
  intros Hf. apply omap_sort_by. intros p q Hpq. rewrite (Hf _ _ Hpq). reflexivity.
Qed.
End EntriesFacts.

Section FilterFacts.
Import JS.
Local Open Scope list_scope.
Context {A : Type}.

Lemma filter_omap (P : string * A -> bool) (l : list (string * A)) :
  List.filter P l = omap (fun p => if P p then Some p else None) l.
Proof.
  induction l as [|p l IH]; [reflexivity|]. simpl. rewrite IH.
  destruct (P p); reflexivity.
Qed.

(** The properties whose name is no array index are enumerated in the
    order of creation. *)
Lemma entries_filter (l : list (string * A)) :
  List.filter (fun p => bool_decide (integer_key p.1 = None)) (entries l)
  = List.filter (fun p => bool_decide (integer_key p.1 = None)) l.
Proof.
  rewrite (filter_omap _ (entries l)), entries_omap.
  - rewrite <- filter_omap. apply entries_plain.
    apply Forall_forall. intros p Hp. apply list_elem_of_In, filter_In in Hp as [_ Hp].
    apply bool_decide_eq_true_1 in Hp. exact Hp.
  - intros p q. destruct (bool_decide _); [|discriminate]. intros [= <-]. reflexivity.
Qed.
End FilterFacts.

(** * Properties of the Response Validator *)

Section ResponseValidatorFacts.
Import JS Constants ResponseValidator.
Context {number : Type}.
Variable realm : Realm.
Implicit Types (v body response : JSValue number) (fields : list string).

Lemma filter_throwing_total {A : Type} (p : A -> outcome bool) (q : A -> bool)
    (l : list A) :
  (forall x, p x = Ok (q x)) ->
  filter_throwing p l = Ok (List.filter q l).
Proof.
  intros Hp. induction l as [|x l IH]; simpl; [reflexivity|].
  rewrite Hp, IH. simpl. destruct (q x); reflexivity.
Qed.

Lemma not_an_object_is_object v : not_an_object v = negb (Spec.is_object v).
Proof. destruct v; reflexivity. Qed.

Lemma has_property_object v field :
  Spec.is_object v = true ->
  has_property realm field v = Ok (Spec.present realm v field).
Proof. destruct v; simpl; intros H; try discriminate; reflexivity. Qed.

Lemma has_property_primitive v field :
  Spec.is_object v = false -> has_property realm field v = Throw TypeError.
Proof. destruct v; simpl; intros H; try discriminate; reflexivity. Qed.

(** [hasRequiredFields] returns for every input, and returns the missing
    fields. *)
Lemma hasRequiredFields_returns response fields :
  hasRequiredFields realm response fields
  = Ok {| Fields.valid :=
            Spec.is_object response
            && (length (Spec.missing_fields realm response fields) =? 0)%nat;
          Fields.missing := Spec.missing_fields realm response fields |}.
Proof.
  unfold hasRequiredFields, Spec.missing_fields.
  rewrite not_an_object_is_object.
  destruct (Spec.is_object response) eqn:Hobj; simpl; [|reflexivity].
  rewrite (filter_throwing_total _ (fun field => negb (Spec.present realm response field))).
  - reflexivity.
  - intros field. rewrite (has_property_object _ _ Hobj). reflexivity.
Qed.

Lemma length_zero_iff_nil {A : Type} (l : list A) :
  (length l =? 0)%nat = true <-> l = [].
Proof. destruct l; simpl; split; intros H; congruence. Qed.

Lemma join_comma_separated (fields : list string) :
  join fields ", " = Spec.comma_separated fields.
Proof.
  unfold join. induction fields as [|a [|b l] IH]; [reflexivity|reflexivity|].
  change (String.concat ", " (a :: b :: l)) with (a +:+ ", " +:+ String.concat ", " (b :: l)).
  rewrite IH. reflexivity.
Qed.

Lemma isSuccessful_2xx (statusCode : Z) :
  isSuccessful statusCode = bool_decide (200 <= statusCode <= 299)%Z.
Proof.
  unfold isSuccessful, HTTP_STATUS.SUCCESS_MIN, HTTP_STATUS.SUCCESS_MAX.
  destruct (decide (200 <= statusCode <= 299)%Z) as [H|H].
  - rewrite (bool_decide_eq_true_2 _ H). apply andb_true_iff. split; lia.
  - rewrite (bool_decide_eq_false_2 _ H). apply andb_false_iff. lia.
Qed.

Lemma hasResponseBody_empty body : hasResponseBody body = negb (Spec.empty_body body).
Proof.
  destruct body as [| |b|n|s|es|ps]; try reflexivity.
  - unfold hasResponseBody. cbn [is_null is_undefined orb typeof Spec.empty_body].
    destruct (String.eqb_spec (trim s) "") as [Hs|Hs].
    + rewrite (bool_decide_eq_true_2 _ Hs). reflexivity.
    + rewrite (bool_decide_eq_false_2 _ Hs). reflexivity.
  - unfold hasResponseBody. cbn [is_null is_undefined orb typeof].
    simpl keys. rewrite length_map, length_seq. destruct es; reflexivity.
  - destruct ps; reflexivity.
Qed.

(** C1. [validateResponse] returns the same result whatever [maxDuration]
    is. It always returns; [details.errors] lists, in this order, the
    failures among a status outside 200 to 299, an empty body and missing
    required fields, each with its message; the result is [valid] iff that
    list is empty, and its message says which. *)
Theorem validateResponse_accumulates_failures
    (statusCode : Z) body (requiredFields : option (list string))
    (maxDuration maxDuration' : option float) :
  validateResponse realm statusCode body requiredFields maxDuration
  = validateResponse realm statusCode body requiredFields maxDuration'
  /\ exists result,
      validateResponse realm statusCode body requiredFields maxDuration = Ok result
      /\ details result
         = Some (ErrorDetails (Spec.failures realm statusCode body requiredFields))
      /\ (valid result = true
          <-> Spec.failures realm statusCode body requiredFields = [])
      /\ message result
         = Some (if valid result then "Response validation passed"
                 else "Response validation failed").
Proof.
  split; [reflexivity|].
  unfold validateResponse, Spec.failures, Spec.status_failure, Spec.body_failure,
    Spec.fields_failure.
  rewrite isSuccessful_2xx, hasResponseBody_empty, negb_involutive.
  set (text := "Invalid status code: " +:+ _).
  set (e2 := if Spec.empty_body body then _ else _).
  assert (He2 : e2 = ((if decide (200 <= statusCode <= 299)%Z then [] else [text])
                      ++ (if Spec.empty_body body then ["Response body is empty"] else []))%list).
  { subst e2.
    destruct (decide (200 <= statusCode <= 299)%Z) as [H|H];
      [rewrite (bool_decide_eq_true_2 _ H)|rewrite (bool_decide_eq_false_2 _ H)];
      destruct (Spec.empty_body body); reflexivity. }
  clearbody e2. subst e2.
  set (e := (_ ++ _)%list).
  destruct requiredFields as [[|f fields]|]; simpl.
  - eexists; split; [reflexivity|]. simpl. rewrite app_nil_r.
    split; [reflexivity|]. split; [apply length_zero_iff_nil|reflexivity].
  - rewrite hasRequiredFields_returns. simpl.
    assert (Hvalid :
      Spec.is_object body
      && (length (Spec.missing_fields realm body (f :: fields)) =? 0)%nat
      = (length (Spec.missing_fields realm body (f :: fields)) =? 0)%nat).
    { unfold Spec.missing_fields.
      destruct (Spec.is_object body); reflexivity. }
    rewrite Hvalid, join_comma_separated.
    destruct (Spec.missing_fields realm body (f :: fields)) as [|m miss]; simpl.
    + eexists; split; [reflexivity|]. simpl. rewrite app_nil_r.
      split; [reflexivity|]. split; [apply length_zero_iff_nil|reflexivity].
    + eexists; split; [reflexivity|]. simpl. subst e. rewrite <- app_assoc.
      split; [reflexivity|]. split; [apply length_zero_iff_nil|reflexivity].
  - eexists; split; [reflexivity|]. simpl. rewrite app_nil_r.
    split; [reflexivity|]. split; [apply length_zero_iff_nil|reflexivity].
Qed.

(** C10. On an array body [hasRequiredFields] does not take the
    not-an-object branch: every field is tested for presence as a key of
    the array itself, and with the field list [["length"]] the result is
    valid with nothing missing. *)
Theorem hasRequiredFields_array (elements : list (JSValue number)) fields :
  not_an_object (JArray elements) = false
  /\ hasRequiredFields realm (JArray elements) fields
     = Ok {| Fields.valid :=
               forallb (Spec.present realm (JArray elements)) fields;
             Fields.missing :=
               List.filter (fun field => negb (Spec.present realm (JArray elements) field))
                 fields |}
  /\ hasRequiredFields realm (JArray elements) ["length"]
     = Ok {| Fields.valid := true; Fields.missing := [] |}.
Proof.
  split; [reflexivity|]. split.
  - rewrite hasRequiredFields_returns. unfold Spec.missing_fields. simpl.
    f_equal. f_equal.
    induction fields as [|f fields IH]; simpl; [reflexivity|].
    destruct (Spec.present realm (JArray elements) f); simpl; [exact IH|reflexivity].
  - rewrite hasRequiredFields_returns. reflexivity.
Qed.

(** C3, at the input where the code departs from it: with [null] as the
    response, [hasExpectedType] throws a [TypeError] instead of returning
    [false], and so does [validateSchema] on a schema with an entry. *)
Theorem hasExpectedType_null_throws (field expectedType : string) :
  hasExpectedType realm (JNull : JSValue number) field expectedType = Throw TypeError
  /\ validateSchema realm (JNull : JSValue number) [(field, expectedType)]
     = Throw TypeError.
Proof. split; reflexivity. Qed.

(** The guarded validators return on every input. *)
Lemma hasExpectedType_returns_on_objects response field expectedType :
  Spec.is_object response = true ->
  exists b, hasExpectedType realm response field expectedType = Ok b.
Proof.
  intros Hobj. unfold hasExpectedType.
  rewrite (has_property_object _ _ Hobj). simpl.
  destruct (Spec.present realm response field); simpl; [|eauto].
  destruct (negb _); eauto.
Qed.

Lemma hasExpectedType_throws_on_primitives response field expectedType :
  Spec.is_object response = false ->
  hasExpectedType realm response field expectedType = Throw TypeError.
Proof.
  intros Hobj. unfold hasExpectedType.
  rewrite (has_property_primitive _ _ Hobj). reflexivity.
Qed.

Lemma validateSchema_returns_on_objects response (schema : list (string * string)) :
  Spec.is_object response = true ->
  exists result, validateSchema realm response schema = Ok result.
Proof.
  intros Hobj. unfold validateSchema.
  set (step := fun (errors : list string) (entry : string * string) => _).
  assert (Hloop : forall errors0, exists errors, for_each step schema errors0 = Ok errors).
  { induction schema as [|[field expectedType] schema IH]; intros errors0; simpl.
    - eauto.
    - destruct (hasExpectedType_returns_on_objects response field expectedType Hobj)
        as [ok Hok].
      rewrite Hok. simpl. apply IH. }
  destruct (Hloop []) as [errors ->]. simpl. eauto.
Qed.

Lemma validateRequiredFields_returns response fields :
  exists result, validateRequiredFields realm response fields = Ok result.
Proof.
  unfold validateRequiredFields. rewrite not_an_object_is_object.
  destruct (Spec.is_object response) eqn:Hobj; simpl; [|eauto].
  generalize (@nil string, @nil string).
  induction fields as [|f fields IH]; intros [m n]; simpl.
  - eauto.
  - rewrite (has_property_object _ _ Hobj). simpl.
    destruct (Spec.present realm response f); simpl.
    + destruct (property_is_nullish _); apply IH.
    + apply IH.
Qed.
End ResponseValidatorFacts.

(** C9. [meetsPerformanceThresholds] is false when the observed duration or
    the threshold is negative, and otherwise is the comparison
    [observed <= threshold]; equal non-negative arguments give [true]. *)
Theorem meetsPerformanceThresholds_spec (observed threshold : float) :
  (PrimFloat.ltb observed 0 = true \/ PrimFloat.ltb threshold 0 = true ->
   ResponseValidator.meetsPerformanceThresholds observed threshold = false)
  /\ (PrimFloat.ltb observed 0 = false -> PrimFloat.ltb threshold 0 = false ->
      ResponseValidator.meetsPerformanceThresholds observed threshold
      = PrimFloat.leb observed threshold)
  /\ (PrimFloat.ltb observed 0 = false -> PrimFloat.ltb threshold 0 = false ->
      PrimFloat.eqb observed threshold = true ->
      ResponseValidator.meetsPerformanceThresholds observed threshold = true).
Proof.
  unfold ResponseValidator.meetsPerformanceThresholds.
  split; [|split].
  - intros [H|H]; rewrite H; [reflexivity|].
    destruct (PrimFloat.ltb observed 0); reflexivity.
  - intros H1 H2. rewrite H1, H2. reflexivity.
  - intros H1 H2 Heq. rewrite H1, H2. simpl.
    rewrite FloatAxioms.leb_spec. rewrite FloatAxioms.eqb_spec in Heq.
    unfold SFleb. unfold SFeqb in Heq.
    destruct (SFcompare _ _) as [[ | | ]|]; try discriminate; reflexivity.
Qed.

Lemma meetsPerformanceThresholds_witness :
  ResponseValidator.meetsPerformanceThresholds (-1) 500 = false
  /\ ResponseValidator.meetsPerformanceThresholds 450 500 = PrimFloat.leb 450 500
  /\ ResponseValidator.meetsPerformanceThresholds 500 500 = true.
Proof.
  destruct (meetsPerformanceThresholds_spec (-1) 500) as [H1 _].
  destruct (meetsPerformanceThresholds_spec 450 500) as [_ [H2 _]].
  destruct (meetsPerformanceThresholds_spec 500 500) as [_ [_ H3]].
  split; [|split].
  - apply H1. left. reflexivity.
  - apply H2; reflexivity.
  - apply H3; reflexivity.
Defined.

(** * Properties of the Request Builder *)

Section StringFacts.
Import JS.

Lemma slice_drop_last (s : string) :
  slice s 0 (-1) = substring 0 (String.length s - 1) s.
Proof.
  unfold slice. simpl.
  replace (Z.min 0 (Z.of_nat (String.length s))) with 0%Z by lia.
  f_equal. lia.
Qed.

Lemma endsWith_slash_cons (c d : ascii) (s : string) :
  endsWith (String c (String d s)) "/" = endsWith (String d s) "/".
Proof.
  unfold endsWith. simpl String.length.
  replace (S (S (String.length s)) - 1) with (S (S (String.length s) - 1)) by lia.
  reflexivity.
Qed.

Lemma endsWith_slash_single (c : ascii) :
  endsWith (String c "") "/" = Ascii.eqb c "/".
Proof.
  unfold endsWith. simpl. destruct (Ascii.eqb c "/"); reflexivity.
Qed.

(** What the constructor stores is the base without one trailing slash. *)
Lemma stored_base_chops_slash (b : string) :
  (if endsWith b "/" then slice b 0 (-1) else b) = Spec.chop_slash b.
Proof.
  rewrite slice_drop_last.
  induction b as [|c [|d s] IH].
  - reflexivity.
  - rewrite endsWith_slash_single. simpl. destruct (Ascii.eqb c "/"); reflexivity.
  - rewrite endsWith_slash_cons.
    change (Spec.chop_slash (String c (String d s)))
      with (String c (Spec.chop_slash (String d s))).
    rewrite <- IH.
    destruct (endsWith (String d s) "/"); [|reflexivity].
    simpl String.length.
    replace (S (S (String.length s)) - 1) with (S (S (String.length s) - 1)) by lia.
    reflexivity.
Qed.

Lemma chop_slash_removes_slash (b : string) :
  Spec.chop_slash (b +:+ "/") = b.
Proof.
  induction b as [|c [|d s] IH]; [reflexivity|reflexivity|].
  change (String c (String d s) +:+ "/") with (String c (String d (s +:+ "/"))).
  change (Spec.chop_slash (String c (String d (s +:+ "/"))))
    with (String c (Spec.chop_slash (String d s +:+ "/"))).
  rewrite IH. reflexivity.
Qed.

Lemma chop_slash_keeps (b : string) :
  endsWith b "/" = false -> Spec.chop_slash b = b.
Proof.
  intros H. rewrite <- stored_base_chops_slash, H. reflexivity.
Qed.

Lemma startsWith_slash (endpoint : string) :
  (if startsWith endpoint "/" then endpoint else "/" +:+ endpoint)
  = Spec.with_leading_slash endpoint.
Proof.
  destruct endpoint as [|c s]; [reflexivity|].
  unfold startsWith, Spec.with_leading_slash.
  change (String.prefix "/" (String c s))
    with (if ascii_dec "/" c then String.prefix "" s else false).
  destruct (ascii_dec "/" c) as [<-|Hne].
  - destruct s; reflexivity.
  - destruct (Ascii.eqb_spec c "/") as [->|_]; [contradiction|reflexivity].
Qed.

Lemma occurs_append (c : ascii) (s t : string) :
  Spec.occurs c (s +:+ t) = Spec.occurs c s || Spec.occurs c t.
Proof.
  induction s as [|d s IH]; simpl; [reflexivity|].
  rewrite IH. apply orb_assoc.
Qed.

Lemma percent_encode_free (c d : ascii) :
  c <> "%"%char -> (forall n, n < 16 -> hex_upper n <> c) ->
  Spec.occurs c (percent_encode d) = false.
Proof.
  intros Hpct Hhex. unfold percent_encode. cbn [Spec.occurs].
  assert (E1 : Ascii.eqb c "%" = false) by (apply Ascii.eqb_neq; assumption).
  assert (E2 : forall n, n < 16 -> Ascii.eqb c (hex_upper n) = false).
  { intros n Hn. apply Ascii.eqb_neq. intros E. apply (Hhex n Hn). congruence. }
  rewrite E1, !E2; [reflexivity| |].
  - apply Nat.mod_upper_bound. lia.
  - apply Nat.Div0.div_lt_upper_bound.
    pose proof (nat_ascii_bounded d). lia.
Qed.

Lemma percent_encode_all_free (c : ascii) (octets : string) :
  c <> "%"%char -> (forall n, n < 16 -> hex_upper n <> c) ->
  Spec.occurs c (percent_encode_all octets) = false.
Proof.
  intros Hpct Hhex. induction octets as [|d octets IH]; [reflexivity|].
  cbn [percent_encode_all]. rewrite occurs_append, IH, percent_encode_free by assumption.
  reflexivity.
Qed.

Lemma percent_encoded_cons (a : ascii) (rest : string) :
  percent_encoded (String a rest)
  = match rest with
    | String b (String c (String d (String e (String f rest6)))) =>
        if leading_surrogate a b c && trailing_surrogate d e f
        then percent_encode_all (utf8 (pair_code_point b c e f))
             +:+ percent_encoded rest6
        else (if uri_unreserved a then String a "" else percent_encode a)
             +:+ percent_encoded rest
    | _ => (if uri_unreserved a then String a "" else percent_encode a)
           +:+ percent_encoded rest
    end.
Proof. reflexivity. Qed.

(** No character that is reserved in a URI is left in an encoded
    component. *)
Lemma percent_encoded_escapes (c : ascii) (s : string) :
  uri_unreserved c = false -> c <> "%"%char ->
  (forall n, n < 16 -> hex_upper n <> c) ->
  Spec.occurs c (percent_encoded s) = false.
Proof.
  intros Hc Hpct Hhex.
  assert (Hunit : forall d,
    Spec.occurs c (if uri_unreserved d then String d "" else percent_encode d) = false).
  { intros d. destruct (uri_unreserved d) eqn:Hd.
    - simpl. rewrite orb_false_r.
      destruct (Ascii.eqb_spec c d) as [->|_]; [congruence|reflexivity].
    - apply percent_encode_free; assumption. }
  assert (H : forall n s, String.length s <= n -> Spec.occurs c (percent_encoded s) = false).
  { induction n as [|n IH]; intros s' Hn.
    - destruct s'; [reflexivity|simpl in Hn; lia].
    - destruct s' as [|a rest]; [reflexivity|].
      rewrite percent_encoded_cons.
      cbn [String.length] in Hn.
      assert (Hrest : Spec.occurs c
                (if uri_unreserved a then String a "" else percent_encode a)
                || Spec.occurs c (percent_encoded rest) = false).
      { rewrite Hunit, IH by lia. reflexivity. }
      destruct rest as [|b [|c' [|d [|e [|f rest6]]]]];
        try (rewrite occurs_append; exact Hrest).
      destruct (leading_surrogate a b c' && trailing_surrogate d e f);
        [|rewrite occurs_append; exact Hrest].
      rewrite occurs_append, percent_encode_all_free by assumption.
      apply IH. cbn [String.length] in Hn. lia. }
  apply (H (String.length s)). lia.
Qed.

Lemma hex_upper_not (c : ascii) :
  existsb (fun n => Ascii.eqb (hex_upper n) c) (seq 0 16) = false ->
  forall n, n < 16 -> hex_upper n <> c.
Proof.
  intros H n Hn E.
  assert (Hex : existsb (fun n => Ascii.eqb (hex_upper n) c) (seq 0 16) = true).
  { apply existsb_exists. exists n. split.
    - apply in_seq. lia.
    - rewrite E. apply Ascii.eqb_refl. }
  congruence.
Qed.

Lemma query_string_free_of (c : ascii) (pairs : list (string * string)) :
  uri_unreserved c = false -> c <> "%"%char -> c <> "="%char -> c <> "&"%char ->
  existsb (fun n => Ascii.eqb (hex_upper n) c) (seq 0 16) = false ->
  Spec.occurs c (Spec.query_string pairs) = false.
Proof.
  intros Hc Hpct Heq Hamp Hhex.
  pose proof (hex_upper_not c Hhex) as Hh.
  assert (Hpair : forall p, Spec.occurs c (Spec.pair_text p) = false).
  { intros p. unfold Spec.pair_text.
    rewrite !occurs_append, !percent_encoded_escapes by assumption.
    simpl. destruct (Ascii.eqb_spec c "=") as [->|_]; [contradiction|reflexivity]. }
  unfold Spec.query_string, join.
  induction pairs as [|p [|q pairs] IH]; simpl.
  - reflexivity.
  - apply Hpair.
  - rewrite !occurs_append, Hpair. simpl.
    destruct (Ascii.eqb_spec c "&") as [->|_]; [contradiction|]. simpl.
    exact IH.
Qed.
End StringFacts.

Section RequestBuilderFacts.
Import JS Constants RequestBuilder.
Variable url_parses : string -> bool.
Implicit Types (this : loc) (h : Heap) (b : Builder) (m : gmap string string).

Lemma bind_unfold {A B : Type} (m : M A) (f : A -> M B) h :
  (m ≫= f) h
  = match m h with
    | (Ok a, h') => f a h'
    | (Throw e, h') => (Throw e, h')
    end.
Proof. reflexivity. Qed.

Lemma get_builder_found this h b :
  builders h !! this = Some b -> get_builder this h = (Ok b, h).
Proof. intros H. unfold get_builder. rewrite H. reflexivity. Qed.

Lemma get_object_found l h m :
  objects h !! l = Some m -> get_object l h = (Ok m, h).
Proof. intros H. unfold get_object. rewrite H. reflexivity. Qed.

Lemma getHeaders_found this h b m :
  builders h !! this = Some b -> objects h !! headers b = Some m ->
  getHeaders this h = (Ok m, h).
Proof.
  intros Hb Hm. unfold getHeaders, mbind, M_bind.
  rewrite (get_builder_found _ _ _ Hb). apply get_object_found, Hm.
Qed.

Lemma new_returns (baseUrl : string) h :
  url_parses baseUrl = true ->
  new url_parses baseUrl h
  = (Ok (Spec.constructed baseUrl h).1, (Spec.constructed baseUrl h).2).
Proof.
  intros Hurl. unfold new, validateUrl, Spec.constructed. rewrite Hurl.
  rewrite stored_base_chops_slash. reflexivity.
Qed.

Lemma new_throws (baseUrl : string) h :
  url_parses baseUrl = false -> new url_parses baseUrl h = (Throw TypeError, h).
Proof. intros Hurl. unfold new, validateUrl. rewrite Hurl. reflexivity. Qed.


Lemma constructed_builder (baseUrl : string) h :
  builders (Spec.constructed baseUrl h).2 !! (Spec.constructed baseUrl h).1
  = Some {| baseUrl := Spec.chop_slash baseUrl;
            headers := fresh (dom (objects h));
            logger := {| context := "RequestBuilder" |} |}.
Proof. unfold Spec.constructed. simpl. apply lookup_insert_eq. Qed.

Lemma constructed_headers (baseUrl : string) h :
  objects (Spec.constructed baseUrl h).2 !! fresh (dom (objects h)) = Some default_headers.
Proof. unfold Spec.constructed. simpl. apply lookup_insert_eq. Qed.

(** C2, as the code has it: for a base [b] that parses as a URL,
    construction succeeds and [buildUrl("")] without query parameters
    returns [b] without one trailing slash followed by a single ["/"], the
    empty endpoint being normalised to ["/"]. *)
Theorem buildUrl_empty_endpoint (b : string) h :
  url_parses b = true ->
  exists this h',
    new url_parses b h = (Ok this, h')
    /\ buildUrl this "" None h' = (Ok (Spec.chop_slash b +:+ "/"), h').
Proof.
  intros Hurl. eexists _, _. split; [apply new_returns, Hurl|].
  unfold buildUrl, mbind, M_bind.
  rewrite (get_builder_found _ _ _ (constructed_builder b h)).
  reflexivity.
Qed.

Lemma assign_property_other (m : gmap string string) (key value : string) :
  key <> "__proto__" -> assign_property m key value = <[key := value]> m.
Proof.
  intros Hkey. unfold assign_property.
  destruct (String.eqb_spec key "__proto__"); [contradiction|reflexivity].
Qed.

Lemma assign_property_proto (m : gmap string string) (value : string) :
  m !! "__proto__" = None -> assign_property m "__proto__" value = m.
Proof.
  intros Hm. unfold assign_property. rewrite (bool_decide_eq_true_2 _ Hm). reflexivity.
Qed.

(** C4, with the input where the code departs from it. [setHeader] throws
    [InvalidHeaderKey] on an empty or blank key and [InvalidHeaderValue] on
    a [null] or [undefined] value, leaving the store as it was. Otherwise
    it returns the builder; for every key but [__proto__] the entry is
    inserted or overwritten in the header mapping and nothing else changes,
    but for the key [__proto__] no entry is stored: the header mapping and
    the store are what they were before the call. *)
Theorem setHeader_contract this (key : string) (value : nullable string) h :
  (Spec.blank key ->
   setHeader this key value h = (Throw Spec.InvalidHeaderKey, h))
  /\ (~ Spec.blank key -> value = Null \/ value = Undefined ->
      setHeader this key value h = (Throw (Spec.InvalidHeaderValue key), h))
  /\ (~ Spec.blank key ->
      forall v b m,
        value = Val v ->
        builders h !! this = Some b -> objects h !! headers b = Some m ->
        exists h',
          setHeader this key value h = (Ok this, h')
          /\ builders h' = builders h
          /\ (key <> "__proto__" ->
              getHeaders this h' = (Ok (<[key := v]> m), h')
              /\ objects h' = <[headers b := <[key := v]> m]> (objects h))
          /\ (key = "__proto__" -> m !! "__proto__" = None ->
              getHeaders this h' = (Ok m, h')
              /\ objects h' = objects h
              /\ getHeaders this h' <> (Ok (<[key := v]> m), h'))).
Proof.
  assert (Hblank : Spec.blank key <->
            String.eqb key "" || String.eqb (trim key) "" = true).
  { unfold Spec.blank. rewrite orb_true_iff, !String.eqb_eq. reflexivity. }
  unfold setHeader. split; [|split].
  - intros Hk. apply Hblank in Hk. rewrite Hk. reflexivity.
  - intros Hk Hv.
    rewrite (not_true_is_false _ (fun E => Hk (proj2 Hblank E))).
    destruct Hv as [-> | ->]; reflexivity.
  - intros Hk v b m -> Hb Hm.
    rewrite (not_true_is_false _ (fun E => Hk (proj2 Hblank E))).
    unfold mbind, M_bind.
    rewrite (get_builder_found _ _ _ Hb), (get_object_found _ _ _ Hm).
    simpl. eexists. split; [reflexivity|]. split; [reflexivity|]. split.
    + intros Hkey. rewrite (assign_property_other _ _ _ Hkey).
      split; [|reflexivity].
      eapply getHeaders_found; simpl; [exact Hb|]. apply lookup_insert_eq.
    + intros -> Hnone. rewrite (assign_property_proto _ _ Hnone).
      assert (Hget : getHeaders this
                {| objects := <[headers b := m]> (objects h); builders := builders h |}
              = (Ok m, {| objects := <[headers b := m]> (objects h);
                          builders := builders h |})).
      { eapply getHeaders_found; simpl; [exact Hb|]. apply lookup_insert_eq. }
      split; [exact Hget|]. split; [simpl; apply insert_id, Hm|].
      rewrite Hget. intros [= E].
      assert (Hl : <["__proto__" := v]> m !! "__proto__" = None) by (rewrite <- E; exact Hnone).
      rewrite lookup_insert_eq in Hl. discriminate Hl.
Qed.

Lemma filter_kept (params : list (string * nullable string)) :
  List.filter
    (fun p : string * nullable string =>
       match p.2 with
       | Null | Undefined => false
       | Val s => negb (String.eqb s "")
       end)
    params
  = Calls.as_params (Spec.kept params).
Proof.
  induction params as [|[k [| |v]] params IH]; simpl; try assumption; [reflexivity|].
  destruct (String.eqb v ""); simpl; [assumption|].
  f_equal. assumption.
Qed.

Lemma map_throwing_pairs (pairs : list (string * string)) :
  map_throwing
    (fun p : string * nullable string =>
       key ← encodeURIComponent p.1;
       value ← encodeURIComponent (ToString p.2);
       Ok (key +:+ "=" +:+ value))
    (Calls.as_params pairs)
  = if Spec.encodable pairs then Ok (map Spec.pair_text pairs) else Throw URIError.
Proof.
  induction pairs as [|[k v] pairs IH]; [reflexivity|].
  cbn [Calls.as_params map map_throwing Spec.encodable forallb fst snd ToString].
  fold (Calls.as_params pairs). fold (Spec.encodable pairs). rewrite IH.
  unfold encodeURIComponent, Spec.pair_text.
  destruct (lone_surrogate k); [reflexivity|].
  destruct (lone_surrogate v); [reflexivity|].
  destruct (Spec.encodable pairs); reflexivity.
Qed.

(** What [buildUrl] returns, whatever the builder and the parameters. *)
Lemma buildUrl_returns this (endpoint : string)
    (queryParams : option (list (string * nullable string))) h :
  buildUrl this endpoint queryParams h
  = match builders h !! this with
    | None => (Throw TypeError, h)
    | Some b =>
        let path := baseUrl b +:+ Spec.with_leading_slash endpoint in
        (match
           Spec.kept (entries (match queryParams with Some params => params | None => [] end))
         with
         | [] => Ok path
         | pairs =>
             if Spec.encodable pairs
             then Ok (path +:+ "?" +:+ Spec.query_string pairs)
             else Throw URIError
         end, h)
    end.
Proof.
  unfold buildUrl, mbind, M_bind, get_builder.
  destruct (builders h !! this) as [b|]; [|reflexivity].
  rewrite startsWith_slash. cbv zeta.
  destruct queryParams as [params|]; [|reflexivity].
  rewrite filter_kept.
  destruct (entries params) as [|p l]; [reflexivity|].
  change (length (map fst (p :: l)) =? 0)%nat with false. cbv iota.
  unfold Calls.as_params at 1. rewrite length_map.
  destruct (Spec.kept (p :: l)) as [|q pairs]; [reflexivity|].
  change (length (q :: pairs) =? 0)%nat with false. cbv iota.
  unfold lift. rewrite map_throwing_pairs.
  destruct (Spec.encodable (q :: pairs)); reflexivity.
Qed.

Lemma kept_omap (params : list (string * nullable string)) :
  Spec.kept params
  = omap (fun p : string * nullable string =>
            match p.2 with
            | Val value => if String.eqb value "" then None else Some (p.1, value)
            | Null | Undefined => None
            end) params.
Proof.
  induction params as [|[k [| |v]] params IH]; simpl; try assumption; [reflexivity|].
  destruct (String.eqb v ""); [assumption|]. rewrite IH. reflexivity.
Qed.

(** Dropping parameters commutes with the enumeration. *)
Lemma kept_entries (params : list (string * nullable string)) :
  Spec.kept (entries params) = entries (Spec.kept params).
Proof.
  rewrite !kept_omap. apply entries_omap.
  intros [k [| |v]] q; simpl; try discriminate.
  destruct (String.eqb v ""); [discriminate|]. intros [= <-]. reflexivity.
Qed.

(** C6, as the code has it. With a non-empty mapping of query parameters,
    [buildUrl] drops the parameters whose value is [null], [undefined] or
    the empty string; when none is left it returns the path. Otherwise it
    throws a [URIError] when a key or a value that is left holds a surrogate
    outside a pair, and else returns the path, one ["?"] and the remaining
    pairs, percent-encoded as [key=value] and joined with ["&"], in the
    order [Object.entries] enumerates the mapping: the keys that are array
    indices first, by ascending index, then the other keys in the order of
    insertion. That is the order of insertion when no key is an array
    index. The query string holds no ["?"]. *)
Theorem buildUrl_query this h b (endpoint : string)
    (params : list (string * nullable string)) :
  builders h !! this = Some b ->
  params <> [] ->
  let path := baseUrl b +:+ Spec.with_leading_slash endpoint in
  let pairs := Spec.kept (entries params) in
  buildUrl this endpoint (Some params) h
  = (match pairs with
     | [] => Ok path
     | _ =>
         if Spec.encodable pairs
         then Ok (path +:+ "?" +:+ Spec.query_string pairs)
         else Throw URIError
     end, h)
  /\ Spec.occurs "?" (Spec.query_string pairs) = false
  /\ pairs = entries (Spec.kept params)
  /\ (Forall (fun p => integer_key p.1 = None) params -> pairs = Spec.kept params)
  /\ StronglySorted (fun p q => (order_rank p.1 <= order_rank q.1)%N) pairs
  /\ pairs ≡ₚ Spec.kept params
  /\ List.filter (fun p => bool_decide (integer_key p.1 = None)) pairs
     = List.filter (fun p => bool_decide (integer_key p.1 = None)) (Spec.kept params).
Proof.
  intros Hb Hparams path pairs.
  split.
  { rewrite buildUrl_returns, Hb. cbv zeta. fold path. fold pairs.
    destruct pairs; reflexivity. }
  split; [apply query_string_free_of; (reflexivity || discriminate)|].
  split; [apply kept_entries|].
  split; [intros Hplain; subst pairs; rewrite (entries_plain _ Hplain); reflexivity|].
  subst pairs. rewrite kept_entries.
  split; [apply (sort_by_sorted (fun p : string * string => order_rank p.1))|].
  split; [apply entries_permutation|].
  apply entries_filter.
Qed.

End RequestBuilderFacts.

Section CloneFacts.
Import JS Constants RequestBuilder.
Variable url_parses : string -> bool.
Implicit Types (this x y : loc) (h : Heap) (b : Builder) (m : gmap string string).

Lemma headers_of_found this h b m :
  builders h !! this = Some b -> objects h !! headers b = Some m ->
  Spec.headers_of this h = Ok m.
Proof.
  intros Hb Hm. unfold Spec.headers_of.
  rewrite (getHeaders_found _ _ _ _ Hb Hm). reflexivity.
Qed.

Lemma allocated_not_fresh {A : Type} (objs : gmap loc A) (l : loc) :
  is_Some (objs !! l) -> l <> fresh (dom objs).
Proof.
  intros Hl ->. apply (is_fresh (dom objs)). apply elem_of_dom, Hl.
Qed.

(** A step of [x] keeps [x] and [y] separate and leaves what [y] reads
    untouched. *)
Lemma step_frame x y h h' :
  Spec.separate h x y -> Spec.step x h h' ->
  Spec.separate h' x y /\ Spec.headers_of y h' = Spec.headers_of y h.
Proof.
  intros (bx & by_ & Hx & Hy & Hxy & Hsep & Hmx & [my Hmy]) Hstep.
  destruct Hstep as [bx' m Hx' Hm' | bx' Hx'];
    rewrite Hx in Hx'; injection Hx' as <-.
  - split.
    + exists bx, by_. simpl. repeat split; try assumption.
      * rewrite lookup_insert_eq. eauto.
      * rewrite lookup_insert_ne by assumption. eauto.
    + rewrite (headers_of_found y h by_ my Hy Hmy).
      apply (headers_of_found y _ by_ my); simpl; [assumption|].
      rewrite lookup_insert_ne by assumption. assumption.
  - assert (Hfresh : headers by_ <> fresh (dom (objects h))).
    { apply allocated_not_fresh. eauto. }
    split.
    + eexists _, by_. simpl. split; [apply lookup_insert_eq|].
      split; [rewrite lookup_insert_ne by assumption; assumption|].
      split; [assumption|]. simpl.
      split; [congruence|].
      split; [rewrite lookup_insert_eq; eauto|].
      rewrite lookup_insert_ne by congruence. eauto.
    + rewrite (headers_of_found y h by_ my Hy Hmy).
      apply (headers_of_found y _ by_ my); simpl.
      * rewrite lookup_insert_ne by assumption. assumption.
      * rewrite lookup_insert_ne by congruence. assumption.
Qed.

Lemma steps_frame x y h h' :
  Spec.separate h x y -> rtc (Spec.step x) h h' ->
  Spec.separate h' x y /\ Spec.headers_of y h' = Spec.headers_of y h.
Proof.
  intros Hsep Hsteps. induction Hsteps as [h|h h1 h2 Hstep _ IH].
  - split; [assumption|reflexivity].
  - destruct (step_frame x y h h1 Hsep Hstep) as [Hsep1 Heq1].
    destruct (IH Hsep1) as [Hsep2 Heq2].
    split; [assumption|congruence].
Qed.

Lemma setHeader_steps x (key : string) (value : nullable string) h :
  rtc (Spec.step x) h (setHeader x key value h).2.
Proof.
  unfold setHeader.
  destruct (String.eqb key "" || String.eqb (trim key) ""); [apply rtc_refl|].
  destruct value as [| |v]; try apply rtc_refl.
  unfold mbind, M_bind, get_builder.
  destruct (builders h !! x) as [bx|] eqn:Hx; [|apply rtc_refl].
  unfold get_object.
  destruct (objects h !! headers bx) as [m|] eqn:Hm; [|apply rtc_refl].
  simpl. apply rtc_once. apply Spec.step_update; eauto.
Qed.

Lemma setHeaders_steps x (headers : list (string * nullable string)) h :
  rtc (Spec.step x) h (setHeaders x headers h).2.
Proof.
  unfold setHeaders.
  assert (Hloop : forall l h,
    rtc (Spec.step x) h
      (forEach (fun '(key, value) => _ ← setHeader x key value; mret ()) l h).2).
  { induction l as [|[key value] l IH]; intros h0; cbn [forEach].
    - apply rtc_refl.
    - unfold mbind, M_bind.
      pose proof (setHeader_steps x key value h0) as Hs.
      destruct (setHeader x key value h0) as [[r|e] h1]; simpl in *; [|assumption].
      eapply rtc_trans; [exact Hs|apply IH]. }
  specialize (Hloop (entries headers) h). unfold mbind, M_bind.
  destruct (forEach _ (entries headers) h) as [[r|e] h1]; exact Hloop.
Qed.

Lemma apply_op_steps x (op : Spec.HeaderOp) h :
  rtc (Spec.step x) h (Spec.apply_op x op h).2.
Proof.
  destruct op as [key value|entries|ct|token|user pass|key|]; simpl.
  - apply setHeader_steps.
  - apply setHeaders_steps.
  - apply setHeader_steps.
  - apply setHeader_steps.
  - unfold setBasicAuth, mbind, M_bind, lift.
    destruct (btoa _) as [encoded|e]; [apply setHeader_steps|apply rtc_refl].
  - unfold removeHeader, mbind, M_bind, get_builder.
    destruct (builders h !! x) as [bx|] eqn:Hx; [|apply rtc_refl].
    unfold get_object.
    destruct (objects h !! headers bx) as [m|] eqn:Hm; [|apply rtc_refl].
    simpl. apply rtc_once. apply Spec.step_update; eauto.
  - unfold clearHeaders, mbind, M_bind, get_builder.
    destruct (builders h !! x) as [bx|] eqn:Hx; [|apply rtc_refl].
    simpl. apply rtc_once. apply Spec.step_rebind; assumption.
Qed.

Lemma run_ops_steps x (ops : list Spec.HeaderOp) h :
  rtc (Spec.step x) h (Spec.run_ops x ops h).
Proof.
  revert h. induction ops as [|op ops IH]; intros h; simpl.
  - apply rtc_refl.
  - eapply rtc_trans; [apply apply_op_steps|apply IH].
Qed.

Lemma separate_sym h x y : Spec.separate h x y -> Spec.separate h y x.
Proof.
  intros (bx & by_ & Hx & Hy & Hxy & Hsep & Hmx & Hmy).
  exists by_, bx. repeat split; try assumption; congruence.
Qed.

(** The builder [clone] returns: its base is the stored base of the
    original gone through the constructor, and its header mapping a copy in a
    location of its own. *)
Lemma clone_returns this h b m copy h1 :
  builders h !! this = Some b -> objects h !! headers b = Some m ->
  clone url_parses this h = (Ok copy, h1) ->
  Spec.separate h1 this copy
  /\ Spec.headers_of this h1 = Ok m
  /\ Spec.headers_of copy h1 = Ok m
  /\ getBaseUrl copy h1 = (Ok (Spec.chop_slash (baseUrl b)), h1).
Proof.
  intros Hb Hm. unfold clone.
  unfold mbind at 1. unfold M_bind at 1.
  rewrite (get_builder_found _ _ _ Hb).
  unfold mbind at 1. unfold M_bind at 1.
  destruct (url_parses (baseUrl b)) eqn:Hurl;
    [|rewrite (new_throws _ _ _ Hurl); discriminate].
  rewrite (new_returns _ _ _ Hurl). unfold Spec.constructed. simpl.
  set (l1 := fresh (dom (objects h))).
  set (c := fresh (dom (builders h))).
  assert (Hl1 : headers b <> l1) by (apply allocated_not_fresh; eauto).
  assert (Hc : this <> c) by (apply allocated_not_fresh; eauto).
  unfold mbind, M_bind, get_object. simpl.
  rewrite lookup_insert_ne by congruence. rewrite Hm.
  unfold alloc_object, get_builder. simpl.
  rewrite lookup_insert_eq. simpl.
  set (l2 := fresh (dom (<[l1 := default_headers]> (objects h)))).
  assert (Hl2 : headers b <> l2).
  { apply allocated_not_fresh. rewrite lookup_insert_ne by congruence. eauto. }
  intros [= <- <-].
  assert (Hthis : builders
            {| objects := <[l2 := m]> (<[l1 := default_headers]> (objects h));
               builders :=
                 <[c := {| baseUrl := Spec.chop_slash (baseUrl b); headers := l2;
                           logger := {| context := "RequestBuilder" |} |}]>
                   (<[c := {| baseUrl := Spec.chop_slash (baseUrl b); headers := l1;
                              logger := {| context := "RequestBuilder" |} |}]>
                      (builders h)) |} !! this = Some b).
  { simpl. rewrite !lookup_insert_ne by congruence. assumption. }
  assert (Hmthis : <[l2 := m]> (<[l1 := default_headers]> (objects h)) !! headers b
                   = Some m).
  { rewrite !lookup_insert_ne by congruence. assumption. }
  split; [|split; [|split]].
  - eexists b, _. split; [exact Hthis|]. simpl.
    split; [apply lookup_insert_eq|]. split; [assumption|]. simpl.
    split; [assumption|]. split; [rewrite Hmthis; eauto|].
    rewrite lookup_insert_eq. eauto.
  - eapply headers_of_found; [exact Hthis|exact Hmthis].
  - eapply headers_of_found; simpl; apply lookup_insert_eq.
  - unfold getBaseUrl, mbind, M_bind, get_builder. simpl.
    rewrite lookup_insert_eq. reflexivity.
Qed.

(** After [clone], no sequence of header operations on one of the two
    builders changes what [getHeaders] returns on the other. *)
Lemma clone_headers_independent this h b m copy h1 (ops : list Spec.HeaderOp) :
  builders h !! this = Some b -> objects h !! headers b = Some m ->
  clone url_parses this h = (Ok copy, h1) ->
  Spec.headers_of this (Spec.run_ops copy ops h1) = Spec.headers_of this h1
  /\ Spec.headers_of copy (Spec.run_ops this ops h1) = Spec.headers_of copy h1.
Proof.
  intros Hb Hm Hclone.
  destruct (clone_returns _ _ _ _ _ _ Hb Hm Hclone) as (Hsep & _).
  split.
  - apply (steps_frame copy this h1); [apply separate_sym, Hsep|apply run_ops_steps].
  - apply (steps_frame this copy h1); [exact Hsep|apply run_ops_steps].
Qed.
End CloneFacts.

(** * The embedding at the inputs of the test suite *)

Section Examples.
Import JS RequestBuilder.

Lemma example_store :
  new Sample.url_parses "https://api.example.com" empty_heap
  = (Ok Sample.builder, Sample.store).
Proof. vm_compute. reflexivity. Qed.

Lemma not_blank (key : string) :
  (String.eqb key "" || String.eqb (trim key) "") = false -> ~ Spec.blank key.
Proof.
  intros H [E|E]; rewrite E in H.
  - discriminate H.
  - rewrite orb_true_r in H. discriminate H.
Qed.

(** C2 as stated fails: for the base ["https://api.example.com"],
    [buildUrl("")] returns ["https://api.example.com/"], one character more
    than the base without a trailing slash. *)
Lemma buildUrl_empty_endpoint_is_not_bare_base :
  ~ (forall (b : string) h this h',
        Sample.url_parses b = true ->
        new Sample.url_parses b h = (Ok this, h') ->
        buildUrl this "" None h' = (Ok (Spec.chop_slash b), h')).
Proof.
  intros H.
  specialize (H "https://api.example.com" empty_heap Sample.builder Sample.store
                eq_refl example_store).
  apply (f_equal fst) in H. vm_compute in H. discriminate H.
Qed.

Lemma buildUrl_empty_endpoint_witness :
  exists this h',
    new Sample.url_parses "https://api.example.com/" empty_heap = (Ok this, h')
    /\ buildUrl this "" None h' = (Ok "https://api.example.com/", h').
Proof.
  exact (buildUrl_empty_endpoint Sample.url_parses "https://api.example.com/"
           empty_heap eq_refl).
Defined.

Lemma setHeader_contract_witness :
  setHeader Sample.builder "  " (Val "x") Sample.store
  = (Throw Spec.InvalidHeaderKey, Sample.store)
  /\ setHeader Sample.builder "X-Api-Key" Null Sample.store
     = (Throw (Spec.InvalidHeaderValue "X-Api-Key"), Sample.store)
  /\ (exists h',
        setHeader Sample.builder "Authorization" (Val "Bearer abc") Sample.store
        = (Ok Sample.builder, h')
        /\ getHeaders Sample.builder h'
           = (Ok (<["Authorization" := "Bearer abc"]> default_headers), h'))
  /\ (exists h',
        setHeader Sample.builder "__proto__" (Val "x") Sample.store
        = (Ok Sample.builder, h')
        /\ getHeaders Sample.builder h' = (Ok default_headers, h')
        /\ objects h' = objects Sample.store).
Proof.
  split; [|split; [|split]].
  - apply (setHeader_contract Sample.builder "  " (Val "x") Sample.store).
    right. vm_compute. reflexivity.
  - apply (setHeader_contract Sample.builder "X-Api-Key" Null Sample.store).
    + apply not_blank. vm_compute. reflexivity.
    + left. reflexivity.
  - destruct (setHeader_contract Sample.builder "Authorization" (Val "Bearer abc")
                Sample.store) as (_ & _ & H).
    destruct (H (not_blank "Authorization" eq_refl) "Bearer abc" Sample.instance default_headers
                eq_refl eq_refl eq_refl) as (h' & Hset & _ & Hother & _).
    exists h'. split; [exact Hset|]. apply Hother. discriminate.
  - destruct (setHeader_contract Sample.builder "__proto__" (Val "x")
                Sample.store) as (_ & _ & H).
    destruct (H (not_blank "__proto__" eq_refl) "x" Sample.instance default_headers
                eq_refl eq_refl eq_refl) as (h' & Hset & _ & _ & Hproto).
    destruct (Hproto eq_refl eq_refl) as (Hget & Hobjects & _).
    exists h'. repeat split; assumption.
Defined.

Lemma buildUrl_query_witness :
  buildUrl Sample.builder "/posts"
    (Some [("userId", Val "1"); ("skip", Null); ("10", Val "a b"); ("limit", Val "10");
           ("2", Val "x"); ("q", Val "")])
    Sample.store
  = (Ok "https://api.example.com/posts?2=x&10=a%20b&userId=1&limit=10", Sample.store).
Proof.
  exact (proj1 (buildUrl_query Sample.builder Sample.store Sample.instance "/posts"
                  [("userId", Val "1"); ("skip", Null); ("10", Val "a b");
                   ("limit", Val "10"); ("2", Val "x"); ("q", Val "")]
                  eq_refl ltac:(discriminate))).
Defined.

(** C6 as stated fails: the parameters are not always in the order of
    insertion. With the keys [b], [2] and [1] inserted in this order, the
    query string is [1=y&2=x&b=1]. *)
Lemma buildUrl_query_not_in_insertion_order :
  ~ (forall params : list (string * nullable string),
        params <> [] -> NoDup (map fst params) ->
        buildUrl Sample.builder "/posts" (Some params) Sample.store
        = (Ok (match Spec.kept params with
               | [] => "https://api.example.com/posts"
               | pairs => "https://api.example.com/posts?" +:+ Spec.query_string pairs
               end), Sample.store)).
Proof.
  intros H.
  specialize (H [("b", Val "1"); ("2", Val "x"); ("1", Val "y")] ltac:(discriminate)).
  assert (Hnd : NoDup (map fst [("b", Val "1"); ("2", Val "x"); ("1", Val "y")]
                       : list string)).
  { apply (bool_decide_unpack _). vm_compute. exact I. }
  specialize (H Hnd). apply (f_equal fst) in H. vm_compute in H. discriminate H.
Qed.

Lemma validateResponse_accumulates_failures_witness :
  ResponseValidator.validateResponse Sample.realm 500 (JNull : JSValue Z)
    (Some ["id"; "name"]) (Some 100%float)
  = ResponseValidator.validateResponse Sample.realm 500 (JNull : JSValue Z)
      (Some ["id"; "name"]) None
  /\ exists result,
      ResponseValidator.validateResponse Sample.realm 500 (JNull : JSValue Z)
        (Some ["id"; "name"]) (Some 100%float) = Ok result
      /\ ResponseValidator.details result
         = Some (ResponseValidator.ErrorDetails
                   ["Invalid status code: 500"; "Response body is empty";
                    "Missing required fields: id, name"])
      /\ ResponseValidator.valid result = false.
Proof.
  destruct (validateResponse_accumulates_failures Sample.realm 500 (JNull : JSValue Z)
              (Some ["id"; "name"]) (Some 100%float) None)
    as (Hsame & result & Hresult & Hdetails & Hvalid & _).
  split; [exact Hsame|]. exists result. split; [exact Hresult|].
  split; [exact Hdetails|].
  destruct (ResponseValidator.valid result); [|reflexivity].
  destruct Hvalid as [Hvalid _]. specialize (Hvalid eq_refl). vm_compute in Hvalid.
  discriminate Hvalid.
Defined.


(** The scenarios of the test suite. *)
Example scenario_trailing_slash :
  (this ← new Sample.url_parses "https://api.example.com/";
   buildUrl this "/posts" None) empty_heap
  = (Ok "https://api.example.com/posts", Sample.store).
Proof. vm_compute. reflexivity. Qed.

Example scenario_leading_slash :
  buildUrl Sample.builder "users" None Sample.store
  = buildUrl Sample.builder "/users" None Sample.store.
Proof. vm_compute. reflexivity. Qed.

Example scenario_bearer_token :
  (_ ← setBearerToken Sample.builder (Val "my-token");
   h ← getRequestHeaders Sample.builder;
   mret (h !! "Authorization")) Sample.store
  = (Ok (Some "Bearer my-token"),
     {| objects :=
          {[1%positive := <["Authorization" := "Bearer my-token"]> default_headers]};
        builders := builders Sample.store |}).
Proof. vm_compute. reflexivity. Qed.

Example scenario_basic_auth :
  (_ ← setBasicAuth Sample.builder (Val "user") (Val "pass");
   h ← getRequestHeaders Sample.builder;
   mret (h !! "Authorization")) Sample.store
  = (Ok (Some "Basic dXNlcjpwYXNz"),
     {| objects :=
          {[1%positive := <["Authorization" := "Basic dXNlcjpwYXNz"]> default_headers]};
        builders := builders Sample.store |}).
Proof. vm_compute. reflexivity. Qed.

Example scenario_payload :
  buildPayload Sample.number_text
    (JObject [("title", JString "Test"); ("userId", JNumber 1%Z)])
  = Ok (Some (String "{" (JSON.QuoteJSONString "title" +:+ ":"
                          +:+ JSON.QuoteJSONString "Test" +:+ ","
                          +:+ JSON.QuoteJSONString "userId" +:+ ":1}"))).
Proof. vm_compute. reflexivity. Qed.

Example scenario_missing_field :
  ResponseValidator.hasRequiredFields Sample.realm
    (JObject [("id", JNumber 1%Z); ("title", JString "Test")])
    ["id"; "title"; "userId"]
  = Ok {| ResponseValidator.Fields.valid := false;
          ResponseValidator.Fields.missing := ["userId"] |}.
Proof. vm_compute. reflexivity. Qed.

Example scenario_schema :
  ResponseValidator.validateSchema Sample.realm
    (JObject [("id", JString "1"); ("name", JString "John")] : JSValue Z)
    [("id", "number"); ("name", "string")]
  = Ok {| ResponseValidator.valid := false;
          ResponseValidator.message := Some "Schema validation failed";
          ResponseValidator.details :=
            Some (ResponseValidator.ErrorDetails ["Field 'id' validation failed"]) |}.
Proof. vm_compute. reflexivity. Qed.

Example scenario_validateResponse :
  ResponseValidator.validateResponse Sample.realm 200
    (JObject [("id", JNumber 1%Z)]) (Some ["id"; "name"]) None
  = Ok {| ResponseValidator.valid := false;
          ResponseValidator.message := Some "Response validation failed";
          ResponseValidator.details :=
            Some (ResponseValidator.ErrorDetails ["Missing required fields: name"]) |}.
Proof. vm_compute. reflexivity. Qed.

Example scenario_json :
  ResponseValidator.isValidJson Sample.number_value "{invalid}" = false
  /\ ResponseValidator.isvalidJson Sample.number_value "" = false
  /\ ResponseValidator.parseJsonSafely Sample.number_value "{invalid}" = JNull
  /\ ResponseValidator.parseJsonSafely Sample.number_value
       (String "{" (JSON.QuoteJSONString "name" +:+ ": " +:+ JSON.QuoteJSONString "John"
                    +:+ "}"))
     = JObject [("name", JString "John")].
Proof. repeat split; vm_compute; reflexivity. Qed.

Example scenario_thresholds :
  ResponseValidator.meetsPerformanceThresholds 450 500 = true
  /\ ResponseValidator.meetsPerformanceThresholds 600 500 = false.
Proof. split; reflexivity. Qed.

(** C5, at the input where the code departs from it: a builder constructed
    on ["https://api.example.com//"] stores ["https://api.example.com/"], and
    its clone, built through the constructor again, stores
    ["https://api.example.com"]. *)
Theorem clone_changes_base_endpoint :
  exists original copy h,
    (original ← new Sample.url_parses "https://api.example.com//";
     copy ← clone Sample.url_parses original;
     mret (original, copy)) empty_heap = (Ok (original, copy), h)
    /\ getBaseUrl original h = (Ok "https://api.example.com/", h)
    /\ getBaseUrl copy h = (Ok "https://api.example.com", h).
Proof.
  eexists _, _, _. split; [vm_compute; reflexivity|].
  split; vm_compute; reflexivity.
Qed.
End Examples.

(** * The JSON round trip *)

Section LexerFacts.
Import JS JSON.

Lemma append_cons (c : ascii) (s t : string) :
  String c s +:+ t = String c (s +:+ t).
Proof. reflexivity. Qed.

Lemma append_nil_l (s : string) : "" +:+ s = s.
Proof. reflexivity. Qed.

Lemma append_nil_r (s : string) : s +:+ "" = s.
Proof. induction s as [|c s IH]; [reflexivity|]. rewrite append_cons, IH. reflexivity. Qed.

Lemma append_assoc (s t u : string) : (s +:+ t) +:+ u = s +:+ (t +:+ u).
Proof.
  induction s as [|c s IH]; [reflexivity|].
  rewrite !append_cons, IH. reflexivity.
Qed.

Lemma length_append (s t : string) :
  String.length (s +:+ t) = String.length s + String.length t.
Proof.
  induction s as [|c s IH]; [reflexivity|].
  rewrite append_cons. simpl. rewrite IH. reflexivity.
Qed.

Lemma stop_halts (rest : string) : Spec.stop rest -> Spec.halts rest.
Proof.
  destruct rest as [|c rest]; [trivial|]. simpl.
  intros [-> | [-> | ->]]; reflexivity.
Qed.

Lemma span_digits_append (s rest : string) :
  Spec.halts rest ->
  span_digits (s +:+ rest) = ((span_digits s).1, (span_digits s).2 +:+ rest).
Proof.
  intros Hrest. induction s as [|c s IH].
  - destruct rest as [|d rest]; [reflexivity|]. simpl in *.
    unfold Spec.ends_number in Hrest. destruct (is_digit d); [discriminate|reflexivity].
  - rewrite append_cons. simpl. destruct (is_digit c); [|reflexivity].
    rewrite IH. destruct (span_digits s). reflexivity.
Qed.

Lemma prepend_some (p : string) (r : option (string * string)) str rest :
  prepend p r = Some (str, rest) ->
  exists str', r = Some (str', rest) /\ str = p +:+ str'.
Proof.
  destruct r as [[str' rest']|]; simpl; [|discriminate].
  intros [= <- <-]. eauto.
Qed.

Lemma digits1_append (s rest token r : string) :
  Spec.halts rest -> digits1 s = Some (token, r) ->
  digits1 (s +:+ rest) = Some (token, r +:+ rest).
Proof.
  intros Hrest. unfold digits1. rewrite (span_digits_append _ _ Hrest).
  destruct (span_digits s) as [[|c d] r']; simpl; [discriminate|].
  intros [= <- <-]. reflexivity.
Qed.

Lemma lex_int_append (s rest token r : string) :
  Spec.halts rest -> lex_int s = Some (token, r) ->
  lex_int (s +:+ rest) = Some (token, r +:+ rest).
Proof.
  intros Hrest. destruct s as [|c s]; [discriminate|].
  rewrite append_cons. unfold lex_int.
  destruct (Ascii.eqb c "0"); [intros [= <- <-]; reflexivity|].
  destruct (is_digit c); [|discriminate].
  rewrite <- append_cons. apply digits1_append, Hrest.
Qed.

Lemma lex_frac_append (s rest token r : string) :
  Spec.halts rest -> lex_frac s = Some (token, r) ->
  lex_frac (s +:+ rest) = Some (token, r +:+ rest).
Proof.
  intros Hrest. destruct s as [|c s].
  - intros [= <- <-]. destruct rest as [|d rest]; [reflexivity|].
    simpl in *. unfold Spec.ends_number in Hrest.
    destruct (Ascii.eqb_spec d ".") as [->|_]; [|reflexivity].
    discriminate Hrest.
  - rewrite append_cons. unfold lex_frac.
    destruct (Ascii.eqb c "."); [|intros [= <- <-]; reflexivity].
    intros H. apply prepend_some in H as (d & Hd & ->).
    rewrite (digits1_append _ _ _ _ Hrest Hd). reflexivity.
Qed.

Lemma lex_sign_append (s rest : string) :
  Spec.halts rest ->
  lex_sign (s +:+ rest) = ((lex_sign s).1, (lex_sign s).2 +:+ rest).
Proof.
  intros Hrest. destruct s as [|c s].
  - destruct rest as [|d rest]; [reflexivity|].
    simpl in *. unfold Spec.ends_number in Hrest.
    destruct (Ascii.eqb_spec d "+") as [->|_]; [discriminate Hrest|].
    destruct (Ascii.eqb_spec d "-") as [->|_]; [discriminate Hrest|].
    reflexivity.
  - rewrite append_cons. unfold lex_sign.
    destruct (Ascii.eqb c "+" || Ascii.eqb c "-"); reflexivity.
Qed.

Lemma lex_exp_append (s rest token r : string) :
  Spec.halts rest -> lex_exp s = Some (token, r) ->
  lex_exp (s +:+ rest) = Some (token, r +:+ rest).
Proof.
  intros Hrest. destruct s as [|c s].
  - intros [= <- <-]. destruct rest as [|d rest]; [reflexivity|].
    simpl in *. unfold Spec.ends_number in Hrest.
    destruct (Ascii.eqb_spec d "e") as [->|_]; [discriminate Hrest|].
    destruct (Ascii.eqb_spec d "E") as [->|_]; [discriminate Hrest|].
    reflexivity.
  - rewrite append_cons. unfold lex_exp.
    destruct (Ascii.eqb c "e" || Ascii.eqb c "E"); [|intros [= <- <-]; reflexivity].
    rewrite (lex_sign_append _ _ Hrest).
    destruct (lex_sign s) as [sign s']. simpl.
    intros H. apply prepend_some in H as (d & Hd & ->).
    rewrite (digits1_append _ _ _ _ Hrest Hd). reflexivity.
Qed.

(** A numeric literal is read back whole when a separator follows it. *)
Lemma lex_number_append (s rest token r : string) :
  Spec.halts rest -> lex_number s = Some (token, r) ->
  lex_number (s +:+ rest) = Some (token, r +:+ rest).
Proof.
  intros Hrest. unfold lex_number.
  assert (Hgo : forall minus s1,
    (lex_int s1 ≫= λ '(int, s2), lex_frac s2 ≫= λ '(frac, s3),
       lex_exp s3 ≫= λ '(exp, s4), Some (minus +:+ int +:+ frac +:+ exp, s4))
    = Some (token, r) ->
    (lex_int (s1 +:+ rest) ≫= λ '(int, s2), lex_frac s2 ≫= λ '(frac, s3),
       lex_exp s3 ≫= λ '(exp, s4), Some (minus +:+ int +:+ frac +:+ exp, s4))
    = Some (token, r +:+ rest)).
  { intros minus s1.
    destruct (lex_int s1) as [[int s2]|] eqn:Hint; simpl; [|discriminate].
    rewrite (lex_int_append _ _ _ _ Hrest Hint). simpl.
    destruct (lex_frac s2) as [[frac s3]|] eqn:Hfrac; simpl; [|discriminate].
    rewrite (lex_frac_append _ _ _ _ Hrest Hfrac). simpl.
    destruct (lex_exp s3) as [[exp s4]|] eqn:Hexp; simpl; [|discriminate].
    rewrite (lex_exp_append _ _ _ _ Hrest Hexp). simpl.
    intros [= <- <-]. reflexivity. }
  destruct s as [|c s]; [discriminate|].
  rewrite append_cons.
  destruct (Ascii.eqb c "-"); [apply Hgo|].
  rewrite <- append_cons. apply Hgo.
Qed.

(** The first character of a numeric literal is a minus sign or a digit. *)
Lemma lex_number_head (s token r : string) :
  lex_number s = Some (token, r) ->
  exists c s', s = String c s' /\ (c = "-"%char \/ is_digit c = true).
Proof.
  destruct s as [|c s]; [discriminate|]. intros H. exists c, s.
  split; [reflexivity|].
  unfold lex_number in H.
  destruct (Ascii.eqb_spec c "-") as [->|_]; [left; reflexivity|right].
  unfold lex_int in H.
  destruct (Ascii.eqb_spec c "0") as [->|_]; [reflexivity|].
  destruct (is_digit c); [reflexivity|discriminate].
Qed.
End LexerFacts.

(** * Numbers and their text *)

Section DigitFacts.
Import JS JSON Number.
Local Open Scope Z_scope.

Lemma digit_code (d : Z) :
  0 <= d < 10 -> Z.of_nat (nat_of_ascii (digit d)) = 48 + d.
Proof.
  intros Hd. unfold digit.
  assert (H : d = 0 \/ d = 1 \/ d = 2 \/ d = 3 \/ d = 4 \/ d = 5 \/ d = 6 \/ d = 7
              \/ d = 8 \/ d = 9) by lia.
  repeat (destruct H as [-> | H]; [reflexivity|]). subst d. reflexivity.
Qed.

Lemma digit_is_digit (d : Z) : 0 <= d < 10 -> is_digit (digit d) = true.
Proof.
  intros Hd.
  assert (H : d = 0 \/ d = 1 \/ d = 2 \/ d = 3 \/ d = 4 \/ d = 5 \/ d = 6 \/ d = 7
              \/ d = 8 \/ d = 9) by lia.
  repeat (destruct H as [-> | H]; [reflexivity|]). subst d. reflexivity.
Qed.

Lemma digit_zero (d : Z) : 0 < d < 10 -> Ascii.eqb (digit d) "0" = false.
Proof.
  intros Hd.
  assert (H : d = 1 \/ d = 2 \/ d = 3 \/ d = 4 \/ d = 5 \/ d = 6 \/ d = 7
              \/ d = 8 \/ d = 9) by lia.
  repeat (destruct H as [-> | H]; [reflexivity|]). subst d. reflexivity.
Qed.

Lemma nth_digit_range (n j : Z) : 0 <= n / 10 ^ j mod 10 < 10.
Proof. apply Z.mod_pos_bound. lia. Qed.

Lemma digits_length (k : nat) (n : Z) : String.length (digits k n) = k.
Proof. induction k as [|k IH]; [reflexivity|]. simpl. rewrite IH. reflexivity. Qed.

Lemma zeros_length (k : nat) : String.length (zeros k) = k.
Proof. induction k as [|k IH]; [reflexivity|]. simpl. rewrite IH. reflexivity. Qed.

Lemma span_digits_digits (k : nat) (n : Z) (rest : string) :
  ends_digits rest -> span_digits (digits k n +:+ rest) = (digits k n, rest).
Proof.
  intros Hrest. induction k as [|k IH].
  - destruct rest as [|c rest]; [reflexivity|]. simpl in *. rewrite Hrest. reflexivity.
  - cbn [digits]. rewrite append_cons. cbn [span_digits].
    rewrite digit_is_digit by apply nth_digit_range. rewrite IH. reflexivity.
Qed.

Lemma span_digits_zeros (k : nat) (rest : string) :
  span_digits (zeros k +:+ rest) = (zeros k +:+ (span_digits rest).1, (span_digits rest).2).
Proof.
  induction k as [|k IH].
  - change (zeros 0 +:+ rest) with rest. change (zeros 0 +:+ (span_digits rest).1)
      with (span_digits rest).1. destruct (span_digits rest). reflexivity.
  - cbn [zeros]. rewrite append_cons. cbn [span_digits].
    change (is_digit "0") with true. cbv iota. rewrite IH. reflexivity.
Qed.

Lemma number_of_append (acc : Z) (s t : string) :
  number_of acc (s +:+ t) = number_of (number_of acc s) t.
Proof.
  revert acc. induction s as [|c s IH]; intros acc; [reflexivity|].
  rewrite append_cons. cbn [number_of]. apply IH.
Qed.

Lemma number_of_zeros (acc : Z) (k : nat) :
  number_of acc (zeros k) = acc * 10 ^ Z.of_nat k.
Proof.
  revert acc. induction k as [|k IH]; intros acc.
  - simpl. lia.
  - cbn [zeros number_of]. rewrite IH.
    change (Z.of_nat (nat_of_ascii "0")) with 48.
    rewrite Nat2Z.inj_succ, Z.pow_succ_r by lia. lia.
Qed.

Lemma number_of_digits (acc : Z) (k : nat) (n : Z) :
  0 <= n ->
  number_of acc (digits k n) = acc * 10 ^ Z.of_nat k + n mod 10 ^ Z.of_nat k.
Proof.
  intros Hn. revert acc. induction k as [|k IH]; intros acc.
  - simpl. rewrite Z.mod_1_r. lia.
  - cbn [digits number_of]. rewrite IH, digit_code by apply nth_digit_range.
    rewrite Nat2Z.inj_succ, Z.pow_succ_r by lia.
    assert (Hp : 0 < 10 ^ Z.of_nat k) by (apply Z.pow_pos_nonneg; lia).
    rewrite (Z.mul_comm 10 (10 ^ Z.of_nat k)).
    rewrite (Z.rem_mul_r n (10 ^ Z.of_nat k) 10) by lia. lia.
Qed.

Lemma digits_split (j i : nat) (n : Z) :
  0 <= n ->
  digits (j + i) n = digits j (n / 10 ^ Z.of_nat i) +:+ digits i n.
Proof.
  intros Hn. induction j as [|j IH]; [reflexivity|].
  cbn [Nat.add digits]. rewrite append_cons. f_equal; [|exact IH].
  rewrite Nat2Z.inj_add, Z.pow_add_r, (Z.mul_comm (10 ^ Z.of_nat j)) by lia.
  assert (Hi : 0 < 10 ^ Z.of_nat i) by (apply Z.pow_pos_nonneg; lia).
  assert (Hj : 0 < 10 ^ Z.of_nat j) by (apply Z.pow_pos_nonneg; lia).
  rewrite Z.div_div by lia. reflexivity.
Qed.

Lemma digits_head (k : nat) (n : Z) :
  10 ^ Z.of_nat k <= n < 10 ^ Z.of_nat (S k) ->
  exists c, digits (S k) n = String c (digits k n)
            /\ is_digit c = true /\ Ascii.eqb c "0" = false.
Proof.
  intros Hn. eexists. split; [reflexivity|].
  assert (Hp : 0 < 10 ^ Z.of_nat k) by (apply Z.pow_pos_nonneg; lia).
  assert (Hq : 1 <= n / 10 ^ Z.of_nat k < 10).
  { rewrite Nat2Z.inj_succ, Z.pow_succ_r in Hn by lia. split.
    - apply Z.div_le_lower_bound; lia.
    - apply Z.div_lt_upper_bound; lia. }
  rewrite Z.mod_small by lia.
  split; [apply digit_is_digit|apply digit_zero]; lia.
Qed.

Lemma size_bounds (fuel : nat) (n : Z) :
  0 <= n < 2 ^ Z.of_nat fuel -> (0 < fuel)%nat ->
  (0 < size fuel n)%nat
  /\ n < 10 ^ Z.of_nat (size fuel n)
  /\ (0 < n -> 10 ^ (Z.of_nat (size fuel n) - 1) <= n).
Proof.
  revert n. induction fuel as [|fuel IH]; intros n Hn Hfuel; [lia|].
  cbn [size]. destruct (Z.ltb_spec n 10) as [Hsmall|Hbig].
  - split; [lia|]. split; [simpl; lia|]. simpl. lia.
  - assert (Hfuel' : (0 < fuel)%nat).
    { destruct fuel; [|lia]. simpl in Hn. lia. }
    assert (Hdiv : 0 <= n / 10 < 2 ^ Z.of_nat fuel).
    { split; [apply Z.div_pos; lia|].
      apply Z.div_lt_upper_bound; [lia|].
      rewrite Nat2Z.inj_succ, Z.pow_succ_r in Hn by lia. lia. }
    destruct (IH (n / 10) Hdiv Hfuel') as (Hpos & Hup & Hlow).
    split; [lia|]. rewrite Nat2Z.inj_succ.
    split.
    + rewrite Z.pow_succ_r by lia.
      pose proof (Z.mul_succ_div_gt n 10 ltac:(lia)). lia.
    + intros _. replace (Z.succ (Z.of_nat (size fuel (n / 10))) - 1)
        with (Z.succ (Z.of_nat (size fuel (n / 10)) - 1)) by lia.
      rewrite Z.pow_succ_r by lia.
      assert (0 < n / 10) by (apply Z.div_str_pos; lia).
      pose proof (Z.mul_div_le n 10 ltac:(lia)). specialize (Hlow ltac:(lia)). lia.
Qed.

Lemma decimal_length_bounds (n : Z) :
  0 <= n ->
  (0 < decimal_length n)%nat
  /\ n < 10 ^ Z.of_nat (decimal_length n)
  /\ (0 < n -> 10 ^ (Z.of_nat (decimal_length n) - 1) <= n).
Proof.
  intros Hn. unfold decimal_length. apply size_bounds; [|lia].
  split; [exact Hn|]. rewrite Nat2Z.inj_succ, Z2Nat.id by apply Z.log2_nonneg.
  destruct (Z.eq_dec n 0) as [->|Hne]; [reflexivity|].
  apply Z.log2_spec. lia.
Qed.
End DigitFacts.

Section RoundingFacts.
Import JS JSON Number.
Local Open Scope Z_scope.

Lemma pow2_pos (e : Z) : 0 <= e -> 0 < 2 ^ e.
Proof. intros He. apply Z.pow_pos_nonneg; lia. Qed.

Lemma below_spec (num den l : Z) :
  below num den l = true <-> num * 2 ^ Z.max 0 (- l) < den * 2 ^ Z.max 0 l.
Proof. unfold below. apply Z.ltb_lt. Qed.

Lemma below_mono (num den l l' : Z) :
  0 <= num -> 0 < den -> l <= l' ->
  below num den l = true -> below num den l' = true.
Proof.
  intros Hnum Hden Hl. rewrite !below_spec. intros H.
  assert (HA : 2 ^ Z.max 0 (- l') <= 2 ^ Z.max 0 (- l))
    by (apply Z.pow_le_mono_r; lia).
  assert (HB : 2 ^ Z.max 0 l <= 2 ^ Z.max 0 l') by (apply Z.pow_le_mono_r; lia).
  pose proof (pow2_pos (Z.max 0 (- l')) ltac:(lia)).
  pose proof (pow2_pos (Z.max 0 l) ltac:(lia)).
  nia.
Qed.

(** [floor_log2] brackets the quotient. *)
Lemma floor_log2_spec (num den : Z) :
  0 < num -> 0 < den ->
  below num den (floor_log2 num den) = false
  /\ below num den (floor_log2 num den + 1) = true.
Proof.
  intros Hnum Hden.
  pose proof (Z.log2_spec num Hnum) as [Ha1 Ha2].
  pose proof (Z.log2_spec den Hden) as [Hb1 Hb2].
  pose proof (Z.log2_nonneg num) as Ha. pose proof (Z.log2_nonneg den) as Hb.
  set (a := Z.log2 num) in *. set (b := Z.log2 den) in *.
  assert (Hup : below num den (a - b + 1) = true).
  { apply below_spec.
    set (α := Z.max 0 (- (a - b + 1))). set (β := Z.max 0 (a - b + 1)).
    assert (E : 2 ^ Z.succ a * 2 ^ α = 2 ^ b * 2 ^ β).
    { rewrite <- !Z.pow_add_r by lia. f_equal. lia. }
    pose proof (pow2_pos α ltac:(lia)). pose proof (pow2_pos β ltac:(lia)). nia. }
  assert (Hlow : below num den (a - b - 1) = false).
  { apply not_true_is_false. rewrite below_spec.
    set (α := Z.max 0 (- (a - b - 1))). set (β := Z.max 0 (a - b - 1)).
    assert (E : 2 ^ a * 2 ^ α = 2 ^ Z.succ b * 2 ^ β).
    { rewrite <- !Z.pow_add_r by lia. f_equal. lia. }
    pose proof (pow2_pos α ltac:(lia)). pose proof (pow2_pos β ltac:(lia)). nia. }
  unfold floor_log2. fold a b.
  destruct (below num den (a - b)) eqn:Hl.
  - split; [exact Hlow|]. replace (a - b - 1 + 1) with (a - b) by lia. exact Hl.
  - split; [exact Hl|exact Hup].
Qed.

Lemma floor_log2_unique (num den t : Z) :
  0 < num -> 0 < den ->
  below num den t = false -> below num den (t + 1) = true ->
  floor_log2 num den = t.
Proof.
  intros Hnum Hden Hlow Hup.
  destruct (floor_log2_spec num den Hnum Hden) as [Hf1 Hf2].
  destruct (Z.lt_trichotomy (floor_log2 num den) t) as [Hlt|[Heq|Hgt]]; [|exact Heq|].
  - rewrite (below_mono num den (floor_log2 num den + 1) t) in Hlow by (assumption || lia).
    discriminate Hlow.
  - rewrite (below_mono num den (t + 1) (floor_log2 num den)) in Hf1 by (assumption || lia).
    discriminate Hf1.
Qed.

Lemma digits2_size (m : positive) : digits2_pos m = Pos.size m.
Proof. induction m as [m IH|m IH|]; simpl; rewrite ?IH; reflexivity. Qed.

Lemma digits2_bounds (m : positive) :
  2 ^ (Z.pos (digits2_pos m) - 1) <= Z.pos m < 2 ^ Z.pos (digits2_pos m).
Proof.
  rewrite digits2_size.
  pose proof (Z.log2_spec (Z.pos m) ltac:(lia)) as H.
  assert (E : Z.pos (Pos.size m) = Z.succ (Z.log2 (Z.pos m))).
  { destruct m as [m|m|]; simpl; try reflexivity; rewrite Pos2Z.inj_succ; reflexivity. }
  rewrite E. replace (Z.succ (Z.log2 (Z.pos m)) - 1) with (Z.log2 (Z.pos m)) by lia.
  exact H.
Qed.

(** Rounding a quotient that is a double gives that double. *)
Lemma nearest_exact (negative : bool) (num den : Z) (m : positive) (e : Z) :
  0 < den ->
  num * 2 ^ Z.max 0 (- e) = Z.pos m * den * 2 ^ Z.max 0 e ->
  bounded prec emax m e = true ->
  nearest negative num den = S754_finite negative m e.
Proof.
  intros Hden Hexact Hbounded.
  apply andb_true_iff in Hbounded as [Hcanonical Hemax].
  apply Z.eqb_eq in Hcanonical. apply Z.leb_le in Hemax.
  unfold fexp, SpecFloat.emin, prec, emax in *.
  pose proof (digits2_bounds m) as [Hm1 Hm2].
  set (d := Z.pos (digits2_pos m)) in *.
  assert (Hd : 0 < d) by (unfold d; lia).
  pose proof (pow2_pos (Z.max 0 (- e)) ltac:(lia)) as Hpa.
  pose proof (pow2_pos (Z.max 0 e) ltac:(lia)) as Hpb.
  assert (Hnum : 0 < num) by nia.
  assert (Hbelow : forall l,
    below num den l = true
    <-> Z.pos m * 2 ^ (Z.max 0 e + Z.max 0 (- l)) < 2 ^ (Z.max 0 l + Z.max 0 (- e))).
  { intros l. rewrite below_spec.
    rewrite !Z.pow_add_r by lia.
    pose proof (pow2_pos (Z.max 0 (- l)) ltac:(lia)).
    pose proof (pow2_pos (Z.max 0 l) ltac:(lia)).
    split; intros H1; nia. }
  assert (Hlog : floor_log2 num den = d + e - 1).
  { apply floor_log2_unique; try assumption.
    - apply not_true_is_false. rewrite Hbelow. intros H.
      replace (Z.max 0 (d + e - 1) + Z.max 0 (- e))
        with ((d - 1) + (Z.max 0 e + Z.max 0 (- (d + e - 1)))) in H by lia.
      rewrite (Z.pow_add_r 2 (d - 1)) in H by lia.
      pose proof (pow2_pos (Z.max 0 e + Z.max 0 (- (d + e - 1))) ltac:(lia)). nia.
    - rewrite Hbelow.
      replace (Z.max 0 (d + e - 1 + 1) + Z.max 0 (- e))
        with (d + (Z.max 0 e + Z.max 0 (- (d + e - 1 + 1)))) by lia.
      rewrite (Z.pow_add_r 2 d) by lia.
      pose proof (pow2_pos (Z.max 0 e + Z.max 0 (- (d + e - 1 + 1))) ltac:(lia)). nia. }
  unfold nearest. rewrite Hlog.
  replace (Z.max (d + e - 1 - 52) (-1074)) with e by lia.
  assert (Hq : nearest_integer (num * 2 ^ Z.max 0 (- e)) (den * 2 ^ Z.max 0 e) = Z.pos m).
  { unfold nearest_integer. rewrite Hexact.
    replace (Z.pos m * den * 2 ^ Z.max 0 e) with (Z.pos m * (den * 2 ^ Z.max 0 e)) by lia.
    assert (Hpos : 0 < den * 2 ^ Z.max 0 e) by nia.
    rewrite Z.mod_mul, Z.div_mul by lia.
    destruct (Z.compare_spec (2 * 0) (den * 2 ^ Z.max 0 e)); [lia|reflexivity|lia]. }
  rewrite Hq.
  assert (Hm53 : Z.pos m < 2 ^ 53).
  { eapply Z.lt_le_trans; [exact Hm2|]. apply Z.pow_le_mono_r; lia. }
  rewrite (proj2 (Z.eqb_neq (Z.pos m) (2 ^ 53))) by lia.
  rewrite (proj2 (Z.eqb_neq (Z.pos m) 0)) by lia.
  rewrite (proj2 (Z.ltb_ge 971 e)) by lia.
  reflexivity.
Qed.

(** The sign is carried over. *)
Lemma nearest_sign (negative : bool) (num den : Z) (m : positive) (e : Z) :
  nearest false num den = S754_finite false m e ->
  nearest negative num den = S754_finite negative m e.
Proof.
  unfold nearest.
  destruct (if _ =? 2 ^ 53 then _ else _) as [m' e'].
  destruct (m' =? 0); [discriminate|]. destruct (971 <? e'); [discriminate|].
  intros [= <- <-]. reflexivity.
Qed.

Lemma decimal_sign (negative : bool) (a q : Z) (m : positive) (e : Z) :
  decimal false a q = S754_finite false m e ->
  decimal negative a q = S754_finite negative m e.
Proof. unfold decimal. destruct (0 <=? q); apply nearest_sign. Qed.

Lemma same_eq (x : spec_float) (m : positive) (e : Z) :
  same x (S754_finite false m e) = true -> x = S754_finite false m e.
Proof.
  destruct x as [| | |s m' e']; try discriminate. simpl.
  intros H. apply andb_true_iff in H as [H He]. apply andb_true_iff in H as [Hs Hm].
  apply Bool.eqb_prop in Hs. apply Pos.eqb_eq in Hm. apply Z.eqb_eq in He.
  subst. reflexivity.
Qed.

(** The decimal expansion of a double denotes it. *)
Lemma decimal_exact (m : positive) (e : Z) :
  bounded prec emax m e = true ->
  decimal false (if 0 <=? e then Z.pos m * 2 ^ e else Z.pos m * 5 ^ (- e)) (Z.min e 0)
  = S754_finite false m e.
Proof.
  intros Hbounded. unfold decimal.
  destruct (Z.leb_spec 0 e) as [He|He].
  - replace (Z.min e 0) with 0 by lia. simpl (0 <=? 0).
    cbv iota. apply nearest_exact; [lia| |exact Hbounded].
    replace (Z.max 0 (- e)) with 0 by lia. replace (Z.max 0 e) with e by lia.
    change (10 ^ 0) with 1. change (2 ^ 0) with 1. lia.
  - replace (Z.min e 0) with e by lia.
    rewrite (proj2 (Z.leb_gt 0 e)) by lia.
    apply nearest_exact; [apply Z.pow_pos_nonneg; lia| |exact Hbounded].
    replace (Z.max 0 (- e)) with (- e) by lia. replace (Z.max 0 e) with 0 by lia.
    change (2 ^ 0) with 1.
    replace 10 with (5 * 2) by lia. rewrite Z.pow_mul_l. lia.
Qed.
End RoundingFacts.

Section LiteralFacts.
Import JS JSON Number.
Local Open Scope Z_scope.

Lemma span_digits_end (rest : string) : ends_digits rest -> span_digits rest = ("", rest).
Proof.
  destruct rest as [|c rest]; [reflexivity|]. simpl. intros ->. reflexivity.
Qed.

Lemma span_digits_more (k : nat) (n : Z) (rest : string) :
  span_digits (digits k n +:+ rest)
  = (digits k n +:+ (span_digits rest).1, (span_digits rest).2).
Proof.
  induction k as [|k IH].
  - change (digits 0 n +:+ rest) with rest.
    change (digits 0 n +:+ (span_digits rest).1) with (span_digits rest).1.
    destruct (span_digits rest). reflexivity.
  - cbn [digits]. rewrite !append_cons. cbn [span_digits].
    rewrite digit_is_digit by apply nth_digit_range. rewrite IH. reflexivity.
Qed.

(** A run of digits that is not empty and does not start with [0]. *)
Lemma lex_int_digits (k : nat) (n : Z) (more rest : string) :
  10 ^ Z.of_nat k <= n < 10 ^ Z.of_nat (S k) ->
  span_digits more = (more, "") -> ends_digits rest ->
  lex_int ((digits (S k) n +:+ more) +:+ rest) = Some (digits (S k) n +:+ more, rest).
Proof.
  intros Hn Hmore Hrest.
  destruct (digits_head k n Hn) as (c & Hc & Hdigit & Hzero).
  assert (Hspan : span_digits ((digits (S k) n +:+ more) +:+ rest)
                  = (digits (S k) n +:+ more, rest)).
  { rewrite append_assoc, span_digits_more.
    assert (Hm : span_digits (more +:+ rest) = (more, rest)).
    { clear - Hmore Hrest. induction more as [|d more IH].
      - rewrite append_nil_l. apply span_digits_end, Hrest.
      - rewrite append_cons. cbn [span_digits] in *.
        destruct (is_digit d); [|discriminate Hmore].
        destruct (span_digits more) as [a b] eqn:E.
        injection Hmore as -> ->. rewrite (IH eq_refl). reflexivity. }
    rewrite Hm. reflexivity. }
  unfold lex_int, digits1. rewrite Hspan.
  rewrite Hc, !append_cons. rewrite Hzero, Hdigit. reflexivity.
Qed.

Lemma span_digits_zeros_only (k : nat) : span_digits (zeros k) = (zeros k, "").
Proof.
  pose proof (span_digits_zeros k "") as H. rewrite !append_nil_r in H. exact H.
Qed.

Lemma lex_frac_digits (ds rest : string) :
  ds <> "" -> span_digits (ds +:+ rest) = (ds, rest) ->
  lex_frac ("." +:+ ds +:+ rest) = Some ("." +:+ ds, rest).
Proof.
  intros Hne Hspan. change ("." +:+ ds +:+ rest) with (String "." (ds +:+ rest)).
  cbn [lex_frac]. change (Ascii.eqb "." ".") with true. cbv iota.
  unfold digits1. rewrite Hspan. destruct ds; [contradiction|]. reflexivity.
Qed.

Lemma lex_frac_none (rest : string) :
  match rest with String c _ => Ascii.eqb c "." = false | "" => True end ->
  lex_frac rest = Some ("", rest).
Proof. destruct rest as [|c rest]; [reflexivity|]. simpl. intros ->. reflexivity. Qed.

Lemma lex_exp_digits (positive : bool) (ds : string) :
  ds <> "" -> span_digits ds = (ds, "") ->
  lex_exp ((if positive then "e+" else "e-") +:+ ds)
  = Some ((if positive then "e+" else "e-") +:+ ds, "")
  /\ exponent_of ((if positive then "e+" else "e-") +:+ ds)
     = if positive then number_of 0 ds else - number_of 0 ds.
Proof.
  intros Hne Hspan.
  destruct positive.
  - change ("e+" +:+ ds) with (String "e" (String "+" ds)). cbn [lex_exp lex_sign exponent_of].
    change (Ascii.eqb "e" "e" || Ascii.eqb "e" "E") with true.
    change (Ascii.eqb "+" "+" || Ascii.eqb "+" "-") with true. cbv iota beta.
    unfold digits1. rewrite Hspan. destruct ds; [contradiction|]. split; reflexivity.
  - change ("e-" +:+ ds) with (String "e" (String "-" ds)). cbn [lex_exp lex_sign exponent_of].
    change (Ascii.eqb "e" "e" || Ascii.eqb "e" "E") with true.
    change (Ascii.eqb "-" "+" || Ascii.eqb "-" "-") with true. cbv iota beta.
    unfold digits1. rewrite Hspan. destruct ds; [contradiction|]. split; reflexivity.
Qed.

Lemma span_digits_all (k : nat) (n : Z) : span_digits (digits k n) = (digits k n, "").
Proof.
  pose proof (span_digits_more k n "") as H. rewrite !append_nil_r in H. exact H.
Qed.

Lemma digits_nonempty (k : nat) (n : Z) : (0 < k)%nat -> digits k n <> "".
Proof. destruct k; [lia|]. discriminate. Qed.

(** What a literal made of an integer part, a fraction and an exponent
    lexes to and denotes. *)
Lemma literal_value (negative : bool) (int frac exp : string) :
  lex_int (int +:+ frac +:+ exp) = Some (int, frac +:+ exp) ->
  lex_frac (frac +:+ exp) = Some (frac, exp) ->
  lex_exp exp = Some (exp, "") ->
  let text := (if negative then "-" else "") +:+ int +:+ frac +:+ exp in
  let fraction := match frac with String _ ds => ds | "" => "" end in
  lex_number text = Some (text, "")
  /\ value text
     = SF2Prim (decimal negative (number_of 0 (int +:+ fraction))
                  (exponent_of exp - Z.of_nat (String.length fraction))).
Proof.
  intros Hint Hfrac Hexp text fraction.
  assert (Hhead : exists c t, int +:+ frac +:+ exp = String c t /\ Ascii.eqb c "-" = false).
  { destruct (int +:+ frac +:+ exp) as [|c t]; [discriminate Hint|].
    exists c, t. split; [reflexivity|].
    unfold lex_int in Hint.
    destruct (Ascii.eqb_spec c "-") as [->|_]; [discriminate Hint|reflexivity]. }
  destruct Hhead as (c & t & Ht & Hc).
  assert (Hlex : forall minus,
    (lex_int (int +:+ frac +:+ exp) ≫= λ '(int, s2), lex_frac s2 ≫= λ '(frac, s3),
       lex_exp s3 ≫= λ '(exp, s4), Some (minus +:+ int +:+ frac +:+ exp, s4))
    = Some (minus +:+ int +:+ frac +:+ exp, "")).
  { intros minus. rewrite Hint. cbn. rewrite Hfrac. cbn. rewrite Hexp. reflexivity. }
  subst text. destruct negative.
  - change ("-" +:+ int +:+ frac +:+ exp) with (String "-" (int +:+ frac +:+ exp)).
    split.
    + unfold lex_number. change (Ascii.eqb "-" "-") with true. cbv iota beta.
      apply (Hlex "-").
    + unfold value. change (Ascii.eqb "-" "-") with true. cbv iota beta.
      rewrite Hint. cbn [default from_option id]. rewrite Hfrac. cbn [default from_option id].
      reflexivity.
  - rewrite append_nil_l. split.
    + unfold lex_number. rewrite Ht, Hc, <- Ht. apply (Hlex "").
    + unfold value. rewrite Ht, Hc, <- Ht.
      rewrite Hint. cbn [default from_option id]. rewrite Hfrac. cbn [default from_option id].
      reflexivity.
Qed.
End LiteralFacts.

Section FormatFacts.
Import JS JSON Number.
Local Open Scope Z_scope.

Lemma number_of_digits_exact (k : nat) (s : Z) :
  0 <= s < 10 ^ Z.of_nat k -> number_of 0 (digits k s) = s.
Proof.
  intros Hs. rewrite number_of_digits by lia. rewrite Z.mod_small by lia. lia.
Qed.

Lemma exponent_text (e : Z) :
  let ds := digits (decimal_length (Z.abs e)) (Z.abs e) in
  let exp := (if 0 <=? e then "e+" else "e-") +:+ ds in
  lex_exp exp = Some (exp, "") /\ exponent_of exp = e
  /\ exists c t, exp = String c t /\ is_digit c = false /\ Ascii.eqb c "." = false.
Proof.
  intros ds exp.
  destruct (decimal_length_bounds (Z.abs e) ltac:(lia)) as (Hpos & Hup & _).
  destruct (lex_exp_digits (0 <=? e) ds) as [Hlex Hval].
  { apply digits_nonempty, Hpos. }
  { apply span_digits_all. }
  split; [exact Hlex|]. split.
  - subst exp. rewrite Hval. unfold ds. rewrite number_of_digits_exact by lia.
    destruct (Z.leb_spec 0 e); lia.
  - subst exp. destruct (0 <=? e); eexists _, _; (split; [reflexivity|split; reflexivity]).
Qed.

Lemma decimal_scaled (negative : bool) (s j : Z) :
  0 <= j -> decimal negative (s * 10 ^ j) 0 = decimal negative s j.
Proof.
  intros Hj. unfold decimal. rewrite (proj2 (Z.leb_le 0 j) Hj).
  change (0 <=? 0) with true. cbv iota. change (10 ^ 0) with 1.
  rewrite Z.mul_1_r. reflexivity.
Qed.

(** The text of [s * 10 ^ (n - k)] is a numeric literal that denotes
    it. *)
Lemma format_literal (negative : bool) (s n : Z) (k : nat) :
  (0 < k)%nat -> 10 ^ (Z.of_nat k - 1) <= s < 10 ^ Z.of_nat k ->
  let text := (if negative then "-" else "") +:+ format s n k in
  lex_number text = Some (text, "")
  /\ value text = SF2Prim (decimal negative s (n - Z.of_nat k)).
Proof.
  intros Hk Hs.
  assert (Hs0 : 0 < s).
  { assert (0 < 10 ^ (Z.of_nat k - 1)) by (apply Z.pow_pos_nonneg; lia). lia. }
  assert (Hwhole : forall int frac exp a q,
    format s n k = int +:+ frac +:+ exp ->
    lex_int (int +:+ frac +:+ exp) = Some (int, frac +:+ exp) ->
    lex_frac (frac +:+ exp) = Some (frac, exp) ->
    lex_exp exp = Some (exp, "") ->
    number_of 0 (int +:+ match frac with String _ ds => ds | "" => "" end) = a ->
    exponent_of exp
    - Z.of_nat (String.length match frac with String _ ds => ds | "" => "" end) = q ->
    decimal negative a q = decimal negative s (n - Z.of_nat k) ->
    let text := (if negative then "-" else "") +:+ format s n k in
    lex_number text = Some (text, "")
    /\ value text = SF2Prim (decimal negative s (n - Z.of_nat k))).
  { intros int frac exp a q -> Hint Hfrac Hexp Ha Hq Hdec.
    destruct (literal_value negative int frac exp Hint Hfrac Hexp) as [Hlex Hval].
    split; [exact Hlex|]. cbv zeta in Hval. rewrite Hval, Ha, Hq, Hdec. reflexivity. }
  unfold format in *.
  destruct ((Z.of_nat k <=? n) && (n <=? 21)) eqn:C1.
  { (* the digits, then zeros *)
    apply andb_true_iff in C1 as [Hkn Hn21]. apply Z.leb_le in Hkn, Hn21.
    destruct k as [|k]; [lia|].
    apply (Hwhole (digits (S k) s +:+ zeros (Z.to_nat (n - Z.of_nat (S k)))) "" ""
             (s * 10 ^ (n - Z.of_nat (S k))) 0).
    + rewrite !append_nil_r. reflexivity.
    + rewrite append_nil_r.
      pose proof (lex_int_digits k s (zeros (Z.to_nat (n - Z.of_nat (S k)))) "") as H.
      rewrite append_nil_r in H. rewrite append_nil_r. apply H.
      * replace (Z.of_nat k) with (Z.of_nat (S k) - 1) by lia. exact Hs.
      * apply span_digits_zeros_only.
      * exact I.
    + reflexivity.
    + reflexivity.
    + rewrite append_nil_r, number_of_append, number_of_digits_exact by lia.
      rewrite number_of_zeros, Z2Nat.id by lia. reflexivity.
    + reflexivity.
    + apply decimal_scaled. lia. }
  destruct ((0 <? n) && (n <=? 21)) eqn:C2.
  { (* a point inside the digits *)
    apply andb_true_iff in C2 as [Hn0 Hn21]. apply Z.ltb_lt in Hn0. apply Z.leb_le in Hn21.
    assert (Hnk : n < Z.of_nat k).
    { apply andb_false_iff in C1 as [C1|C1]; [apply Z.leb_gt in C1; lia|].
      apply Z.leb_gt in C1. lia. }
    assert (E1 : exists j, Z.to_nat n = S j) by (exists (Nat.pred (Z.to_nat n)); lia).
    assert (E2 : exists i, Z.of_nat k - n = Z.of_nat i)
      by (exists (Z.to_nat (Z.of_nat k - n)); lia).
    destruct E1 as [j Hj'], E2 as [i Hi].
    rewrite Hj', Hi, Nat2Z.id in Hwhole |- *.
    assert (Hij : k = (S j + i)%nat) by lia.
    assert (Hj : n = Z.of_nat (S j)) by lia.
    assert (Hpi : 0 < 10 ^ Z.of_nat i) by (apply Z.pow_pos_nonneg; lia).
    assert (Hhigh : 10 ^ (Z.of_nat (S j) - 1) <= s / 10 ^ Z.of_nat i < 10 ^ Z.of_nat (S j)).
    { assert (E1 : 10 ^ Z.of_nat k = 10 ^ Z.of_nat i * 10 ^ Z.of_nat (S j)).
      { rewrite <- Z.pow_add_r by lia. f_equal. lia. }
      assert (E2 : 10 ^ (Z.of_nat k - 1) = 10 ^ Z.of_nat i * 10 ^ (Z.of_nat (S j) - 1)).
      { rewrite <- Z.pow_add_r by lia. f_equal. lia. }
      split.
      - apply Z.div_le_lower_bound; lia.
      - apply Z.div_lt_upper_bound; lia. }
    apply (Hwhole (digits (S j) (s / 10 ^ Z.of_nat i)) ("." +:+ digits i s) "" s
             (n - Z.of_nat k)).
    + rewrite !append_nil_r. reflexivity.
    + rewrite append_nil_r.
      pose proof (lex_int_digits j (s / 10 ^ Z.of_nat i) "" ("." +:+ digits i s)) as H.
      rewrite append_nil_r in H. apply H.
      * replace (Z.of_nat j) with (Z.of_nat (S j) - 1) by lia. exact Hhigh.
      * reflexivity.
      * reflexivity.
    + rewrite append_nil_r.
      pose proof (lex_frac_digits (digits i s) "") as H.
      rewrite !append_nil_r in H. apply H.
      * apply digits_nonempty. lia.
      * apply span_digits_all.
    + reflexivity.
    + change ("." +:+ digits i s) with (String "." (digits i s)). cbv iota.
      rewrite <- digits_split by lia. rewrite <- Hij.
      apply number_of_digits_exact. lia.
    + change ("." +:+ digits i s) with (String "." (digits i s)). cbv iota.
      rewrite digits_length. change (exponent_of "") with 0. lia.
    + reflexivity. }
  destruct ((-6 <? n) && (n <=? 0)) eqn:C3.
  { (* zeros after the point, then the digits *)
    apply andb_true_iff in C3 as [Hn6 Hn0]. apply Z.ltb_lt in Hn6. apply Z.leb_le in Hn0.
    apply (Hwhole "0" ("." +:+ zeros (Z.to_nat (- n)) +:+ digits k s) "" s
             (n - Z.of_nat k)).
    + rewrite !append_nil_r. reflexivity.
    + reflexivity.
    + rewrite append_nil_r.
      pose proof (lex_frac_digits (zeros (Z.to_nat (- n)) +:+ digits k s) "") as H.
      rewrite !append_nil_r in H. apply H.
      * destruct (Z.to_nat (- n)); [|discriminate].
        rewrite append_nil_l. apply digits_nonempty, Hk.
      * rewrite span_digits_zeros, span_digits_all. reflexivity.
    + reflexivity.
    + change ("." +:+ zeros (Z.to_nat (- n)) +:+ digits k s)
        with (String "." (zeros (Z.to_nat (- n)) +:+ digits k s)). cbv iota.
      change ("0" +:+ zeros (Z.to_nat (- n)) +:+ digits k s)
        with (zeros 1 +:+ zeros (Z.to_nat (- n)) +:+ digits k s).
      rewrite !number_of_append, !number_of_zeros, number_of_digits by lia.
      rewrite Z.mod_small by lia. lia.
    + change ("." +:+ zeros (Z.to_nat (- n)) +:+ digits k s)
        with (String "." (zeros (Z.to_nat (- n)) +:+ digits k s)). cbv iota.
      rewrite length_append, zeros_length, digits_length.
      change (exponent_of "") with 0. lia.
    + reflexivity. }
  (* exponent form *)
  cbv zeta in *.
  destruct (exponent_text (n - 1)) as (Hexp & Hval & c & t & Hhead & Hnotdigit & Hnotpoint).
  cbv zeta in Hexp, Hval, Hhead.
  set (exp := (if 0 <=? n - 1 then "e+" else "e-")
              +:+ digits (decimal_length (Z.abs (n - 1))) (Z.abs (n - 1))) in *.
  destruct k as [|[|k]]; [lia| |].
  - (* one digit *)
    apply (Hwhole (digits 1 s) "" exp s (n - 1)).
    + rewrite append_nil_l. reflexivity.
    + rewrite append_nil_l.
      pose proof (lex_int_digits 0 s "" exp) as H. rewrite append_nil_r in H. apply H.
      * exact Hs.
      * reflexivity.
      * rewrite Hhead. exact Hnotdigit.
    + rewrite append_nil_l. apply lex_frac_none. rewrite Hhead. exact Hnotpoint.
    + exact Hexp.
    + rewrite append_nil_r. apply number_of_digits_exact. lia.
    + rewrite Hval. simpl. lia.
    + reflexivity.
  - (* a digit, the point, the other digits *)
    assert (Hp : 0 < 10 ^ Z.of_nat (S k)) by (apply Z.pow_pos_nonneg; lia).
    replace (Z.of_nat (S (S k)) - 1) with (Z.of_nat (S k)) in * by lia.
    replace (S (S k) - 1)%nat with (S k) in * by lia.
    assert (Hhigh : 10 ^ Z.of_nat 0 <= s / 10 ^ Z.of_nat (S k) < 10 ^ Z.of_nat 1).
    { assert (E1 : 10 ^ Z.of_nat (S (S k)) = 10 ^ Z.of_nat (S k) * 10 ^ Z.of_nat 1).
      { rewrite <- Z.pow_add_r by lia. f_equal. lia. }
      split.
      - apply Z.div_le_lower_bound; [lia|]. change (10 ^ Z.of_nat 0) with 1. lia.
      - apply Z.div_lt_upper_bound; lia. }
    apply (Hwhole (digits 1 (s / 10 ^ Z.of_nat (S k))) ("." +:+ digits (S k) s) exp s
             (n - Z.of_nat (S (S k)))).
    + rewrite !append_assoc. reflexivity.
    + pose proof (lex_int_digits 0 (s / 10 ^ Z.of_nat (S k)) ""
                    (("." +:+ digits (S k) s) +:+ exp)) as H.
      rewrite append_nil_r in H. apply H.
      * exact Hhigh.
      * reflexivity.
      * reflexivity.
    + rewrite append_assoc. apply lex_frac_digits; [discriminate|].
      rewrite span_digits_more, span_digits_end by (rewrite Hhead; exact Hnotdigit).
      rewrite append_nil_r. reflexivity.
    + exact Hexp.
    + change ("." +:+ digits (S k) s) with (String "." (digits (S k) s)). cbv iota.
      rewrite <- (digits_split 1 (S k)) by lia. change (1 + S k)%nat with (S (S k)).
      apply number_of_digits_exact. lia.
    + change ("." +:+ digits (S k) s) with (String "." (digits (S k) s)). cbv iota.
      rewrite digits_length, Hval. lia.
    + reflexivity.
Qed.
End FormatFacts.

Section ToStringFacts.
Import JS JSON Number.
Local Open Scope Z_scope.

Lemma with_digits_represents (x : spec_float) (D E : Z) (L k : nat) (s n : Z) :
  with_digits x D E L k = Some (s, n) -> represents x s n k = true.
Proof.
  unfold with_digits.
  set (unit := 10 ^ Z.of_nat (L - k)). set (n0 := Z.of_nat L + E).
  set (lo := D / unit).
  set (up := if lo + 1 =? 10 ^ Z.of_nat k then _ else _).
  assert (Hsome : forall p : Z * Z, Some p = Some (s, n) -> p = (s, n))
    by (intros p [= ->]; reflexivity).
  destruct (represents x lo n0 k) eqn:Hlo, (represents x up.1 up.2 k) eqn:Hup;
    [| | |discriminate].
  - destruct (D - lo * unit ?= (lo + 1) * unit - D); [destruct (Z.even lo)| |];
      intros H; apply Hsome in H;
      first [injection H as <- <-; exact Hlo | rewrite H in Hup; exact Hup].
  - intros H. apply Hsome in H. injection H as <- <-. exact Hlo.
  - intros H. apply Hsome in H. rewrite H in Hup. exact Hup.
Qed.

Lemma shortest_represents (m : positive) (e : Z) :
  bounded prec emax m e = true ->
  let D := if 0 <=? e then Z.pos m * 2 ^ e else Z.pos m * 5 ^ (- e) in
  let E := Z.min e 0 in
  let L := decimal_length D in
  forall steps k, (0 < k)%nat ->
    let '(s, n, k') := shortest (S754_finite false m e) D E L steps k in
    (0 < k')%nat /\ represents (S754_finite false m e) s n k' = true.
Proof.
  intros Hbounded D E L.
  assert (HD : 0 < D).
  { unfold D. destruct (0 <=? e) eqn:He.
    - apply Z.leb_le in He. assert (0 < 2 ^ e) by (apply Z.pow_pos_nonneg; lia). nia.
    - apply Z.leb_gt in He. assert (0 < 5 ^ (- e)) by (apply Z.pow_pos_nonneg; lia). nia. }
  destruct (decimal_length_bounds D ltac:(lia)) as (HL & Hup & Hlow).
  specialize (Hlow HD). fold L in HL, Hup, Hlow.
  induction steps as [|steps IH]; intros k Hk; cbn [shortest].
  - split; [exact HL|]. unfold represents.
    rewrite (proj2 (Z.leb_le _ _) Hlow), (proj2 (Z.ltb_lt _ _) Hup). cbn [andb].
    replace (Z.of_nat L + E - Z.of_nat L) with E by lia.
    unfold D, E. rewrite (decimal_exact m e Hbounded). simpl.
    rewrite Pos.eqb_refl, Z.eqb_refl. reflexivity.
  - destruct (with_digits _ D E L k) as [[s n]|] eqn:Hk'.
    + split; [exact Hk|]. apply (with_digits_represents _ _ _ _ _ _ _ Hk').
    + apply IH. lia.
Qed.

(** Number::toString writes a finite number as a numeric literal that
    denotes it, the negative zero apart. *)
Lemma toString_round_trip (x : float) :
  is_finite x = true -> Prim2SF x <> S754_zero true ->
  lex_number (toString x) = Some (toString x, "") /\ value (toString x) = x.
Proof.
  intros Hfinite Hzero. unfold is_finite in Hfinite. unfold toString.
  pose proof (Prim2SF_valid x) as Hvalid. pose proof (SF2Prim_Prim2SF x) as Hx.
  destruct (Prim2SF x) as [[|]| | |negative m e]; try discriminate Hfinite.
  - contradiction.
  - split; [reflexivity|]. rewrite <- Hx. reflexivity.
  - pose proof (shortest_represents m e Hvalid) as Hshort. cbv zeta in Hshort.
    set (D := if 0 <=? e then Z.pos m * 2 ^ e else Z.pos m * 5 ^ (- e)) in *.
    specialize (Hshort (decimal_length D - 1)%nat 1%nat ltac:(lia)).
    destruct (shortest _ D (Z.min e 0) (decimal_length D) (decimal_length D - 1) 1)
      as [[s n] k].
    destruct Hshort as [Hk Hrep]. unfold represents in Hrep.
    apply andb_true_iff in Hrep as [Hrep Hsame].
    apply andb_true_iff in Hrep as [Hlow Hup].
    apply Z.leb_le in Hlow. apply Z.ltb_lt in Hup. apply same_eq in Hsame.
    destruct (format_literal negative s n k Hk (conj Hlow Hup)) as [Hlex Hval].
    split; [exact Hlex|].
    rewrite Hval, (decimal_sign negative _ _ _ _ Hsame). exact Hx.
Qed.
End ToStringFacts.

Section StringLiteralFacts.
Import JS JSON.

Lemma read_escape_char (c : ascii) (rest : string) :
  read_string (escape_char c +:+ rest) = prepend (String c "") (read_string rest).
Proof.
  destruct c as [b0 b1 b2 b3 b4 b5 b6 b7].
  destruct b0, b1, b2, b3, b4, b5, b6, b7; reflexivity.
Qed.

Lemma escape_cons (a : ascii) (rest : string) :
  escape (String a rest)
  = match rest with
    | String b (String c rest3) =>
        if leading_surrogate a b c then
          match rest3 with
          | String d (String e (String f rest6)) =>
              if trailing_surrogate d e f
              then String a (String b (String c (String d (String e (String f
                     (escape rest6))))))
              else unicode_escape (surrogate_code b c) +:+ escape rest3
          | _ => unicode_escape (surrogate_code b c) +:+ escape rest3
          end
        else if trailing_surrogate a b c
        then unicode_escape (surrogate_code b c) +:+ escape rest3
        else escape_char a +:+ escape rest
    | _ => escape_char a +:+ escape rest
    end.
Proof. destruct rest as [|b [|c rest3]]; reflexivity. Qed.

(** A character from 128 on is read as it is. *)
Lemma read_raw (c : ascii) (rest : string) :
  (128 <=? nat_of_ascii c)%nat = true ->
  read_string (String c rest) = prepend (String c "") (read_string rest).
Proof.
  intros Hc. rewrite <- read_escape_char.
  destruct c as [b0 b1 b2 b3 b4 b5 b6 b7].
  destruct b0, b1, b2, b3, b4, b5, b6, b7; try discriminate Hc; reflexivity.
Qed.

Lemma read_string_unicode (h1 h2 h3 h4 : ascii) (tail : string) :
  read_string (String backslash (String "u" (String h1 (String h2 (String h3
                 (String h4 tail))))))
  = match hex4 h1 h2 h3 h4 with
    | Some n =>
        if (55296 <=? n)%N && (n <=? 56319)%N then
          match low_surrogate tail with
          | Some (m, rest3) =>
              prepend (utf8 (65536 + (n - 55296) * 1024 + (m - 56320))%N)
                (read_string rest3)
          | None => prepend (utf8 n) (read_string tail)
          end
        else prepend (utf8 n) (read_string tail)
    | None => None
    end.
Proof.
  cbn [read_string]. change (Ascii.eqb backslash dquote) with false.
  change (Ascii.eqb backslash backslash) with true.
  change (simple_escape "u") with (@None ascii). change (Ascii.eqb "u" "u") with true.
  cbv iota.
  destruct (hex4 h1 h2 h3 h4) as [n|]; [|reflexivity].
  destruct ((55296 <=? n)%N && (n <=? 56319)%N); [|reflexivity].
  destruct tail as [|e [|u [|l1 [|l2 [|l3 [|l4 rest3]]]]]]; try reflexivity.
  destruct (low_surrogate _) as [[m r]|] eqn:Hlow; [|reflexivity].
  unfold low_surrogate in Hlow.
  destruct (Ascii.eqb e backslash && Ascii.eqb u "u"); [|discriminate Hlow].
  destruct (hex4 l1 l2 l3 l4) as [m'|]; [|discriminate Hlow]. simpl in Hlow.
  destruct ((56320 <=? m')%N && (m' <=? 57343)%N); [|discriminate Hlow].
  injection Hlow as <- <-. reflexivity.
Qed.

Lemma in_range_seq (lo hi : nat) (c : ascii) :
  in_range lo hi c = true -> In (nat_of_ascii c) (seq lo (S hi - lo)).
Proof.
  unfold in_range. intros H. apply andb_true_iff in H as [Hlo Hhi].
  apply Nat.leb_le in Hlo, Hhi. apply in_seq. lia.
Qed.

(** The escape of a surrogate is read back as its three bytes. *)
Lemma surrogate_code_read (b c : ascii) :
  in_range 160 191 b = true -> continuation c = true ->
  hex4 (hex_lower (N.to_nat (surrogate_code b c / 4096)))
       (hex_lower (N.to_nat (surrogate_code b c / 256 mod 16)))
       (hex_lower (N.to_nat (surrogate_code b c / 16 mod 16)))
       (hex_lower (N.to_nat (surrogate_code b c mod 16)))
  = Some (surrogate_code b c)
  /\ utf8 (surrogate_code b c) = String "237" (String b (String c ""))
  /\ (55296 <=? surrogate_code b c)%N && (surrogate_code b c <=? 56319)%N
     = in_range 160 175 b
  /\ (56320 <=? surrogate_code b c)%N && (surrogate_code b c <=? 57343)%N
     = in_range 176 191 b.
Proof.
  intros Hb Hc.
  assert (Hall :
    forallb (fun nb =>
      forallb (fun nc =>
        let b := ascii_of_nat nb in
        let c := ascii_of_nat nc in
        bool_decide
          (hex4 (hex_lower (N.to_nat (surrogate_code b c / 4096)))
                (hex_lower (N.to_nat (surrogate_code b c / 256 mod 16)))
                (hex_lower (N.to_nat (surrogate_code b c / 16 mod 16)))
                (hex_lower (N.to_nat (surrogate_code b c mod 16)))
           = Some (surrogate_code b c))
        && String.eqb (utf8 (surrogate_code b c)) (String "237" (String b (String c "")))
        && Bool.eqb ((55296 <=? surrogate_code b c)%N && (surrogate_code b c <=? 56319)%N)
             (in_range 160 175 b)
        && Bool.eqb ((56320 <=? surrogate_code b c)%N && (surrogate_code b c <=? 57343)%N)
             (in_range 176 191 b))
        (seq 128 64))
      (seq 160 32) = true) by (vm_compute; reflexivity).
  rewrite forallb_forall in Hall.
  specialize (Hall _ (in_range_seq 160 191 b Hb)). cbv beta in Hall.
  rewrite forallb_forall in Hall.
  specialize (Hall _ (in_range_seq 128 191 c Hc)). cbv beta zeta in Hall.
  rewrite !ascii_nat_embedding in Hall.
  apply andb_true_iff in Hall as [Hall H4]. apply andb_true_iff in Hall as [Hall H3].
  apply andb_true_iff in Hall as [H1 H2].
  apply bool_decide_eq_true_1 in H1. apply String.eqb_eq in H2.
  apply Bool.eqb_prop in H3, H4. repeat split; assumption.
Qed.

Lemma hex_value_bound (c : ascii) (x : N) : hex_value c = Some x -> (x < 16)%N.
Proof.
  destruct c as [b0 b1 b2 b3 b4 b5 b6 b7].
  destruct b0, b1, b2, b3, b4, b5, b6, b7; try discriminate; intros [= <-]; reflexivity.
Qed.

Lemma low_surrogate_some (s : string) (n : N) (r : string) :
  low_surrogate s = Some (n, r) ->
  exists a b c d,
    s = String backslash (String "u" (String a (String b (String c (String d r)))))
    /\ hex4 a b c d = Some n /\ (56320 <= n <= 57343)%N.
Proof.
  destruct s as [|e [|u [|a [|b [|c [|d rest]]]]]]; try discriminate.
  unfold low_surrogate.
  destruct (Ascii.eqb_spec e backslash) as [->|]; [|discriminate].
  destruct (Ascii.eqb_spec u "u") as [->|]; [|discriminate]. cbn [andb].
  destruct (hex4 a b c d) as [m|] eqn:Hhex; [|discriminate]. simpl.
  destruct ((56320 <=? m)%N && (m <=? 57343)%N) eqn:Hm; [|discriminate].
  intros [= <- <-]. exists a, b, c, d.
  split; [reflexivity|]. split; [exact Hhex|].
  apply andb_true_iff in Hm as [Hlo Hhi]. apply N.leb_le in Hlo, Hhi. lia.
Qed.

Lemma low_surrogate_escape_char (a : ascii) (tail : string) :
  low_surrogate (escape_char a +:+ tail) = None.
Proof.
  destruct (low_surrogate _) as [[n r]|] eqn:Hlow; [|reflexivity]. exfalso.
  apply low_surrogate_some in Hlow as (h1 & h2 & h3 & h4 & Hs & Hhex & Hn).
  destruct a as [b0 b1 b2 b3 b4 b5 b6 b7].
  destruct b0, b1, b2, b3, b4, b5, b6, b7; try discriminate Hs;
    injection Hs as <- <- <- <- _;
    vm_compute in Hhex; injection Hhex as <-; lia.
Qed.

Lemma low_surrogate_raw (a : ascii) (tail : string) :
  a <> backslash -> low_surrogate (String a tail) = None.
Proof.
  intros Ha. destruct (low_surrogate _) as [[n r]|] eqn:Hlow; [|reflexivity]. exfalso.
  apply low_surrogate_some in Hlow as (h1 & h2 & h3 & h4 & [= -> _] & _).
  contradiction.
Qed.

Lemma in_range_bounds (lo hi : nat) (c : ascii) :
  in_range lo hi c = true <-> lo <= nat_of_ascii c <= hi.
Proof.
  unfold in_range. rewrite andb_true_iff, !Nat.leb_le. reflexivity.
Qed.

Lemma leading_surrogate_bytes (a b c : ascii) :
  leading_surrogate a b c = true ->
  a = "237"%char /\ in_range 160 175 b = true /\ continuation c = true.
Proof.
  unfold leading_surrogate. intros H.
  apply andb_true_iff in H as [H Hc]. apply andb_true_iff in H as [Ha Hb].
  apply Ascii.eqb_eq in Ha. auto.
Qed.

Lemma trailing_surrogate_bytes (a b c : ascii) :
  trailing_surrogate a b c = true ->
  a = "237"%char /\ in_range 176 191 b = true /\ continuation c = true.
Proof.
  unfold trailing_surrogate. intros H.
  apply andb_true_iff in H as [H Hc]. apply andb_true_iff in H as [Ha Hb].
  apply Ascii.eqb_eq in Ha. auto.
Qed.

(** The escape of a surrogate is no escape of a trailing surrogate unless
    the surrogate is one. *)
Lemma low_surrogate_unicode (b c : ascii) (tail : string) :
  in_range 160 175 b = true -> continuation c = true ->
  low_surrogate (unicode_escape (surrogate_code b c) +:+ tail) = None.
Proof.
  intros Hb Hc.
  assert (Hb' : in_range 160 191 b = true).
  { apply in_range_bounds. apply in_range_bounds in Hb. lia. }
  destruct (surrogate_code_read b c Hb' Hc) as (Hhex & _ & _ & Hlow).
  assert (Hnot : in_range 176 191 b = false).
  { apply not_true_is_false. intros H. apply in_range_bounds in H, Hb. lia. }
  rewrite Hnot in Hlow.
  destruct (low_surrogate _) as [[n r]|] eqn:E; [|reflexivity]. exfalso.
  apply low_surrogate_some in E as (h1 & h2 & h3 & h4 & Hs & Hhex' & Hn).
  unfold unicode_escape in Hs. rewrite !append_cons in Hs.
  injection Hs as <- <- <- <- _. rewrite Hhex in Hhex'. injection Hhex' as <-.
  apply andb_false_iff in Hlow as [H|H]; [apply N.leb_gt in H|apply N.leb_gt in H]; lia.
Qed.

(** After a leading surrogate that no trailing one follows, the text does
    not go on with the escape of a trailing surrogate. *)
Lemma low_surrogate_escape (s rest : string) :
  match s with
  | String d (String e (String f _)) => trailing_surrogate d e f
  | _ => false
  end = false ->
  low_surrogate (escape s +:+ String dquote rest) = None.
Proof.
  intros Hs. destruct s as [|a r]; [apply low_surrogate_raw; discriminate|].
  rewrite escape_cons.
  destruct r as [|b [|c rest3]];
    try (rewrite append_assoc; apply low_surrogate_escape_char).
  rewrite Hs. destruct (leading_surrogate a b c) eqn:Hlead;
    [|rewrite append_assoc; apply low_surrogate_escape_char].
  apply leading_surrogate_bytes in Hlead as (-> & Hb & Hc).
  destruct rest3 as [|d [|e [|f rest6]]];
    try (rewrite append_assoc; apply low_surrogate_unicode; assumption).
  destruct (trailing_surrogate d e f);
    [|rewrite append_assoc; apply low_surrogate_unicode; assumption].
  apply low_surrogate_raw. discriminate.
Qed.

Lemma read_surrogate_escape (b c : ascii) (tail : string) :
  in_range 160 191 b = true -> continuation c = true ->
  (in_range 160 175 b = true -> low_surrogate tail = None) ->
  read_string (unicode_escape (surrogate_code b c) +:+ tail)
  = prepend (String "237" (String b (String c ""))) (read_string tail).
Proof.
  intros Hb Hc Hlow.
  destruct (surrogate_code_read b c Hb Hc) as (Hhex & Hutf & Hhigh & _).
  unfold unicode_escape. rewrite !append_cons, append_nil_l.
  rewrite read_string_unicode, Hhex, Hhigh, Hutf.
  destruct (in_range 160 175 b); [rewrite Hlow by reflexivity|]; reflexivity.
Qed.

(** A quoted string is read back as written. *)
Lemma read_string_escape (s rest : string) :
  read_string (escape s +:+ String dquote rest) = Some (s, rest).
Proof.
  assert (H : forall n s, String.length s <= n ->
            read_string (escape s +:+ String dquote rest) = Some (s, rest)).
  { induction n as [|n IH]; intros s' Hn.
    - destruct s'; [reflexivity|simpl in Hn; lia].
    - destruct s' as [|a r]; [reflexivity|]. cbn [String.length] in Hn.
      assert (Hordinary :
        read_string ((escape_char a +:+ escape r) +:+ String dquote rest)
        = Some (String a r, rest)).
      { rewrite append_assoc, read_escape_char, IH by lia. reflexivity. }
      rewrite escape_cons.
      destruct r as [|b [|c rest3]]; try exact Hordinary.
      cbn [String.length] in Hn.
      destruct (leading_surrogate a b c) eqn:Hlead.
      + apply leading_surrogate_bytes in Hlead as (-> & Hb & Hc).
        assert (Hb' : in_range 160 191 b = true).
        { apply in_range_bounds. apply in_range_bounds in Hb. lia. }
        assert (Hlone :
          low_surrogate (escape rest3 +:+ String dquote rest) = None ->
          read_string ((unicode_escape (surrogate_code b c) +:+ escape rest3)
                       +:+ String dquote rest)
          = Some (String "237" (String b (String c rest3)), rest)).
        { intros Hlow. rewrite append_assoc.
          rewrite (read_surrogate_escape b c _ Hb' Hc (fun _ => Hlow)), IH by lia.
          reflexivity. }
        destruct rest3 as [|d [|e [|f rest6]]];
          try (apply Hlone, low_surrogate_escape; reflexivity).
        destruct (trailing_surrogate d e f) eqn:Htrail;
          [|apply Hlone, low_surrogate_escape; exact Htrail].
        apply trailing_surrogate_bytes in Htrail as (-> & He & Hf).
        cbn [String.length] in Hn.
        apply in_range_bounds in Hb, Hc, He, Hf.
        rewrite !append_cons.
        do 6 (rewrite read_raw by first [reflexivity|apply Nat.leb_le; lia]).
        rewrite IH by lia. reflexivity.
      + destruct (trailing_surrogate a b c) eqn:Htrail; [|exact Hordinary].
        apply trailing_surrogate_bytes in Htrail as (-> & Hb & Hc).
        assert (Hb' : in_range 160 191 b = true).
        { apply in_range_bounds. apply in_range_bounds in Hb. lia. }
        assert (Hnot : in_range 160 175 b = true ->
                  low_surrogate (escape rest3 +:+ String dquote rest) = None).
        { intros Hhigh. apply in_range_bounds in Hhigh, Hb. lia. }
        rewrite append_assoc, (read_surrogate_escape b c _ Hb' Hc Hnot), IH by lia.
        reflexivity. }
  apply (H (String.length s)). lia.
Qed.
End StringLiteralFacts.

Section ObjectFacts.
Import JS JSON.
Local Open Scope list_scope.
Context {number : Type}.
Implicit Types (v : JSValue number) (ps members : list (string * JSValue number)).

Lemma define_fresh ps (key : string) v :
  key ∉ map fst ps -> define ps key v = ps ++ [(key, v)].
Proof.
  induction ps as [|[k x] ps IH]; simpl; intros Hk; [reflexivity|].
  apply not_elem_of_cons in Hk as [Hne Hk].
  destruct (String.eqb_spec k key) as [->|_]; [contradiction|].
  rewrite IH by assumption. reflexivity.
Qed.

Lemma fold_define_nodup members ps :
  NoDup (map fst (ps ++ members)) ->
  fold_left (fun properties m => define properties m.1 m.2) members ps = ps ++ members.
Proof.
  revert ps. induction members as [|[k v] members IH]; intros ps Hnd; simpl.
  - rewrite app_nil_r. reflexivity.
  - rewrite define_fresh.
    + rewrite IH; rewrite <- app_assoc; [reflexivity|exact Hnd].
    + rewrite map_app in Hnd. simpl in Hnd.
      apply NoDup_app in Hnd as (_ & Hdisj & _).
      intros Hin. apply (Hdisj k Hin). left.
Qed.

(** Members in the order of enumeration make the object that lists
    them. *)
Lemma object_of_enumeration members :
  Spec.enumeration members -> object_of members = JObject members.
Proof.
  intros [Hnd Horder]. unfold object_of.
  rewrite fold_define_nodup by exact Hnd.
  change ([] ++ members) with members. rewrite Horder. reflexivity.
Qed.
End ObjectFacts.

Section RoundTrip.
Import JS JSON.
Local Open Scope list_scope.
Context {number : Type}.
Variable number_text : number -> string.
Variable number_value : string -> number.
Implicit Types (x e : JSValue number) (es : list (JSValue number))
  (p : string * JSValue number) (ps : list (string * JSValue number))
  (rest : string) (fuel : nat).
#[local] Abbreviation serializable := (Spec.serializable number_text number_value).
#[local] Abbreviation text_of := (Spec.text_of number_text).
#[local] Abbreviation member_text := (Spec.member_text number_text).
#[local] Abbreviation parse_value := (JSON.parse_value number_value).
#[local] Abbreviation parse_elements := (JSON.parse_elements number_value).
#[local] Abbreviation parse_members := (JSON.parse_members number_value).

Lemma serializable_array es :
  serializable (JArray es) <-> Forall serializable es.
Proof.
  induction es as [|e es IH].
  - split; [constructor|intros _; exact I].
  - change (serializable (JArray (e :: es)))
      with (serializable e /\ serializable (JArray es)).
    rewrite Forall_cons, IH. reflexivity.
Qed.

Lemma serializable_members ps :
  (fix all (l : list (string * JSValue number)) : Prop :=
     match l with
     | [] => True
     | p :: l' => serializable p.2 /\ all l'
     end) ps
  <-> Forall (fun p => serializable p.2) ps.
Proof.
  induction ps as [|p ps IH].
  - split; [constructor|intros _; exact I].
  - rewrite Forall_cons, <- IH. reflexivity.
Qed.

Lemma serializable_object ps :
  serializable (JObject ps)
  <-> Spec.enumeration ps /\ Forall (fun p => serializable p.2) ps.
Proof.
  change (serializable (JObject ps)) with
    (Spec.enumeration ps
     /\ (fix all (l : list (string * JSValue number)) : Prop :=
           match l with
           | [] => True
           | p :: l' => serializable p.2 /\ all l'
           end) ps).
  rewrite serializable_members. reflexivity.
Qed.

Lemma size_array es : Spec.size (JArray es) = S (Spec.elements_size es).
Proof. reflexivity. Qed.

Lemma size_object ps : Spec.size (JObject ps) = S (Spec.members_size ps).
Proof. reflexivity. Qed.

Lemma size_positive x : 1 <= Spec.size x.
Proof. destruct x; simpl; lia. Qed.

Lemma serialize_text x :
  serializable x -> serialize number_text x = Some (text_of x).
Proof. destruct x; simpl; intros H; try reflexivity. contradiction. Qed.

Lemma text_array es :
  text_of (JArray es) = "[" +:+ join (map text_of es) "," +:+ "]".
Proof. reflexivity. Qed.

Lemma omap_member_text ps :
  Forall (fun p => serializable p.2) ps ->
  omap (fun p => text ← serialize number_text p.2;
                 Some (QuoteJSONString p.1 +:+ ":" +:+ text)) ps
  = map member_text ps.
Proof.
  intros Hps. induction Hps as [|p ps Hp _ IH]; [reflexivity|].
  cbn [omap list_omap map]. rewrite (serialize_text _ Hp), IH. reflexivity.
Qed.

Lemma text_object ps :
  Forall (fun p => serializable p.2) ps ->
  text_of (JObject ps) = "{" +:+ join (map member_text ps) "," +:+ "}".
Proof.
  intros Hps. rewrite <- (omap_member_text _ Hps). reflexivity.
Qed.

Lemma join_cons (t : string) (ts : list string) (separator : string) :
  join (t :: ts) separator
  = t +:+ match ts with [] => "" | _ :: _ => separator +:+ join ts separator end.
Proof. destruct ts; [symmetry; apply append_nil_r|reflexivity]. Qed.

Lemma digit_head_tests (c : ascii) :
  c = "-"%char \/ is_digit c = true ->
  is_ws c = false /\ Ascii.eqb c "]" = false /\ Ascii.eqb c "}" = false.
Proof.
  intros [->|H]; [repeat split; reflexivity|].
  destruct c as [b0 b1 b2 b3 b4 b5 b6 b7].
  destruct b0, b1, b2, b3, b4, b5, b6, b7; try discriminate H;
    repeat split; reflexivity.
Qed.

(** The text of a value starts with a character that is neither white space
    nor a closing bracket. *)
Lemma text_head x :
  serializable x ->
  exists c t,
    text_of x = String c t
    /\ is_ws c = false /\ Ascii.eqb c "]" = false /\ Ascii.eqb c "}" = false.
Proof.
  destruct x as [| |b|n|s|es|ps]; intros Hx.
  - contradiction.
  - exists "n"%char, "ull". repeat split; reflexivity.
  - destruct b; [exists "t"%char, "rue"|exists "f"%char, "alse"];
      repeat split; reflexivity.
  - destruct Hx as [Hlex _].
    destruct (lex_number_head _ _ _ Hlex) as (c & t & Ht & Hc).
    exists c, t. split; [exact Ht|apply digit_head_tests, Hc].
  - eexists dquote, _. repeat split; reflexivity.
  - eexists "["%char, _. repeat split; reflexivity.
  - eexists "{"%char, _. repeat split; reflexivity.
Qed.

Lemma skip_ws_head (c : ascii) (s : string) :
  is_ws c = false -> skip_ws (String c s) = String c s.
Proof. intros H. simpl. rewrite H. reflexivity. Qed.

Lemma parse_value_number fuel (c : ascii) (s : string) :
  c = "-"%char \/ is_digit c = true ->
  parse_value (S fuel) (String c s)
  = '(literal, rest) ← lex_number (String c s);
    Some (JNumber (number_value literal), rest).
Proof.
  intros [->|H]; [reflexivity|].
  destruct c as [b0 b1 b2 b3 b4 b5 b6 b7].
  destruct b0, b1, b2, b3, b4, b5, b6, b7; try discriminate H; reflexivity.
Qed.

Lemma parse_value_array fuel (s : string) (c : ascii) (t : string) :
  skip_ws s = String c t -> Ascii.eqb c "]" = false ->
  parse_value (S fuel) (String "[" s)
  = '(elements, rest) ← parse_elements fuel s; Some (JArray elements, rest).
Proof. intros Hs Hc. simpl. rewrite Hs, Hc. reflexivity. Qed.

Lemma parse_value_object fuel (s : string) (c : ascii) (t : string) :
  skip_ws s = String c t -> Ascii.eqb c "}" = false ->
  parse_value (S fuel) (String "{" s)
  = '(members, rest) ← parse_members fuel s; Some (object_of members, rest).
Proof. intros Hs Hc. simpl. rewrite Hs, Hc. reflexivity. Qed.

Lemma parse_value_string fuel (s : string) :
  parse_value (S fuel) (String dquote s)
  = '(str, rest) ← read_string s; Some (JString str, rest).
Proof. reflexivity. Qed.

Lemma parse_elements_unfold fuel (s : string) :
  parse_elements (S fuel) s
  = '(v, rest) ← parse_value fuel s;
    match skip_ws rest with
    | String c rest' =>
        if Ascii.eqb c "," then
          '(elements, rest'') ← parse_elements fuel rest';
          Some (v :: elements, rest'')
        else if Ascii.eqb c "]" then Some ([v], rest')
        else None
    | "" => None
    end.
Proof. reflexivity. Qed.

Lemma parse_members_unfold fuel (s : string) :
  parse_members (S fuel) (String dquote s)
  = '(key, rest1) ← read_string s;
    match skip_ws rest1 with
    | String c rest2 =>
        if Ascii.eqb c ":" then
          '(v, rest3) ← parse_value fuel rest2;
          match skip_ws rest3 with
          | String d rest4 =>
              if Ascii.eqb d "," then
                '(members, rest5) ← parse_members fuel rest4;
                Some ((key, v) :: members, rest5)
              else if Ascii.eqb d "}" then Some ([(key, v)], rest4)
              else None
          | "" => None
          end
        else None
    | "" => None
    end.
Proof. reflexivity. Qed.

Lemma skip_ws_text x (tail : string) :
  serializable x ->
  exists c t,
    skip_ws (text_of x +:+ tail) = String c t
    /\ Ascii.eqb c "]" = false /\ Ascii.eqb c "}" = false.
Proof.
  intros Hx. destruct (text_head x Hx) as (c & t & -> & Hws & Hc).
  exists c, (t +:+ tail). rewrite append_cons, (skip_ws_head _ _ Hws).
  split; [reflexivity|exact Hc].
Qed.

Lemma skip_ws_member p (tail : string) :
  exists t, skip_ws (member_text p +:+ tail) = String dquote t.
Proof.
  unfold Spec.member_text, QuoteJSONString. rewrite !append_cons.
  eexists. reflexivity.
Qed.

#[local] Arguments join : simpl never.

Ltac flatten :=
  repeat (rewrite append_assoc || rewrite append_cons || rewrite append_nil_l).

(** Reading back what was written, with enough fuel: values, the elements
    of an array up to its closing bracket, and the members of an object up
    to its closing brace. *)
Lemma parse_round_trip fuel :
  (forall x rest,
      Spec.size x <= fuel -> serializable x -> Spec.stop rest ->
      parse_value fuel (text_of x +:+ rest) = Some (x, rest))
  /\ (forall e es rest,
        Spec.elements_size (e :: es) <= fuel -> Forall serializable (e :: es) ->
        parse_elements fuel (join (map text_of (e :: es)) "," +:+ "]" +:+ rest)
        = Some (e :: es, rest))
  /\ (forall p ps rest,
        Spec.members_size (p :: ps) <= fuel ->
        Forall (fun p => serializable p.2) (p :: ps) ->
        parse_members fuel (join (map member_text (p :: ps)) "," +:+ "}" +:+ rest)
        = Some (p :: ps, rest)).
Proof.
  induction fuel as [|fuel (IHv & IHe & IHm)].
  { split; [|split].
    - intros x rest Hsize. pose proof (size_positive x). lia.
    - intros e es rest Hsize. simpl in Hsize. lia.
    - intros p ps rest Hsize. simpl in Hsize. lia. }
  split; [|split].
  - intros x rest Hsize Hx Hrest.
    destruct x as [| |b|n|s|es|ps].
    + contradiction.
    + reflexivity.
    + destruct b; reflexivity.
    + destruct Hx as [Hlex Hval].
      destruct (lex_number_head _ _ _ Hlex) as (c & t & Ht & Hc).
      change (text_of (JNumber n)) with (number_text n).
      rewrite Ht, append_cons, (parse_value_number _ _ _ Hc), <- append_cons, <- Ht.
      rewrite (lex_number_append _ _ _ _ (stop_halts _ Hrest) Hlex).
      simpl. rewrite Hval. reflexivity.
    + change (text_of (JString s)) with (String dquote (escape s +:+ String dquote "")).
      flatten. rewrite parse_value_string, read_string_escape. reflexivity.
    + destruct es as [|e es]; [reflexivity|].
      apply serializable_array in Hx. rewrite size_array in Hsize.
      rewrite text_array. flatten.
      assert (Hhead : exists c t,
                 skip_ws (join (map text_of (e :: es)) "," +:+ "]" +:+ rest) = String c t
                 /\ Ascii.eqb c "]" = false).
      { rewrite map_cons, join_cons, append_assoc.
        destruct (skip_ws_text e
                    (match map text_of es with
                     | [] => ""
                     | _ :: _ => "," +:+ join (map text_of es) ","
                     end +:+ "]" +:+ rest)
                    (Forall_inv Hx)) as (c & t & Hs & Hc & _).
        eauto. }
      destruct Hhead as (c & t & Hs & Hc).
      rewrite (parse_value_array _ _ _ _ Hs Hc), IHe; [reflexivity|lia|exact Hx].
    + destruct ps as [|p ps]; [reflexivity|].
      apply serializable_object in Hx as [Hnd Hps]. rewrite size_object in Hsize.
      rewrite (text_object _ Hps). flatten.
      assert (Hhead : exists t,
                 skip_ws (join (map member_text (p :: ps)) "," +:+ "}" +:+ rest)
                 = String dquote t).
      { rewrite map_cons, join_cons, append_assoc. apply skip_ws_member. }
      destruct Hhead as (t & Hs).
      rewrite (parse_value_object _ _ _ _ Hs eq_refl), IHm; [|lia|exact Hps].
      simpl. rewrite (object_of_enumeration _ Hnd). reflexivity.
  - intros e es rest Hsize Hes. rewrite parse_elements_unfold.
    apply Forall_cons in Hes as [He Hes].
    change (Spec.elements_size (e :: es))
      with (S (Spec.size e + Spec.elements_size es)) in Hsize.
    destruct es as [|e' es].
    + change (join (map text_of [e]) ",") with (text_of e).
      flatten.
      rewrite IHv; [|lia|exact He|right; left; reflexivity].
      reflexivity.
    + change (join (map text_of (e :: e' :: es)) ",")
        with (text_of e +:+ "," +:+ join (map text_of (e' :: es)) ",").
      flatten.
      rewrite IHv; [|lia|exact He|left; reflexivity].
      simpl.
      change (text_of e' :: map text_of es) with (map text_of (e' :: es)).
      change (String "]" rest) with ("]" +:+ rest).
      rewrite IHe; [reflexivity|lia|exact Hes].
  - intros [key v] ps rest Hsize Hps.
    apply Forall_cons in Hps as [Hv Hps].
    change (Spec.members_size ((key, v) :: ps))
      with (S (Spec.size v + Spec.members_size ps)) in Hsize.
    destruct ps as [|p ps].
    + change (join (map member_text [(key, v)]) ",")
        with (String dquote (escape key +:+ String dquote "") +:+ ":" +:+ text_of v).
      flatten. rewrite parse_members_unfold, read_string_escape.
      simpl.
      rewrite IHv; [|lia|exact Hv|right; right; reflexivity].
      reflexivity.
    + change (join (map member_text ((key, v) :: p :: ps)) ",")
        with ((String dquote (escape key +:+ String dquote "") +:+ ":" +:+ text_of v)
              +:+ "," +:+ join (map member_text (p :: ps)) ",").
      flatten. rewrite parse_members_unfold, read_string_escape.
      simpl.
      change (member_text p :: map member_text ps) with (map member_text (p :: ps)).
      rewrite IHv; [|lia|exact Hv|left; reflexivity].
      simpl.
      change (member_text p :: map member_text ps) with (map member_text (p :: ps)).
      change (String "}" rest) with ("}" +:+ rest).
      rewrite IHm; [reflexivity|lia|exact Hps].
Qed.

Lemma JSValue_induction (P : JSValue number -> Prop) :
  P JUndefined -> P JNull -> (forall b, P (JBoolean b)) -> (forall n, P (JNumber n)) ->
  (forall s, P (JString s)) ->
  (forall es, Forall P es -> P (JArray es)) ->
  (forall ps, Forall (fun p => P p.2) ps -> P (JObject ps)) ->
  forall x, P x.
Proof.
  intros Hu Hn Hb Hnum Hs Ha Ho.
  fix IH 1.
  intros [| |b|n|s|es|ps]; [exact Hu|exact Hn|apply Hb|apply Hnum|apply Hs| |].
  - apply Ha. revert es. fix IHes 1. intros [|e es]; constructor; [apply IH|apply IHes].
  - apply Ho. revert ps. fix IHps 1. intros [|p ps]; constructor; [apply IH|apply IHps].
Qed.

Lemma elements_size_bound es :
  Forall (fun e => Spec.size e <= 2 * String.length (text_of e) + 1) es ->
  Spec.elements_size es <= 2 * String.length (join (map text_of es) ",") + 2.
Proof.
  induction 1 as [|e es He _ IH]; [simpl; lia|].
  change (Spec.elements_size (e :: es))
    with (S (Spec.size e + Spec.elements_size es)).
  destruct es as [|e' es].
  - change (join (map text_of [e]) ",") with (text_of e).
    change (Spec.elements_size []) with 0. lia.
  - change (join (map text_of (e :: e' :: es)) ",")
      with (text_of e +:+ "," +:+ join (map text_of (e' :: es)) ",").
    rewrite !length_append. change (String.length ",") with 1. lia.
Qed.

Lemma members_size_bound ps :
  Forall (fun p => Spec.size p.2 <= 2 * String.length (text_of p.2) + 1) ps ->
  Spec.members_size ps <= 2 * String.length (join (map member_text ps) ",") + 2.
Proof.
  assert (Hmember : forall p, String.length (text_of p.2) <= String.length (member_text p)).
  { intros p. unfold Spec.member_text. rewrite !length_append. lia. }
  induction 1 as [|p ps Hp _ IH]; [simpl; lia|].
  change (Spec.members_size (p :: ps))
    with (S (Spec.size p.2 + Spec.members_size ps)).
  pose proof (Hmember p).
  destruct ps as [|p' ps].
  - change (join (map member_text [p]) ",") with (member_text p).
    change (Spec.members_size []) with 0. lia.
  - change (join (map member_text (p :: p' :: ps)) ",")
      with (member_text p +:+ "," +:+ join (map member_text (p' :: ps)) ",").
    rewrite !length_append. change (String.length ",") with 1. lia.
Qed.

(** Twice the length of its text, plus one, is fuel enough for a value. *)
Lemma size_bound x :
  serializable x -> Spec.size x <= 2 * String.length (text_of x) + 1.
Proof.
  induction x as [| |b|n|s|es IH|ps IH] using JSValue_induction; intros Hx;
    try (simpl; lia).
  - apply serializable_array in Hx.
    rewrite size_array, text_array, !length_append.
    change (String.length "[") with 1. change (String.length "]") with 1.
    assert (Hes : Forall (fun e => Spec.size e <= 2 * String.length (text_of e) + 1) es).
    { apply Forall_forall. intros e He.
      apply (proj1 (Forall_forall _ _) IH e He), (proj1 (Forall_forall _ _) Hx e He). }
    pose proof (elements_size_bound es Hes). lia.
  - apply serializable_object in Hx as [_ Hx].
    rewrite size_object, (text_object _ Hx), !length_append.
    change (String.length "{") with 1. change (String.length "}") with 1.
    assert (Hps : Forall (fun p => Spec.size p.2 <= 2 * String.length (text_of p.2) + 1) ps).
    { apply Forall_forall. intros p Hp.
      apply (proj1 (Forall_forall _ _) IH p Hp), (proj1 (Forall_forall _ _) Hx p Hp). }
    pose proof (members_size_bound ps Hps). lia.
Qed.

Lemma parse_text x : serializable x -> JSON.parse number_value (text_of x) = Ok x.
Proof.
  intros Hx. unfold JSON.parse.
  destruct (parse_round_trip (2 * String.length (text_of x) + 1)) as [Hv _].
  specialize (Hv x "" (size_bound x Hx) Hx I).
  rewrite append_nil_r in Hv. rewrite Hv. reflexivity.
Qed.

End RoundTrip.


(** * Further properties of the Response Validator *)

Section MoreValidatorFacts.
Import JS Constants ResponseValidator.
Local Open Scope list_scope.
Context {number : Type}.
Variable realm : Realm.
Implicit Types (response body : JSValue number) (fields : list string).

(** X1. The three status classes are the ranges 200-299, 400-499 and
    500-599, and no status code is in two of them. *)
Theorem status_classes_disjoint (statusCode : Z) :
  (isSuccessful statusCode = true <-> (200 <= statusCode <= 299)%Z)
  /\ (isClientError statusCode = true <-> (400 <= statusCode <= 499)%Z)
  /\ (isServerError statusCode = true <-> (500 <= statusCode <= 599)%Z)
  /\ isSuccessful statusCode && isClientError statusCode = false
  /\ isSuccessful statusCode && isServerError statusCode = false
  /\ isClientError statusCode && isServerError statusCode = false.
Proof.
  unfold isSuccessful, isClientError, isServerError,
    HTTP_STATUS.SUCCESS_MIN, HTTP_STATUS.SUCCESS_MAX, HTTP_STATUS.CLIENT_ERROR_MIN,
    HTTP_STATUS.CLIENT_ERROR_MAX, HTTP_STATUS.SERVER_ERROR_MIN,
    HTTP_STATUS.SERVER_ERROR_MAX.
  repeat split; try (rewrite andb_true_iff; lia);
    destruct (statusCode >=? 200)%Z eqn:?, (statusCode <=? 299)%Z eqn:?,
      (statusCode >=? 400)%Z eqn:?, (statusCode <=? 499)%Z eqn:?,
      (statusCode >=? 500)%Z eqn:?, (statusCode <=? 599)%Z eqn:?;
    try reflexivity; lia.
Qed.

(** What [validateRequiredFields] returns on an object or array. *)
Lemma validateRequiredFields_object response fields :
  Spec.is_object response = true ->
  validateRequiredFields realm response fields
  = Ok (let missing := Spec.missing_fields realm response fields in
        let nulls := Terms.null_fields realm response fields in
        let isValid := (length missing =? 0)%nat && (length nulls =? 0)%nat in
        {| valid := isValid;
           message :=
             Some (if isValid then "All required fields present and valid"
                   else ERROR_MESSAGES.MISSING_REQUIRED_FIELD);
           details := Some (FieldDetails missing nulls) |}).
Proof.
  intros Hobj. unfold validateRequiredFields, Spec.missing_fields.
  rewrite not_an_object_is_object, Hobj. cbn [negb].
  match goal with
  | |- context [for_each ?step fields ([], [])] =>
      assert (Hloop : forall fs missing nulls,
        for_each step fs (missing, nulls)
        = Ok (missing
                ++ List.filter (fun field => negb (Spec.present realm response field)) fs,
              nulls ++ Terms.null_fields realm response fs))
  end.
  { unfold Terms.null_fields.
    induction fs as [|f fs IH]; intros missing nulls; cbn.
    - rewrite !app_nil_r. reflexivity.
    - rewrite (has_property_object realm _ _ Hobj). cbn.
      destruct (Spec.present realm response f); cbn.
      + destruct (property_is_nullish _); cbn; rewrite IH;
          [rewrite <- app_assoc|]; reflexivity.
      + rewrite IH, <- app_assoc. reflexivity. }
  rewrite Hloop. reflexivity.
Qed.

(** X2. [validateRequiredFields] never throws. On an object or array it
    lists, in the order of the request, the fields that are not keys of it
    and those that are with a [null] or [undefined] value, and is valid iff
    both lists are empty; on anything else it is invalid and echoes the
    requested fields. *)
Theorem validateRequiredFields_spec response fields :
  exists result,
    validateRequiredFields realm response fields = Ok result
    /\ details result
       = Some (if Spec.is_object response
               then FieldDetails
                      (List.filter (fun f => negb (Spec.present realm response f)) fields)
                      (Terms.null_fields realm response fields)
               else ExpectedFields fields)
    /\ (valid result = true
        <-> Spec.is_object response = true
            /\ forall f, In f fields ->
                 Spec.present realm response f = true
                 /\ property_is_nullish (lookup_property realm response f) = false).
Proof.
  destruct (Spec.is_object response) eqn:Hobj.
  - rewrite (validateRequiredFields_object _ _ Hobj).
    eexists. split; [reflexivity|]. unfold Spec.missing_fields. rewrite Hobj.
    split; [reflexivity|]. cbn [valid].
    rewrite andb_true_iff, !length_zero_iff_nil. unfold Terms.null_fields.
    split.
    + intros [Hm Hn]. split; [reflexivity|]. intros f Hf.
      destruct (Spec.present realm response f) eqn:Hp.
      * split; [reflexivity|].
        destruct (property_is_nullish (lookup_property realm response f)) eqn:Hnull;
          [|reflexivity].
        assert (Hin : In f (List.filter
                   (fun field => Spec.present realm response field
                      && property_is_nullish (lookup_property realm response field))
                   fields)).
        { apply filter_In. split; [exact Hf|]. rewrite Hp, Hnull. reflexivity. }
        rewrite Hn in Hin. destruct Hin.
      * assert (Hin : In f (List.filter
                   (fun field => negb (Spec.present realm response field)) fields)).
        { apply filter_In. split; [exact Hf|]. rewrite Hp. reflexivity. }
        rewrite Hm in Hin. destruct Hin.
    + intros [_ Hall]. split.
      * induction fields as [|f fields IH]; [reflexivity|]. simpl.
        destruct (Hall f (or_introl eq_refl)) as [-> _]. simpl.
        apply IH. intros g Hg. apply Hall. right. exact Hg.
      * induction fields as [|f fields IH]; [reflexivity|]. simpl.
        destruct (Hall f (or_introl eq_refl)) as [_ ->]. rewrite andb_false_r.
        apply IH. intros g Hg. apply Hall. right. exact Hg.
  - unfold validateRequiredFields. rewrite not_an_object_is_object, Hobj. simpl.
    eexists. split; [reflexivity|]. split; [reflexivity|]. simpl.
    split; [discriminate|intros [H _]; discriminate H].
Qed.

(** X3. [validateRequiredFields] is stricter than [hasRequiredFields]: a
    body it accepts is accepted by [hasRequiredFields], with nothing
    missing. *)
Theorem validateRequiredFields_stricter response fields result :
  validateRequiredFields realm response fields = Ok result ->
  valid result = true ->
  hasRequiredFields realm response fields
  = Ok {| Fields.valid := true; Fields.missing := [] |}.
Proof.
  intros Hres Hvalid. rewrite hasRequiredFields_returns.
  destruct (Spec.is_object response) eqn:Hobj.
  - rewrite (validateRequiredFields_object _ _ Hobj) in Hres.
    injection Hres as <-. cbn [valid] in Hvalid.
    apply andb_true_iff in Hvalid as [Hm _].
    apply length_zero_iff_nil in Hm. rewrite Hm. reflexivity.
  - unfold validateRequiredFields in Hres.
    rewrite not_an_object_is_object, Hobj in Hres. simpl in Hres.
    injection Hres as <-. discriminate Hvalid.
Qed.



Lemma keys_array_length (elements : list (JSValue number)) :
  length (keys (JArray elements)) = length elements.
Proof. simpl. rewrite length_map, length_seq. reflexivity. Qed.

(** X5. [hasResponseBody] rejects exactly [null], [undefined], blank
    strings, the empty array and the empty object; every number and boolean
    counts as a body. *)
Theorem hasResponseBody_false_iff body :
  hasResponseBody body = false
  <-> body = JNull \/ body = JUndefined
      \/ (exists s, body = JString s /\ trim s = "")
      \/ body = JArray [] \/ body = JObject [].
Proof.
  destruct body as [| |b|n|s|es|ps]; unfold hasResponseBody.
  - split; [auto|reflexivity].
  - split; [auto|reflexivity].
  - split; [discriminate|].
    intros [H|[H|[(s & H & _)|[H|H]]]]; discriminate H.
  - split; [discriminate|].
    intros [H|[H|[(s & H & _)|[H|H]]]]; discriminate H.
  - cbn [is_null is_undefined orb typeof]. simpl.
    destruct (String.eqb_spec (trim s) "") as [Hs|Hs].
    + split; [eauto 6|reflexivity].
    + split; [discriminate|].
      intros [H|[H|[(s' & [= <-] & Ht)|[H|H]]]]; try discriminate H. contradiction.
  - cbn [is_null is_undefined orb typeof]. rewrite keys_array_length.
    destruct es as [|e es]; simpl.
    + split; [auto 6|reflexivity].
    + split; [discriminate|].
      intros [H|[H|[(s & H & _)|[H|H]]]]; discriminate H.
  - cbn [is_null is_undefined orb typeof].
    destruct ps as [|p ps]; simpl.
    + split; [auto 6|reflexivity].
    + split; [discriminate|].
      intros [H|[H|[(s & H & _)|[H|H]]]]; discriminate H.
Qed.

(** X6. [validateResponse] always returns, and its result is valid iff the
    status is from 200 to 299, the body is none of [null], [undefined], a
    blank string, the empty array and the empty object and, when a
    non-empty list of required fields is given, the body is an object or
    an array that has every one of them as a key. *)
Theorem validateResponse_valid_iff (statusCode : Z) body
    (requiredFields : option (list string)) (maxDuration : option float) :
  exists result,
    validateResponse realm statusCode body requiredFields maxDuration = Ok result
    /\ (valid result = true
        <-> (200 <= statusCode <= 299)%Z
            /\ ~ (body = JNull \/ body = JUndefined
                  \/ (exists s, body = JString s /\ trim s = "")
                  \/ body = JArray [] \/ body = JObject [])
            /\ match requiredFields with
               | None | Some [] => True
               | Some fields =>
                   ((exists elements, body = JArray elements)
                    \/ (exists properties, body = JObject properties))
                   /\ forall f, In f fields ->
                        is_Some (lookup_property realm body f)
               end).
Proof.
  assert (Hmissing : forall fields,
    Spec.is_object body = true ->
    Spec.missing_fields realm body fields = []
    <-> forall f, In f fields -> Spec.present realm body f = true).
  { intros fields Hobj. unfold Spec.missing_fields. rewrite Hobj.
    induction fields as [|f fields IH]; simpl.
    - split; [intros _ f []|reflexivity].
    - destruct (Spec.present realm body f) eqn:Hp; simpl.
      + rewrite IH. split.
        * intros H g [<-|Hg]; [exact Hp|apply H, Hg].
        * intros H g Hg. apply H. right. exact Hg.
      + split; [discriminate|]. intros H.
        rewrite (H f (or_introl eq_refl)) in Hp. discriminate Hp. }
  assert (Hstatus : isSuccessful statusCode = true <-> (200 <= statusCode <= 299)%Z).
  { rewrite isSuccessful_2xx. apply bool_decide_eq_true. }
  assert (Hbody : hasResponseBody body = true
                  <-> ~ (body = JNull \/ body = JUndefined
                         \/ (exists s, body = JString s /\ trim s = "")
                         \/ body = JArray [] \/ body = JObject [])).
  { rewrite <- hasResponseBody_false_iff. destruct (hasResponseBody body); split; congruence. }
  assert (Hobject : Spec.is_object body = true
                    <-> (exists elements, body = JArray elements)
                        \/ (exists properties, body = JObject properties)).
  { split.
    - destruct body; try discriminate; intros _; [left|right]; eexists; reflexivity.
    - intros [[x ->]|[y ->]]; reflexivity. }
  assert (Hpresent : forall f, Spec.present realm body f = true
                               <-> is_Some (lookup_property realm body f)).
  { intros f. apply bool_decide_eq_true. }
  assert (Hfields : forall fields,
    Spec.is_object body = true /\ (forall f, In f fields -> Spec.present realm body f = true)
    <-> ((exists elements, body = JArray elements)
         \/ (exists properties, body = JObject properties))
        /\ forall f, In f fields -> is_Some (lookup_property realm body f)).
  { intros fields. rewrite Hobject. split; intros [H1 H2]; (split; [exact H1|]);
      intros f Hf; apply Hpresent, H2, Hf. }
  assert (Hgoal : exists result,
    validateResponse realm statusCode body requiredFields maxDuration = Ok result
    /\ (valid result = true
        <-> isSuccessful statusCode = true
            /\ hasResponseBody body = true
            /\ match requiredFields with
               | None | Some [] => True
               | Some fields =>
                   Spec.is_object body = true
                   /\ forall f, In f fields -> Spec.present realm body f = true
               end)).
  { unfold validateResponse.
    destruct (isSuccessful statusCode), (hasResponseBody body);
      destruct requiredFields as [[|f fields]|]; simpl;
      try (eexists; split; [reflexivity|]; simpl; split;
           [try discriminate; auto|intros (H1 & H2 & H3); (reflexivity || discriminate)]).
    all: rewrite hasRequiredFields_returns; simpl.
    all: destruct (Spec.is_object body) eqn:Hobj; simpl.
    all: try (destruct (Spec.missing_fields realm body (f :: fields)) eqn:Hm; simpl).
    all: eexists; (split; [reflexivity|]); simpl.
    all: split; try discriminate; try (intros _; reflexivity).
    all: try (intros (H1 & H2 & H3 & H4); discriminate).
    all: try (intros (H1 & H2 & H3); discriminate).
    - intros _. repeat split. apply (Hmissing (f :: fields) eq_refl), Hm.
    - intros (_ & _ & _ & H). apply (Hmissing (f :: fields) eq_refl) in H. congruence. }
  destruct Hgoal as (result & Hresult & Hvalid). exists result. split; [exact Hresult|].
  rewrite Hvalid, Hstatus, Hbody. destruct requiredFields as [[|f fields]|]; try reflexivity.
  rewrite (Hfields (f :: fields)). reflexivity.
Qed.
End MoreValidatorFacts.

(** * Further properties of the Request Builder *)

Section ConstructionFacts.
Import JS Constants RequestBuilder.
Variable url_parses : string -> bool.
Implicit Types (this x y : loc) (h : Heap) (b : Builder) (m : gmap string string).

(** X7. The constructor succeeds exactly on a base that parses as a URL.
    It then returns a new builder, whose base is the given one without one
    trailing slash and whose headers are the default ones, and leaves every
    existing builder and header mapping as it was. On any other base it
    throws a [TypeError], the logger being unassigned when [validateUrl]
    reports, and allocates nothing. *)
Theorem constructor_contract (baseUrl : string) h :
  (url_parses baseUrl = false -> new url_parses baseUrl h = (Throw TypeError, h))
  /\ (url_parses baseUrl = true ->
      exists this h',
        new url_parses baseUrl h = (Ok this, h')
        /\ builders h !! this = None
        /\ getHeaders this h' = (Ok default_headers, h')
        /\ (forall stem, baseUrl = stem +:+ "/" -> getBaseUrl this h' = (Ok stem, h'))
        /\ (endsWith baseUrl "/" = false -> getBaseUrl this h' = (Ok baseUrl, h'))
        /\ (forall other b, builders h !! other = Some b -> builders h' !! other = Some b)
        /\ (forall l m, objects h !! l = Some m -> objects h' !! l = Some m)).
Proof.
  split; [apply new_throws|]. intros Hurl.
  exists (Spec.constructed baseUrl h).1, (Spec.constructed baseUrl h).2.
  split; [apply new_returns, Hurl|].
  assert (Hfresh : builders h !! fresh (dom (builders h)) = None).
  { apply not_elem_of_dom, is_fresh. }
  assert (Hbase :
    getBaseUrl (Spec.constructed baseUrl h).1 (Spec.constructed baseUrl h).2
    = (Ok (Spec.chop_slash baseUrl), (Spec.constructed baseUrl h).2)).
  { unfold getBaseUrl, mbind, M_bind.
    rewrite (get_builder_found _ _ _ (constructed_builder baseUrl h)). reflexivity. }
  split; [exact Hfresh|]. split; [|split; [|split; [|split]]].
  - eapply getHeaders_found; [apply constructed_builder|apply constructed_headers].
  - intros stem ->. rewrite Hbase, chop_slash_removes_slash. reflexivity.
  - intros Hend. rewrite Hbase, (chop_slash_keeps _ Hend). reflexivity.
  - intros other b Hother. unfold Spec.constructed. simpl.
    rewrite lookup_insert_ne; [exact Hother|]. intros <-. congruence.
  - intros l m Hl. unfold Spec.constructed. simpl.
    rewrite lookup_insert_ne; [exact Hl|].
    intros <-. apply (allocated_not_fresh (objects h) (fresh (dom (objects h)))); eauto.
Qed.

End ConstructionFacts.

Section HeaderFacts.
Import JS Constants RequestBuilder.
Local Open Scope list_scope.
Implicit Types (this x y : loc) (h : Heap) (b : Builder) (m : gmap string string).

Lemma blank_test (key : string) :
  String.eqb key "" || String.eqb (trim key) "" = false <-> ~ Spec.blank key.
Proof.
  unfold Spec.blank. rewrite orb_false_iff, !String.eqb_neq. tauto.
Qed.

Lemma setHeader_updates this (key value : string) h b m :
  ~ Spec.blank key ->
  builders h !! this = Some b -> objects h !! headers b = Some m ->
  setHeader this key (Val value) h
  = (Ok this,
     {| objects := <[headers b := assign_property m key value]> (objects h);
        builders := builders h |}).
Proof.
  intros Hk Hb Hm. unfold setHeader. rewrite (proj2 (blank_test key) Hk).
  unfold mbind, M_bind.
  rewrite (get_builder_found _ _ _ Hb), (get_object_found _ _ _ Hm). reflexivity.
Qed.

Lemma removeHeader_updates this (key : string) h b m :
  builders h !! this = Some b -> objects h !! headers b = Some m ->
  removeHeader this key h
  = (Ok this,
     {| objects := <[headers b := delete key m]> (objects h);
        builders := builders h |}).
Proof.
  intros Hb Hm. unfold removeHeader, mbind, M_bind.
  rewrite (get_builder_found _ _ _ Hb), (get_object_found _ _ _ Hm). reflexivity.
Qed.

Lemma getHeaders_updated this h b m' :
  builders h !! this = Some b ->
  getHeaders this {| objects := <[headers b := m']> (objects h); builders := builders h |}
  = (Ok m', {| objects := <[headers b := m']> (objects h); builders := builders h |}).
Proof.
  intros Hb. eapply getHeaders_found; simpl; [exact Hb|]. apply lookup_insert_eq.
Qed.

Lemma delete_assign_property m (key value : string) :
  delete key (assign_property m key value) = delete key m.
Proof.
  unfold assign_property. destruct (_ && _); [reflexivity|apply delete_insert_eq].
Qed.



Lemma heap_overwrite h l m m' :
  {| objects :=
       <[l := m']> (objects {| objects := <[l := m]> (objects h); builders := builders h |});
     builders := builders {| objects := <[l := m]> (objects h); builders := builders h |} |}
  = {| objects := <[l := m']> (objects h); builders := builders h |}.
Proof. simpl. rewrite insert_insert_eq. reflexivity. Qed.

(** X8. [removeHeader] never throws on a builder, whatever the key: it
    returns the builder, the key is absent afterwards and every other header
    is as before; removing a key that is absent changes nothing. *)
Theorem removeHeader_contract this (key : string) h b m :
  builders h !! this = Some b -> objects h !! headers b = Some m ->
  exists h' m',
    removeHeader this key h = (Ok this, h')
    /\ getHeaders this h' = (Ok m', h')
    /\ m' !! key = None
    /\ (forall k, k <> key -> m' !! k = m !! k)
    /\ (m !! key = None -> m' = m)
    /\ builders h' = builders h.
Proof.
  intros Hb Hm. eexists _, (delete key m).
  split; [apply (removeHeader_updates _ _ _ _ _ Hb Hm)|].
  split; [apply getHeaders_updated, Hb|].
  split; [apply lookup_delete_eq|].
  split; [intros k Hk; apply lookup_delete_ne; congruence|].
  split; [apply delete_id|reflexivity].
Qed.

(** X9. Setting a header and then removing it leaves the headers without
    that key: the mapping is the original one when the key was absent, and
    an earlier value of the key is not restored. *)
Theorem setHeader_removeHeader this (key value : string) h b m :
  ~ Spec.blank key ->
  builders h !! this = Some b -> objects h !! headers b = Some m ->
  exists h',
    (_ ← setHeader this key (Val value); _ ← removeHeader this key; getHeaders this) h
    = (Ok (delete key m), h')
    /\ (m !! key = None -> (getHeaders this h').1 = (getHeaders this h).1).
Proof.
  intros Hk Hb Hm. unfold mbind at 1 2. unfold M_bind at 1 2.
  rewrite (setHeader_updates _ _ _ _ _ _ Hk Hb Hm).
  rewrite (removeHeader_updates this key
             {| objects := <[headers b := assign_property m key value]> (objects h);
                builders := builders h |} b (assign_property m key value) Hb
             (lookup_insert_eq _ _ _)).
  rewrite heap_overwrite, delete_assign_property.
  rewrite (getHeaders_updated _ _ _ _ Hb).
  eexists. split; [reflexivity|]. intros Hnone.
  rewrite (getHeaders_updated _ _ _ _ Hb), (getHeaders_found _ _ _ _ Hb Hm). simpl.
  rewrite delete_id by exact Hnone. reflexivity.
Qed.

Lemma setHeader_rejects this (key : string) (value : nullable string) h :
  Calls.accepts (key, value) = false ->
  setHeader this key value h = (Throw (Calls.rejection (key, value)), h).
Proof.
  unfold Calls.accepts, Calls.rejection, setHeader. simpl.
  destruct (String.eqb key "" || String.eqb (trim key) ""); [reflexivity|].
  destruct value; simpl; intros H; try discriminate H; reflexivity.
Qed.



Lemma forEach_setHeader this (calls : list (string * nullable string)) h b m :
  builders h !! this = Some b -> objects h !! headers b = Some m ->
  exists h',
    forEach (fun '(key, value) => _ ← setHeader this key value; mret ()) calls h
    = (match Calls.rejected calls with
       | None => Ok ()
       | Some entry => Throw (Calls.rejection entry)
       end, h')
    /\ builders h' = builders h
    /\ objects h' !! headers b = Some (Calls.inserted (Calls.accepted calls) m)
    /\ (forall l, l <> headers b -> objects h' !! l = objects h !! l).
Proof.
  revert h m. induction calls as [|[key value] calls IH]; intros h m Hb Hm.
  - exists h. repeat split; assumption.
  - cbn [forEach Calls.rejected]. unfold mbind, M_bind.
    destruct (Calls.accepts (key, value)) eqn:Hacc.
    + assert (Hk : ~ Spec.blank key).
      { apply blank_test. unfold Calls.accepts in Hacc. simpl in Hacc.
        apply andb_true_iff in Hacc as [Hacc _]. apply negb_true_iff in Hacc. exact Hacc. }
      destruct value as [| |value];
        try (unfold Calls.accepts in Hacc; simpl in Hacc;
             rewrite andb_false_r in Hacc; discriminate Hacc).
      rewrite (setHeader_updates _ _ _ _ _ _ Hk Hb Hm). cbn [mret M_ret].
      destruct (IH {| objects := <[headers b := assign_property m key value]> (objects h);
                      builders := builders h |} (assign_property m key value) Hb
                  (lookup_insert_eq _ _ _)) as (h' & Hrun & Hbs & Hobj & Hframe).
      exists h'. split; [exact Hrun|]. split; [exact Hbs|].
      split.
      * cbn [Calls.accepted]. rewrite Hacc. exact Hobj.
      * intros l Hl. rewrite (Hframe l Hl). simpl. apply lookup_insert_ne. congruence.
    + rewrite (setHeader_rejects _ _ _ _ Hacc).
      exists h. split; [reflexivity|]. split; [reflexivity|].
      split; [|reflexivity].
      destruct value; cbn [Calls.accepted]; try rewrite Hacc; exact Hm.
Qed.

Lemma setHeaders_loop this (headers' : list (string * nullable string)) h b m :
  builders h !! this = Some b -> objects h !! headers b = Some m ->
  exists h',
    setHeaders this headers' h
    = (match Calls.rejected (entries headers') with
       | None => Ok this
       | Some entry => Throw (Calls.rejection entry)
       end, h')
    /\ builders h' = builders h
    /\ objects h' !! headers b
       = Some (Calls.inserted (Calls.accepted (entries headers')) m)
    /\ (forall l, l <> headers b -> objects h' !! l = objects h !! l).
Proof.
  intros Hb Hm.
  destruct (forEach_setHeader this (entries headers') h b m Hb Hm)
    as (h' & Hrun & Hrest).
  exists h'. split; [|exact Hrest].
  unfold setHeaders. rewrite bind_unfold, Hrun.
  destruct (Calls.rejected (entries headers')); reflexivity.
Qed.

(** What a sequence of writes leaves under a key. *)
Lemma inserted_lookup (pairs : list (string * string)) m (key : string) :
  Calls.inserted pairs m !! key
  = if String.eqb key "__proto__" && bool_decide (m !! key = None) then None
    else match Calls.written key pairs with
         | Some v => Some v
         | None => m !! key
         end.
Proof.
  revert m. induction pairs as [|[k v] pairs IH]; intros m.
  - cbn [Calls.inserted fold_left Calls.written].
    destruct (String.eqb key "__proto__"); cbn [andb]; [|reflexivity].
    destruct (decide (m !! key = None)) as [Hm|Hm].
    + rewrite (bool_decide_eq_true_2 _ Hm). exact Hm.
    + rewrite (bool_decide_eq_false_2 _ Hm). reflexivity.
  - change (Calls.inserted ((k, v) :: pairs) m)
      with (Calls.inserted pairs (assign_property m k v)).
    rewrite IH. cbn [Calls.written].
    destruct (String.eqb_spec k key) as [->|Hk].
    + unfold assign_property.
      destruct (String.eqb key "__proto__"); cbn [andb].
      * destruct (decide (m !! key = None)) as [Hm|Hm].
        -- rewrite !(bool_decide_eq_true_2 _ Hm). reflexivity.
        -- rewrite (bool_decide_eq_false_2 _ Hm).
           rewrite bool_decide_eq_false_2 by (rewrite lookup_insert_eq; discriminate).
           rewrite lookup_insert_eq. destruct (Calls.written key pairs); reflexivity.
      * rewrite lookup_insert_eq. destruct (Calls.written key pairs); reflexivity.
    + assert (Hlookup : assign_property m k v !! key = m !! key).
      { unfold assign_property. destruct (_ && _); [reflexivity|].
        apply lookup_insert_ne. exact Hk. }
      rewrite Hlookup.
      replace (bool_decide (assign_property m k v !! key = None))
        with (bool_decide (m !! key = None))
        by (apply bool_decide_ext; rewrite Hlookup; reflexivity).
      destruct (Calls.written key pairs); reflexivity.
Qed.

(** X11. [setHeaders] goes through the entries of its argument in the
    order of enumeration and stops at the first one [setHeader] rejects: it
    then throws that entry's error with the entries before it already
    written, and the ones after it ignored. With no rejected entry it
    returns the builder with every entry written. Afterwards a key holds
    the value of the last entry written for it, or what it held before;
    but an entry for [__proto__] is accepted and writes nothing, unless
    the mapping has that key as an entry of its own. *)
Theorem setHeaders_stops_at_first_rejected this
    (headers' : list (string * nullable string)) h b m :
  builders h !! this = Some b -> objects h !! headers b = Some m ->
  let calls := entries headers' in
  exists h' m',
    setHeaders this headers' h
    = (match Calls.rejected calls with
       | None => Ok this
       | Some entry => Throw (Calls.rejection entry)
       end, h')
    /\ getHeaders this h' = (Ok m', h')
    /\ (forall key,
          m' !! key
          = if String.eqb key "__proto__" && bool_decide (m !! key = None) then None
            else match Calls.written key (Calls.accepted calls) with
                 | Some v => Some v
                 | None => m !! key
                 end)
    /\ (Calls.rejected calls = None <-> forallb Calls.accepts headers' = true)
    /\ (Forall (fun p => integer_key p.1 = None) headers' -> calls = headers').
Proof.
  intros Hb Hm calls.
  destruct (setHeaders_loop this headers' h b m Hb Hm) as (h' & Hrun & Hbs & Hobj & _).
  exists h', (Calls.inserted (Calls.accepted calls) m). split; [exact Hrun|]. split.
  { eapply getHeaders_found; [rewrite Hbs; exact Hb|exact Hobj]. }
  split.
  { intros key. apply inserted_lookup. }
  split; [|apply entries_plain].
  assert (Hall : forallb Calls.accepts headers' = forallb Calls.accepts calls).
  { unfold calls. apply eq_true_iff_eq. rewrite !forallb_forall.
    split; intros H x Hx; apply H; apply list_elem_of_In;
      apply list_elem_of_In in Hx;
      [rewrite <- (entries_permutation headers')|rewrite (entries_permutation headers')];
      exact Hx. }
  rewrite Hall. clear. induction calls as [|entry calls IH]; simpl; [tauto|].
  destruct (Calls.accepts entry); simpl; [exact IH|].
  split; discriminate.
Qed.

(** X12. [setBearerToken] does not check its token: on a builder it always
    succeeds and sets [Authorization] to ["Bearer "] followed by the token
    as a string, so a [null] token gives ["Bearer null"]. [setBasicAuth]
    sets [Authorization] to ["Basic "] and the base64 of [user:password],
    and when [btoa] throws it throws the same error and leaves the headers
    alone. *)
Theorem authorization_headers this h b m :
  builders h !! this = Some b -> objects h !! headers b = Some m ->
  (forall token, exists h',
      setBearerToken this token h = (Ok this, h')
      /\ getHeaders this h'
         = (Ok (<["Authorization" := "Bearer " +:+ ToString token]> m), h'))
  /\ (exists h',
        setBearerToken this Null h = (Ok this, h')
        /\ getHeaders this h' = (Ok (<["Authorization" := "Bearer null"]> m), h'))
  /\ (forall username password,
        match btoa (ToString username +:+ ":" +:+ ToString password) with
        | Ok encoded =>
            exists h',
              setBasicAuth this username password h = (Ok this, h')
              /\ getHeaders this h'
                 = (Ok (<["Authorization" := "Basic " +:+ encoded]> m), h')
        | Throw error => setBasicAuth this username password h = (Throw error, h)
        end).
Proof.
  intros Hb Hm.
  assert (Hauth : ~ Spec.blank "Authorization") by (apply not_blank; reflexivity).
  assert (Hset : forall value, exists h',
            setHeader this "Authorization" (Val value) h = (Ok this, h')
            /\ getHeaders this h' = (Ok (<["Authorization" := value]> m), h')).
  { intros value. eexists. split; [apply (setHeader_updates _ _ _ _ _ _ Hauth Hb Hm)|].
    rewrite assign_property_other by discriminate.
    apply getHeaders_updated, Hb. }
  split; [|split].
  - intros token. apply Hset.
  - apply (Hset "Bearer null").
  - intros username password. unfold setBasicAuth, mbind, M_bind, lift.
    destruct (btoa _) as [encoded|error]; [apply Hset|reflexivity].
Qed.

End HeaderFacts.

Section CloneContract.
Import JS Constants RequestBuilder.
Variable url_parses : string -> bool.
Implicit Types (this x y : loc) (h : Heap) (b : Builder) (m : gmap string string).

Lemma clone_succeeds this h b m :
  builders h !! this = Some b -> objects h !! headers b = Some m ->
  url_parses (baseUrl b) = true ->
  exists copy h1,
    clone url_parses this h = (Ok copy, h1)
    /\ copy = fresh (dom (builders h))
    /\ builders h1 !! this = Some b.
Proof.
  intros Hb Hm Hurl. unfold clone.
  unfold mbind at 1. unfold M_bind at 1.
  rewrite (get_builder_found _ _ _ Hb).
  unfold mbind at 1. unfold M_bind at 1.
  rewrite (new_returns _ _ _ Hurl). unfold Spec.constructed. simpl.
  set (l1 := fresh (dom (objects h))).
  set (c := fresh (dom (builders h))).
  assert (Hl1 : headers b <> l1) by (apply allocated_not_fresh; eauto).
  assert (Hc : this <> c) by (apply allocated_not_fresh; eauto).
  unfold mbind, M_bind, get_object. simpl.
  rewrite lookup_insert_ne by congruence. rewrite Hm.
  unfold alloc_object, get_builder. simpl.
  rewrite lookup_insert_eq. simpl.
  eexists _, _. split; [reflexivity|]. split; [reflexivity|]. simpl.
  rewrite !lookup_insert_ne by congruence. exact Hb.
Qed.

(** X13. [clone] goes through the constructor with the stored base. When
    that base parses as a URL it returns a new builder whose headers equal
    the original's at that moment and whose base is the stored base without
    one trailing slash (the stored base itself when it ends in no slash);
    the original keeps its base and headers, and afterwards no sequence of
    header operations on one of the two changes the headers of the other.
    When the stored base does not parse, [clone] throws a [TypeError] and
    changes nothing. *)
Theorem clone_contract this h b m :
  builders h !! this = Some b -> objects h !! headers b = Some m ->
  (url_parses (baseUrl b) = false -> clone url_parses this h = (Throw TypeError, h))
  /\ (url_parses (baseUrl b) = true ->
      exists copy h1,
        clone url_parses this h = (Ok copy, h1)
        /\ copy <> this /\ builders h !! copy = None
        /\ getHeaders copy h1 = (Ok m, h1)
        /\ getHeaders this h1 = (Ok m, h1)
        /\ getBaseUrl this h1 = (Ok (baseUrl b), h1)
        /\ getBaseUrl copy h1 = (Ok (Spec.chop_slash (baseUrl b)), h1)
        /\ (endsWith (baseUrl b) "/" = false ->
            getBaseUrl copy h1 = (Ok (baseUrl b), h1))
        /\ (forall ops,
              Spec.headers_of this (Spec.run_ops copy ops h1) = Ok m
              /\ Spec.headers_of copy (Spec.run_ops this ops h1) = Ok m)).
Proof.
  intros Hb Hm. split.
  - intros Hurl. unfold clone.
    unfold mbind at 1. unfold M_bind at 1.
    rewrite (get_builder_found _ _ _ Hb).
    unfold mbind at 1. unfold M_bind at 1.
    rewrite (new_throws _ _ _ Hurl). reflexivity.
  - intros Hurl.
    destruct (clone_succeeds this h b m Hb Hm Hurl) as (copy & h1 & Hclone & Hcopy & Hthis).
    destruct (clone_returns url_parses _ _ _ _ _ _ Hb Hm Hclone)
      as (Hsep & Hh & Hhc & Hbase).
    exists copy, h1. split; [exact Hclone|].
    assert (Hnew : builders h !! copy = None).
    { rewrite Hcopy. apply not_elem_of_dom, is_fresh. }
    split; [intros ->; congruence|]. split; [exact Hnew|].
    destruct Hsep as (bx & by_ & Hx & Hy & Hxy & Hne & [mx Hmx] & [my Hmy]).
    assert (Hsep : Spec.separate h1 this copy).
    { exists bx, by_. repeat split; eauto. }
    rewrite (headers_of_found _ _ _ _ Hx Hmx) in Hh.
    rewrite (headers_of_found _ _ _ _ Hy Hmy) in Hhc.
    injection Hh as ->. injection Hhc as ->.
    split; [apply (getHeaders_found _ _ _ _ Hy Hmy)|].
    split; [apply (getHeaders_found _ _ _ _ Hx Hmx)|].
    split.
    { unfold getBaseUrl, mbind, M_bind. rewrite (get_builder_found _ _ _ Hthis).
      reflexivity. }
    split; [exact Hbase|].
    split; [intros Hend; rewrite Hbase, (chop_slash_keeps _ Hend); reflexivity|].
    intros ops. split.
    + destruct (steps_frame copy this h1 _ (separate_sym _ _ _ Hsep)
                  (run_ops_steps copy ops h1)) as [_ ->].
      apply (headers_of_found _ _ _ _ Hx Hmx).
    + destruct (steps_frame this copy h1 _ Hsep (run_ops_steps this ops h1)) as [_ ->].
      apply (headers_of_found _ _ _ _ Hy Hmy).
Qed.
End CloneContract.

Section BuildUrlFacts.
Import JS Constants RequestBuilder.
Local Open Scope list_scope.
Implicit Types (this x y : loc) (h : Heap) (b : Builder).

Lemma step_keeps_base x y h h' :
  Spec.step x h h' ->
  baseUrl <$> builders h' !! y = baseUrl <$> builders h !! y.
Proof.
  intros [bx m Hx Hm | bx Hx]; simpl; [reflexivity|].
  destruct (decide (x = y)) as [<-|Hne].
  - rewrite lookup_insert_eq, Hx. reflexivity.
  - rewrite lookup_insert_ne by exact Hne. reflexivity.
Qed.

Lemma steps_keep_base x y h h' :
  rtc (Spec.step x) h h' ->
  baseUrl <$> builders h' !! y = baseUrl <$> builders h !! y.
Proof.
  intros Hsteps. induction Hsteps as [h|h h1 h2 Hstep _ IH]; [reflexivity|].
  rewrite IH. apply (step_keeps_base x y h h1 Hstep).
Qed.

(** X14. No sequence of header operations, on any builder, changes the
    base URL of a builder or what [buildUrl] returns on it. *)
Theorem header_operations_keep_base x y (ops : list Spec.HeaderOp) h
    (endpoint : string) (queryParams : option (list (string * nullable string))) :
  (getBaseUrl y (Spec.run_ops x ops h)).1 = (getBaseUrl y h).1
  /\ (buildUrl y endpoint queryParams (Spec.run_ops x ops h)).1
     = (buildUrl y endpoint queryParams h).1.
Proof.
  pose proof (steps_keep_base x y h _ (run_ops_steps x ops h)) as Hbase.
  rewrite !buildUrl_returns. unfold getBaseUrl, mbind, M_bind, get_builder.
  destruct (builders (Spec.run_ops x ops h) !! y) as [b'|],
    (builders h !! y) as [b|]; simpl in Hbase; try discriminate Hbase.
  - injection Hbase as Hbase. simpl. rewrite Hbase. split; reflexivity.
  - split; reflexivity.
Qed.

Lemma with_leading_slash_idempotent (endpoint : string) :
  Spec.with_leading_slash (Spec.with_leading_slash endpoint)
  = Spec.with_leading_slash endpoint.
Proof.
  destruct endpoint as [|c s]; [reflexivity|]. simpl.
  destruct (Ascii.eqb c "/") eqn:E; simpl; [rewrite E|]; reflexivity.
Qed.

Lemma kept_as_params (params : list (string * nullable string)) :
  Spec.kept (Calls.as_params (Spec.kept params)) = Spec.kept params.
Proof.
  induction params as [|[k [| |v]] params IH]; simpl; try assumption; [reflexivity|].
  destruct (String.eqb v "") eqn:E; simpl; [assumption|].
  rewrite E. f_equal. assumption.
Qed.

(** X15. [buildUrl] reads the builder and changes nothing. Its result
    is the same with or without the leading slash of the endpoint, the same
    for an empty mapping of parameters as for none, and the same when the
    parameters with a [null], [undefined] or empty value are left out by the
    caller. *)
Theorem buildUrl_normalises this h (endpoint : string)
    (queryParams : option (list (string * nullable string))) :
  (buildUrl this endpoint queryParams h).2 = h
  /\ (startsWith endpoint "/" = false ->
      buildUrl this ("/" +:+ endpoint) queryParams h
      = buildUrl this endpoint queryParams h)
  /\ buildUrl this (Spec.with_leading_slash endpoint) queryParams h
     = buildUrl this endpoint queryParams h
  /\ buildUrl this endpoint (Some []) h = buildUrl this endpoint None h
  /\ (forall params,
        buildUrl this endpoint (Some (Calls.as_params (Spec.kept params))) h
        = buildUrl this endpoint (Some params) h).
Proof.
  rewrite !buildUrl_returns.
  split; [destruct (builders h !! this); reflexivity|].
  split.
  { intros Hstart. rewrite <- (startsWith_slash endpoint), Hstart.
    rewrite <- (startsWith_slash ("/" +:+ endpoint)).
    change (startsWith ("/" +:+ endpoint) "/") with (startsWith (String "/" endpoint) "/").
    replace (startsWith (String "/" endpoint) "/") with true; [reflexivity|].
    unfold startsWith. destruct endpoint; reflexivity. }
  split; [rewrite with_leading_slash_idempotent; reflexivity|].
  split; [reflexivity|].
  intros params. rewrite !buildUrl_returns.
  rewrite !kept_entries, kept_as_params. reflexivity.
Qed.

Lemma count_append (c : ascii) (s t : string) :
  Calls.count c (s +:+ t) = Calls.count c s + Calls.count c t.
Proof.
  induction s as [|d s IH]; [reflexivity|].
  change (String d s +:+ t) with (String d (s +:+ t)). cbn [Calls.count].
  rewrite IH. lia.
Qed.

Lemma count_absent (c : ascii) (s : string) :
  Spec.occurs c s = false -> Calls.count c s = 0.
Proof.
  induction s as [|d s IH]; [reflexivity|]. cbn [Spec.occurs Calls.count].
  intros H. apply orb_false_iff in H as [-> H]. rewrite (IH H). reflexivity.
Qed.

Lemma count_pair_text (c : ascii) (p : string * string) :
  uri_unreserved c = false -> c <> "%"%char ->
  existsb (fun n => Ascii.eqb (hex_upper n) c) (seq 0 16) = false ->
  Calls.count c (Spec.pair_text p) = Calls.count c "=".
Proof.
  intros Hc Hpct Hhex. pose proof (hex_upper_not c Hhex) as Hh.
  unfold Spec.pair_text.
  rewrite !count_append, !(count_absent c (percent_encoded _))
    by (apply percent_encoded_escapes; assumption).
  lia.
Qed.

Lemma count_query_string (c : ascii) (pairs : list (string * string)) :
  uri_unreserved c = false -> c <> "%"%char ->
  existsb (fun n => Ascii.eqb (hex_upper n) c) (seq 0 16) = false ->
  Calls.count c (Spec.query_string pairs)
  = length pairs * Calls.count c "=" + (length pairs - 1) * Calls.count c "&".
Proof.
  intros Hc Hpct Hhex. unfold Spec.query_string, join.
  induction pairs as [|p [|q pairs] IH].
  - reflexivity.
  - cbn [map String.concat length]. rewrite (count_pair_text c p Hc Hpct Hhex). lia.
  - change (Calls.count c
              (Spec.pair_text p +:+ "&"
               +:+ String.concat "&" (map Spec.pair_text (q :: pairs)))
            = length (p :: q :: pairs) * Calls.count c "="
              + (length (p :: q :: pairs) - 1) * Calls.count c "&").
    rewrite !count_append, IH, (count_pair_text c p Hc Hpct Hhex).
    cbn [length].
    replace (S (length pairs) - 1) with (length pairs) by lia.
    replace (S (S (length pairs)) - 1) with (S (length pairs)) by lia.
    lia.
Qed.

Lemma encodable_permutation (pairs pairs' : list (string * string)) :
  pairs ≡ₚ pairs' -> Spec.encodable pairs = Spec.encodable pairs'.
Proof.
  intros Hperm. unfold Spec.encodable. apply eq_true_iff_eq. rewrite !forallb_forall.
  split; intros H x Hx; apply H; apply list_elem_of_In; apply list_elem_of_In in Hx;
    [rewrite Hperm|rewrite <- Hperm]; exact Hx.
Qed.

(** X16. When a parameter is kept and no kept key or value holds a
    surrogate outside a pair, the query string [buildUrl] appends has one
    ["="] per kept parameter and one ["&"] between two of them, whatever
    else the keys and values hold, and no space, ["#"] or ["/"]: it splits
    back into as many pairs as were kept. With such a surrogate in a kept
    key or value, [buildUrl] throws a [URIError]. *)
Theorem query_string_separators this h b (endpoint : string)
    (params : list (string * nullable string)) :
  builders h !! this = Some b ->
  Spec.kept params <> [] ->
  (Spec.encodable (Spec.kept params) = true ->
   exists query,
     buildUrl this endpoint (Some params) h
     = (Ok (baseUrl b +:+ Spec.with_leading_slash endpoint +:+ "?" +:+ query), h)
     /\ query = Spec.query_string (entries (Spec.kept params))
     /\ Calls.count "=" query = length (Spec.kept params)
     /\ S (Calls.count "&" query) = length (Spec.kept params)
     /\ Calls.count " " query = 0
     /\ Calls.count "#" query = 0
     /\ Calls.count "/" query = 0)
  /\ (Spec.encodable (Spec.kept params) = false ->
      buildUrl this endpoint (Some params) h = (Throw URIError, h)).
Proof.
  intros Hb Hkept.
  pose proof (entries_permutation (Spec.kept params)) as Hperm.
  rewrite <- kept_entries in Hperm.
  rewrite <- (encodable_permutation _ _ Hperm).
  rewrite <- (Permutation_length Hperm).
  assert (Hkept' : Spec.kept (entries params) <> []).
  { intros E. rewrite E in Hperm. apply Permutation_nil in Hperm. contradiction. }
  rewrite buildUrl_returns, Hb. cbv zeta.
  destruct (Spec.kept (entries params)) as [|p pairs] eqn:E; [contradiction|].
  split; [|intros ->; reflexivity].
  intros ->. exists (Spec.query_string (p :: pairs)).
  split; [rewrite append_assoc; reflexivity|].
  split; [rewrite <- kept_entries, E; reflexivity|].
  rewrite !count_query_string by (reflexivity || discriminate).
  cbn [length]. change (Calls.count "=" "=") with 1. change (Calls.count "=" "&") with 0.
  change (Calls.count "&" "=") with 0. change (Calls.count "&" "&") with 1.
  change (Calls.count " " "=") with 0. change (Calls.count " " "&") with 0.
  change (Calls.count "#" "=") with 0. change (Calls.count "#" "&") with 0.
  change (Calls.count "/" "=") with 0. change (Calls.count "/" "&") with 0.
  repeat split; lia.
Qed.
End BuildUrlFacts.

(** * Properties of the threshold validator *)

Section RegExpFacts.
Import JS RegExp Shapes.
Local Open Scope list_scope.

Lemma append_eq_nil (s1 s2 : string) : s1 +:+ s2 = "" -> s1 = "" /\ s2 = "".
Proof.
  destruct s1 as [|c s1]; [intros H; split; [reflexivity|exact H]|].
  rewrite append_cons. discriminate.
Qed.

Lemma append_eq_cons (c : ascii) (s s1 s2 : string) :
  s1 +:+ s2 = String c s ->
  (s1 = "" /\ s2 = String c s) \/ (exists s1', s1 = String c s1' /\ s = s1' +:+ s2).
Proof.
  destruct s1 as [|d s1].
  - intros H. left. split; [reflexivity|exact H].
  - rewrite append_cons. intros [= -> <-]. right. exists s1. split; reflexivity.
Qed.

Lemma nullable_matches (r : regex) : nullable r = true <-> matches r "".
Proof.
  induction r as [| |f|r1 IH1 r2 IH2|r1 IH1 r2 IH2|r IH]; simpl.
  - split; [discriminate|]. intros H. inversion H.
  - split; [constructor|reflexivity].
  - split; [discriminate|]. intros H. inversion H.
  - rewrite andb_true_iff, IH1, IH2. split.
    + intros [H1 H2]. apply (matches_seq r1 r2 "" "" H1 H2).
    + intros H. inversion H as [| |? ? s1 s2 H1 H2 E1 E2| | | |]; subst.
      apply append_eq_nil in E2 as [-> ->]. split; assumption.
  - rewrite orb_true_iff, IH1, IH2. split.
    + intros [H|H]; [apply matches_alt_l|apply matches_alt_r]; assumption.
    + intros H. inversion H; subst; [left|right]; assumption.
  - split; [constructor|reflexivity].
Qed.

Lemma matches_star_head (r : regex) (text : string) :
  matches (Star r) text ->
  forall c s, text = String c s ->
  exists s1 s2, s = s1 +:+ s2 /\ matches r (String c s1) /\ matches (Star r) s2.
Proof.
  intros H. remember (Star r) as r' eqn:Er.
  induction H as [| | | | | |r0 s1 s2 H1 _ H2 IH2]; try discriminate.
  injection Er as ->. intros c s E.
  apply append_eq_cons in E as [[-> E]|(s1' & -> & ->)].
  - apply (IH2 eq_refl c s E).
  - exists s1', s2. repeat split; assumption.
Qed.

Lemma derivative_matches (c : ascii) (r : regex) (s : string) :
  matches (derivative c r) s <-> matches r (String c s).
Proof.
  revert s. induction r as [| |f|r1 IH1 r2 IH2|r1 IH1 r2 IH2|r IH]; intros s; simpl.
  - split; intros H; inversion H.
  - split; intros H; inversion H.
  - destruct (f c) eqn:Hf; split; intros H.
    + inversion H; subst. constructor. exact Hf.
    + inversion H; subst. constructor.
    + inversion H.
    + inversion H; subst. congruence.
  - assert (Hhead : matches (Seq (derivative c r1) r2) s
                    <-> exists s1 s2, s = s1 +:+ s2 /\ matches r1 (String c s1)
                                      /\ matches r2 s2).
    { split.
      - intros H. inversion H as [| |? ? s1 s2 H1 H2| | | |]; subst.
        exists s1, s2. split; [reflexivity|]. split; [apply IH1|]; assumption.
      - intros (s1 & s2 & -> & H1 & H2). constructor; [apply IH1|]; assumption. }
    assert (Hseq : matches (Seq r1 r2) (String c s)
                   <-> (exists s1 s2, s = s1 +:+ s2 /\ matches r1 (String c s1)
                                      /\ matches r2 s2)
                       \/ (matches r1 "" /\ matches r2 (String c s))).
    { split.
      - intros H. inversion H as [| |? ? s1 s2 H1 H2 E1 E2| | | |]; subst.
        apply append_eq_cons in E2 as [[-> ->]|(s1' & -> & ->)].
        + right. split; assumption.
        + left. exists s1', s2. repeat split; assumption.
      - intros [(s1 & s2 & -> & H1 & H2)|[H1 H2]].
        + apply (matches_seq r1 r2 (String c s1) s2 H1 H2).
        + apply (matches_seq r1 r2 "" (String c s) H1 H2). }
    rewrite Hseq. destruct (nullable r1) eqn:Hn.
    + split.
      * intros H. inversion H; subst.
        -- left. apply Hhead. assumption.
        -- right. split; [apply nullable_matches, Hn|apply IH2; assumption].
      * intros [H|[_ H]].
        -- apply matches_alt_l, Hhead, H.
        -- apply matches_alt_r, IH2, H.
    + rewrite Hhead. split; [auto|].
      intros [H|[H _]]; [exact H|].
      apply nullable_matches in H. congruence.
  - split; intros H; inversion H; subst.
    + apply matches_alt_l, IH1. assumption.
    + apply matches_alt_r, IH2. assumption.
    + apply matches_alt_l, IH1. assumption.
    + apply matches_alt_r, IH2. assumption.
  - split.
    + intros H. inversion H as [| |? ? s1 s2 H1 H2| | | |]; subst.
      apply (matches_star_cons r (String c s1) s2); [apply IH|]; assumption.
    + intros H.
      destruct (matches_star_head r _ H c s eq_refl) as (s1 & s2 & -> & H1 & H2).
      constructor; [apply IH|]; assumption.
Qed.

(** The matcher decides the language of the pattern. *)
Lemma test_matches (r : regex) (s : string) : test r s = true <-> matches r s.
Proof.
  revert r. induction s as [|c s IH]; intros r; simpl.
  - apply nullable_matches.
  - rewrite IH. apply derivative_matches.
Qed.

Lemma matches_seq_iff (r1 r2 : regex) (s : string) :
  matches (Seq r1 r2) s
  <-> exists s1 s2, s = s1 +:+ s2 /\ matches r1 s1 /\ matches r2 s2.
Proof.
  split.
  - intros H. inversion H; subst. eauto.
  - intros (s1 & s2 & -> & H1 & H2). constructor; assumption.
Qed.

Lemma matches_literal (text s : string) : matches (Literal text) s <-> s = text.
Proof.
  revert s. induction text as [|c text IH]; intros s; simpl.
  - split; [intros H; inversion H; reflexivity|intros ->; constructor].
  - rewrite matches_seq_iff. split.
    + intros (s1 & s2 & -> & H1 & H2). apply IH in H2 as ->.
      inversion H1 as [|f d Hd| | | | |]; subst.
      apply Ascii.eqb_eq in Hd as ->. reflexivity.
    + intros ->. exists (String c ""), text. split; [reflexivity|].
      split; [|apply IH; reflexivity].
      constructor. apply Ascii.eqb_refl.
Qed.

Lemma matches_star_class (accepts : ascii -> bool) (s : string) :
  matches (Star (Class accepts)) s <-> all accepts s = true.
Proof.
  split.
  - intros H. remember (Star (Class accepts)) as r eqn:Er.
    induction H as [| | | | | |r0 s1 s2 H1 _ H2 IH2]; try discriminate; [reflexivity|].
    injection Er as ->. inversion H1 as [|f c Hc| | | | |]; subst.
    change (String c "" +:+ s2) with (String c s2). cbn [all].
    rewrite (IH2 eq_refl), andb_true_r. assumption.
  - induction s as [|c s IH]; simpl; [constructor|].
    intros H. apply andb_true_iff in H as [Hc Hs].
    apply (matches_star_cons (Class accepts) (String c "") s);
      [constructor; exact Hc|apply IH, Hs].
Qed.

Lemma matches_plus_class (accepts : ascii -> bool) (s : string) :
  matches (Plus (Class accepts)) s <-> some_of accepts s.
Proof.
  unfold Plus, some_of. rewrite matches_seq_iff. split.
  - intros (s1 & s2 & -> & H1 & H2). inversion H1 as [|f c Hc| | | | |]; subst.
    apply matches_star_class in H2. change (String c "" +:+ s2) with (String c s2).
    split; [discriminate|]. cbn [all]. rewrite H2, andb_true_r. assumption.
  - intros [Hne H]. destruct s as [|c s]; [contradiction|]. simpl in H.
    apply andb_true_iff in H as [Hc Hs].
    exists (String c ""), s. split; [reflexivity|].
    split; [constructor; exact Hc|apply matches_star_class, Hs].
Qed.

Lemma matches_class_iff (accepts : ascii -> bool) (s : string) :
  matches (Class accepts) s <-> exists c, accepts c = true /\ s = String c "".
Proof.
  split.
  - intros H. inversion H; subst. eauto.
  - intros (c & Hc & ->). constructor. exact Hc.
Qed.

(** What each of the three patterns accepts. *)
Lemma threshold_shapes (t : string) :
  existsb (fun pattern => test pattern t) Validator.validPattern = true
  <-> threshold t.
Proof.
  unfold Validator.validPattern, threshold.
  cbn [existsb]. rewrite orb_false_r, !orb_true_iff, !test_matches.
  assert (H1 : matches
                 (Seq (Literal "p(") (Seq (Plus Digit) (Seq (Literal ")<") (Plus Digit)))) t
               <-> exists n m, some_of is_digit n /\ some_of is_digit m
                               /\ t = "p(" +:+ n +:+ ")<" +:+ m).
  { rewrite matches_seq_iff. split.
    - intros (s1 & s2 & -> & Hs1 & Hs2). apply matches_literal in Hs1 as ->.
      apply matches_seq_iff in Hs2 as (n & s3 & -> & Hn & Hs3).
      apply matches_seq_iff in Hs3 as (s4 & m & -> & Hs4 & Hm).
      apply matches_literal in Hs4 as ->.
      apply matches_plus_class in Hn, Hm. exists n, m.
      split; [exact Hn|split; [exact Hm|reflexivity]].
    - intros (n & m & Hn & Hm & ->). exists "p(", (n +:+ ")<" +:+ m).
      split; [reflexivity|]. split; [apply matches_literal; reflexivity|].
      apply matches_seq_iff. exists n, (")<" +:+ m). split; [reflexivity|].
      split; [apply matches_plus_class, Hn|].
      apply matches_seq_iff. exists ")<", m. split; [reflexivity|].
      split; [apply matches_literal; reflexivity|apply matches_plus_class, Hm]. }
  assert (H2 : matches
                 (Seq (Literal "rate<")
                    (Plus (Class (fun c => is_digit c || Ascii.eqb c ".")))) t
               <-> exists x, some_of digit_or_dot x /\ t = "rate<" +:+ x).
  { rewrite matches_seq_iff. split.
    - intros (s1 & x & -> & Hs1 & Hx). apply matches_literal in Hs1 as ->.
      apply matches_plus_class in Hx. exists x. split; [exact Hx|reflexivity].
    - intros (x & Hx & ->). exists "rate<", x. split; [reflexivity|].
      split; [apply matches_literal; reflexivity|apply matches_plus_class, Hx]. }
  assert (H3 : matches
                 (Seq (Literal "count")
                    (Seq (Class (fun c => existsb (Ascii.eqb c) ["<"; ">"; "="]%char))
                       (Plus Digit))) t
               <-> exists op n, (op = "<" \/ op = ">" \/ op = "=")%char
                                /\ some_of is_digit n /\ t = "count" +:+ String op n).
  { rewrite matches_seq_iff. split.
    - intros (s1 & s2 & -> & Hs1 & Hs2). apply matches_literal in Hs1 as ->.
      apply matches_seq_iff in Hs2 as (s3 & n & -> & Hs3 & Hn).
      apply matches_class_iff in Hs3 as (op & Hop & ->).
      apply matches_plus_class in Hn. exists op, n. split; [|split; [exact Hn|reflexivity]].
      cbn [existsb] in Hop. rewrite orb_false_r, !orb_true_iff, !Ascii.eqb_eq in Hop.
      tauto.
    - intros (op & n & Hop & Hn & ->). exists "count", (String op n).
      split; [reflexivity|]. split; [apply matches_literal; reflexivity|].
      apply matches_seq_iff. exists (String op ""), n. split; [reflexivity|].
      split; [|apply matches_plus_class, Hn].
      constructor. cbn [existsb]. rewrite orb_false_r, !orb_true_iff, !Ascii.eqb_eq.
      tauto. }
  rewrite H1, H2, H3. tauto.
Qed.

(** X17. [validateThresholds] accepts a list exactly when each threshold
    is [p(N)<M], [rate<X] or [count<N], [count>N], [count=N], with [N] and [M]
    non-empty runs of digits and [X] a non-empty run of digits and dots;
    [X] need not be a number, so ["rate<1.2.3"] and ["rate<."] pass. The
    empty list is accepted. *)
Theorem validateThresholds_shapes (thresholds : list string) :
  Validator.validateThresholds thresholds = true <-> Forall threshold thresholds.
Proof.
  unfold Validator.validateThresholds. rewrite forallb_forall, List.Forall_forall.
  split; intros H t Ht; apply threshold_shapes, H, Ht.
Qed.

Lemma all_no_space (accepts : ascii -> bool) (s : string) :
  accepts " "%char = false -> all accepts s = true -> Spec.occurs " " s = false.
Proof.
  intros Hsp. induction s as [|c s IH]; [reflexivity|]. cbn [all Spec.occurs].
  intros H. apply andb_true_iff in H as [Hc Hs]. rewrite (IH Hs), orb_false_r.
  apply Ascii.eqb_neq. intros <-. congruence.
Qed.

(** X18. A list that holds a threshold with a space in it is rejected:
    the patterns allow none, so thresholds written as in the k6 options,
    like ["p(95) < 500"], do not pass. *)
Theorem validateThresholds_rejects_spaces (thresholds : list string) (t : string) :
  In t thresholds -> Spec.occurs " " t = true ->
  Validator.validateThresholds thresholds = false.
Proof.
  intros Ht Hsp. apply not_true_is_false. intros Hvalid.
  unfold Validator.validateThresholds in Hvalid.
  rewrite forallb_forall in Hvalid. specialize (Hvalid t Ht).
  apply threshold_shapes in Hvalid.
  assert (Hd : forall n, some_of is_digit n -> Spec.occurs " " n = false).
  { intros n [_ Hn]. apply (all_no_space is_digit); [reflexivity|exact Hn]. }
  destruct Hvalid as [(n & m & Hn & Hm & ->)|[(x & [_ Hx] & ->)|(op & n & Hop & Hn & ->)]].
  - rewrite !occurs_append, (Hd n Hn), (Hd m Hm) in Hsp. discriminate Hsp.
  - rewrite occurs_append, (all_no_space digit_or_dot x eq_refl Hx) in Hsp.
    discriminate Hsp.
  - change ("count" +:+ String op n) with ("count" +:+ (String op "" +:+ n)) in Hsp.
    rewrite !occurs_append, (Hd n Hn) in Hsp.
    destruct Hop as [->|[->| ->]]; discriminate Hsp.
Qed.
End RegExpFacts.

(** * Properties of the Logger *)

Section LoggerFacts.
Import JS Logger.
Local Open Scope list_scope.
Context {number : Type}.
Variable stringify_indented : list (string * JSValue number) -> string.
Variable toFixed2 : float -> string.

Lemma log_nil (this : Logger.t) (entry : LogEntry) :
  log stringify_indented this entry = []
  <-> (indexOf (level entry) < indexOf (logLevel this))%Z.
Proof.
  unfold log, shouldLog.
  destruct (indexOf (level entry) >=? indexOf (logLevel this))%Z eqn:E; simpl.
  - split; [discriminate|]. lia.
  - split; [lia|reflexivity].
Qed.

Lemma shouldLog_printed (this : Logger.t) (level : LogLevel) :
  shouldLog this level = Text.printed (logLevel this) level.
Proof. unfold shouldLog. destruct (logLevel this), level; reflexivity. Qed.

(** X19. A logger prints an entry exactly when the level of the entry is
    its own or a more severe one, in the order DEBUG, INFO, WARN, ERROR. It
    then makes one call of [console.log] with the line of the entry, the
    time, the level and the context of the logger in brackets before the
    message, and after it a second call, with the label ["Context:"] and
    the indented JSON text of the context of the entry, exactly when the
    entry has a context with at least one key. So [error] always prints, a
    logger at ERROR prints nothing else, a logger made without a level
    drops [debug] only, and lowering the level of a logger leaves what it
    already printed as it was. *)
Theorem logger_levels (this : Logger.t) :
  (forall entry : LogEntry,
      log stringify_indented this entry
      = if Text.printed (logLevel this) (level entry)
        then Line (Text.line (timestamp entry)
                     (match level entry with
                      | DEBUG => "DEBUG"
                      | INFO => "INFO"
                      | WARN => "WARN"
                      | ERROR => "ERROR"
                      end)
                     (Logger.context this) (message entry))
             :: match entry_context entry with
                | Some (property :: properties) =>
                    [Labelled "Context:" (stringify_indented (property :: properties))]
                | Some [] | None => []
                end
        else [])
  /\ (forall entry : LogEntry,
        (log stringify_indented this entry = []
         <-> (indexOf (level entry) < indexOf (logLevel this))%Z)
        /\ length (log stringify_indented this entry) <= 2)
  /\ (forall now message context,
        error stringify_indented this now message context <> [])
  /\ (logLevel this = ERROR ->
      forall now message context,
        debug stringify_indented this now message context = []
        /\ info stringify_indented this now message context = []
        /\ warn stringify_indented this now message context = []
        /\ step stringify_indented this now message context = []
        /\ forall method url statusCode duration,
             logRequest stringify_indented toFixed2 this now method url statusCode duration
             = [])
  /\ (forall name now message context,
        debug stringify_indented (new name None) now message context = []
        /\ info stringify_indented (new name None) now message context <> []
        /\ warn stringify_indented (new name None) now message context <> [])
  /\ (forall lower (entry : LogEntry),
        (indexOf lower <= indexOf (logLevel this))%Z ->
        log stringify_indented this entry <> [] ->
        log stringify_indented (setLogLevel this lower) entry
        = log stringify_indented this entry).
Proof.
  split; [|split; [|split; [|split; [|split]]]].
  - intros entry. unfold log. rewrite shouldLog_printed.
    destruct (Text.printed (logLevel this) (level entry)); [|reflexivity].
    cbn [negb]. unfold Text.line.
    destruct (level entry), (entry_context entry) as [[|property properties]|];
      reflexivity.
  - intros entry. split; [apply log_nil|].
    unfold log. destruct (negb _); simpl; [lia|].
    destruct (entry_context entry) as [properties|]; simpl; [|lia].
    destruct (0 <? length (map fst properties))%nat; simpl; lia.
  - intros now message context. unfold error. rewrite log_nil. simpl.
    destruct (logLevel this); simpl; lia.
  - intros Hlevel now message context.
    unfold logRequest, step, debug, info, warn.
    repeat split; try intros method url statusCode duration;
      apply log_nil; rewrite Hlevel; simpl; lia.
  - intros name now message context.
    unfold debug, info, warn. rewrite !log_nil. simpl. lia.
  - intros lower entry Hlower Hprinted. rewrite log_nil in Hprinted.
    unfold log, shouldLog, setLogLevel. simpl.
    replace (indexOf (level entry) >=? indexOf lower)%Z with true by lia.
    replace (indexOf (level entry) >=? indexOf (logLevel this))%Z with true by lia.
    reflexivity.
Qed.

End LoggerFacts.

(** * Properties of the environment configuration *)

Section EnvironmentFacts.
Import JS Environment Runs.
Local Open Scope list_scope.
Variable realm : Realm.
Implicit Types (table : Table) (c : EnvironmentConfig) (__ENV : gmap string string).

Lemma getEnvironmentConfig_resolved __ENV (env : nullable string) table :
  getEnvironmentConfig __ENV env table
  = match
      match env_var __ENV "BASE_URL" with
      | Some url => assign (resolved __ENV env) (with_baseUrl url) table
      | None => (Ok (), table)
      end
    with
    | (Throw e, table1) => (Throw e, table1)
    | (Ok _, table1) =>
        match
          match env_var __ENV "LOG_LEVEL" with
          | Some level => assign (resolved __ENV env) (with_logLevel level) table1
          | None => (Ok (), table1)
          end
        with
        | (Throw e, table2) => (Throw e, table2)
        | (Ok _, table2) => (Ok (table2 !! resolved __ENV env), table2)
        end
    end.
Proof. reflexivity. Qed.

Lemma assign_entry (name : string) (update : EnvironmentConfig -> EnvironmentConfig)
    table c :
  table !! name = Some c ->
  assign name update table = (Ok (), <[name := update c]> table).
Proof. intros Hc. unfold assign. rewrite Hc. reflexivity. Qed.

Lemma getEnvironmentConfig_entry __ENV (env : nullable string) table c :
  table !! resolved __ENV env = Some c ->
  getEnvironmentConfig __ENV env table
  = (Ok (Some (overridden __ENV c)),
     <[resolved __ENV env := overridden __ENV c]> table).
Proof.
  intros Hc. rewrite getEnvironmentConfig_resolved. unfold overridden.
  destruct (env_var __ENV "BASE_URL") as [url|],
    (env_var __ENV "LOG_LEVEL") as [lvl|]; cbn [default from_option id].
  - rewrite (assign_entry _ _ _ _ Hc). cbv beta iota.
    rewrite (assign_entry _ (with_logLevel lvl) _ (with_baseUrl url c)
               (lookup_insert_eq _ _ _)). cbv beta iota.
    unfold Table. rewrite insert_insert_eq, lookup_insert_eq. reflexivity.
  - rewrite (assign_entry _ _ _ _ Hc). cbv beta iota.
    unfold Table. rewrite lookup_insert_eq. reflexivity.
  - rewrite (assign_entry _ _ _ _ Hc). cbv beta iota.
    unfold Table. rewrite lookup_insert_eq. reflexivity.
  - cbv beta iota. rewrite Hc. destruct c as [n b t r l m a hs].
    cbn [name baseUrl timeout retryAttempts logLevel enableMetrics apiKey customHeaders].
    rewrite (insert_id table _ _ Hc). reflexivity.
Qed.

Lemma getEnvironmentConfig_unknown __ENV (env : nullable string) table :
  table !! resolved __ENV env = None ->
  getEnvironmentConfig __ENV env table
  = (if bool_decide (env_var __ENV "BASE_URL" = None
                     /\ env_var __ENV "LOG_LEVEL" = None)
     then Ok None else Throw TypeError, table).
Proof.
  intros Hc. rewrite getEnvironmentConfig_resolved. unfold assign.
  destruct (env_var __ENV "BASE_URL") as [url|],
    (env_var __ENV "LOG_LEVEL") as [lvl|]; simpl; rewrite ?Hc; reflexivity.
Qed.

(** X20. For an environment of the table, [getEnvironmentConfig] returns
    its entry with [BASE_URL] and [LOG_LEVEL], when set, in place of the
    base URL and log level. The overrides are written into the shared table:
    a later call for the same environment in a run without these variables
    still returns the overridden values. *)
Theorem getEnvironmentConfig_overrides_persist __ENV (env : nullable string) table c :
  plain realm (resolved __ENV env) ->
  table !! resolved __ENV env = Some c ->
  exists table',
    getEnvironmentConfig __ENV env table = (Ok (Some (overridden __ENV c)), table')
    /\ (forall url, env_var __ENV "BASE_URL" = Some url ->
          baseUrl (overridden __ENV c) = url)
    /\ (env_var __ENV "BASE_URL" = None -> baseUrl (overridden __ENV c) = baseUrl c)
    /\ (forall __ENV' env',
          resolved __ENV' env' = resolved __ENV env ->
          env_var __ENV' "BASE_URL" = None -> env_var __ENV' "LOG_LEVEL" = None ->
          getEnvironmentConfig __ENV' env' table'
          = (Ok (Some (overridden __ENV c)), table')).
Proof.
  intros _ Hc. eexists. split; [apply (getEnvironmentConfig_entry _ _ _ _ Hc)|].
  split; [intros url Hurl; simpl; rewrite Hurl; reflexivity|].
  split; [intros Hurl; simpl; rewrite Hurl; reflexivity|].
  intros __ENV' env' Hsame Hurl Hlevel.
  rewrite (getEnvironmentConfig_entry __ENV' env' _ (overridden __ENV c));
    [|rewrite Hsame; apply lookup_insert_eq].
  rewrite Hsame. unfold Table. rewrite insert_insert_eq.
  unfold overridden at 1 3. rewrite Hurl, Hlevel. simpl.
  destruct c; reflexivity.
Qed.

(** X21. For a name that is no environment of the table,
    [getEnvironmentConfig] does not fall back to a default: it returns
    [undefined] when neither [BASE_URL] nor [LOG_LEVEL] is set and throws a
    [TypeError] when one is, and [getBaseUrl] throws a [TypeError] either
    way. The table is left as it was. *)
Theorem unknown_environment __ENV table :
  plain realm (getCurrentEnvironment __ENV) ->
  table !! getCurrentEnvironment __ENV = None ->
  (forall env,
      resolved __ENV env = getCurrentEnvironment __ENV ->
      getEnvironmentConfig __ENV env table
      = (if bool_decide (env_var __ENV "BASE_URL" = None
                         /\ env_var __ENV "LOG_LEVEL" = None)
         then Ok None else Throw TypeError, table))
  /\ Environment.getBaseUrl __ENV table = (Throw TypeError, table).
Proof.
  intros _ Hnone. split.
  - intros env Henv. apply getEnvironmentConfig_unknown. rewrite Henv. exact Hnone.
  - unfold Environment.getBaseUrl.
    rewrite (getEnvironmentConfig_unknown __ENV Undefined table Hnone).
    destruct (bool_decide _); reflexivity.
Qed.

Lemma assign_fixed (name : string) (update : EnvironmentConfig -> EnvironmentConfig)
    table (other : string) :
  (forall c, fixed (update c) = fixed c) ->
  fixed <$> (assign name update table).2 !! other = fixed <$> table !! other.
Proof.
  intros Hupdate. unfold assign.
  destruct (table !! name) as [c|] eqn:Hc; [|reflexivity]. simpl. unfold Table in *.
  destruct (decide (name = other)) as [<-|Hne].
  - rewrite lookup_insert_eq, Hc. simpl. rewrite Hupdate. reflexivity.
  - rewrite lookup_insert_ne by exact Hne. reflexivity.
Qed.

Lemma getEnvironmentConfig_fixed __ENV (env : nullable string) table (other : string) :
  fixed <$> (getEnvironmentConfig __ENV env table).2 !! other = fixed <$> table !! other.
Proof.
  rewrite getEnvironmentConfig_resolved.
  destruct (env_var __ENV "BASE_URL") as [url|].
  - pose proof (assign_fixed (resolved __ENV env) (with_baseUrl url) table other
                  (fun c => eq_refl)) as H1.
    destruct (assign (resolved __ENV env) (with_baseUrl url) table) as [[[]|e] table1];
      [|exact H1].
    destruct (env_var __ENV "LOG_LEVEL") as [lvl|]; [|exact H1].
    pose proof (assign_fixed (resolved __ENV env) (with_logLevel lvl) table1 other
                  (fun c => eq_refl)) as H2.
    destruct (assign (resolved __ENV env) (with_logLevel lvl) table1) as [[[]|e] table2];
      simpl in *; congruence.
  - destruct (env_var __ENV "LOG_LEVEL") as [lvl|]; [|reflexivity].
    pose proof (assign_fixed (resolved __ENV env) (with_logLevel lvl) table other
                  (fun c => eq_refl)) as H2.
    destruct (assign (resolved __ENV env) (with_logLevel lvl) table) as [[[]|e] table2];
      exact H2.
Qed.

(** X22. Whatever calls of [getEnvironmentConfig] were made before, the
    table holds the same four environments, and each entry its name, timeout,
    number of retries and metrics flag of the start: only the base URL and
    the log level of an entry ever change. *)
Theorem table_invariant (calls : list (gmap string string * nullable string)) :
  Forall (fun call => plain realm (resolved call.1 call.2)) calls ->
  forall env : string,
    match after calls environmentConfigs !! env, environmentConfigs !! env with
    | Some c, Some c0 =>
        isValidEnvironment env = true /\ name c = env
        /\ timeout c = 30000%Z /\ retryAttempts c = retryAttempts c0
        /\ (1 <= retryAttempts c <= 3)%Z /\ enableMetrics c = true
    | None, None => isValidEnvironment env = false
    | _, _ => False
    end.
Proof.
  intros _ env.
  assert (Hfixed : fixed <$> after calls environmentConfigs !! env
                   = fixed <$> environmentConfigs !! env).
  { generalize environmentConfigs. induction calls as [|[__ENV e] calls IH];
      intros table; [reflexivity|]. cbn [after].
    rewrite IH. apply getEnvironmentConfig_fixed. }
  assert (Hstart : match environmentConfigs !! env with
                   | Some c0 =>
                       isValidEnvironment env = true /\ name c0 = env
                       /\ timeout c0 = 30000%Z /\ (1 <= retryAttempts c0 <= 3)%Z
                       /\ enableMetrics c0 = true
                   | None => isValidEnvironment env = false
                   end).
  { unfold environmentConfigs, isValidEnvironment, Table. cbn [existsb].
    destruct (String.eqb_spec env LOCAL) as [->|H1].
    { rewrite lookup_insert_eq. simpl. repeat split; lia. }
    rewrite lookup_insert_ne by congruence.
    destruct (String.eqb_spec env DEVELOPMENT) as [->|H2].
    { rewrite lookup_insert_eq. simpl. repeat split; lia. }
    rewrite lookup_insert_ne by congruence.
    destruct (String.eqb_spec env STAGING) as [->|H3].
    { rewrite lookup_insert_eq. simpl. repeat split; lia. }
    rewrite lookup_insert_ne by congruence.
    destruct (String.eqb_spec env PRODUCTION) as [->|H4].
    { rewrite lookup_insert_eq. simpl. repeat split; lia. }
    rewrite lookup_insert_ne by congruence. rewrite lookup_empty. reflexivity. }
  destruct (after calls environmentConfigs !! env) as [c|],
    (environmentConfigs !! env) as [c0|]; simpl in Hfixed; try discriminate Hfixed.
  - injection Hfixed as Hn Ht Hr Hm _ _.
    destruct Hstart as (Hv & Hn0 & Ht0 & Hr0 & Hm0).
    repeat split; try congruence; lia.
  - exact Hstart.
Qed.

(** X23. The current environment is [ENVIRONMENT] when it is set to a
    non-empty string, whether or not it names an environment, and
    development otherwise; it is never production and development at
    once. *)
Theorem current_environment __ENV :
  getCurrentEnvironment __ENV
  = match __ENV !! "ENVIRONMENT" with
    | Some value => if String.eqb value "" then DEVELOPMENT else value
    | None => DEVELOPMENT
    end
  /\ getCurrentEnvironment __ENV <> ""
  /\ isProduction __ENV && isDevelopment __ENV = false
  /\ (isDevelopment __ENV = false <->
      exists value, __ENV !! "ENVIRONMENT" = Some value
                    /\ value <> "" /\ value <> DEVELOPMENT).
Proof.
  unfold isProduction, isDevelopment, getCurrentEnvironment, env_var.
  destruct (__ENV !! "ENVIRONMENT") as [value|]; simpl.
  - destruct (String.eqb_spec value "") as [->|Hne]; simpl.
    + split; [reflexivity|]. split; [discriminate|]. split; [reflexivity|].
      split; [discriminate|]. intros (v & [= <-] & H & _). contradiction.
    + destruct (String.eqb_spec value "") as [E|_]; [contradiction|].
      split; [reflexivity|]. split; [exact Hne|].
      destruct (String.eqb_spec value DEVELOPMENT) as [->|Hd].
      * split; [reflexivity|]. split; [discriminate|].
        intros (v & [= <-] & _ & H). contradiction.
      * split; [apply andb_false_r|]. split; [eauto|reflexivity].
  - split; [reflexivity|]. split; [discriminate|]. split; [reflexivity|].
    split; [discriminate|]. intros (v & H & _). discriminate H.
Qed.
End EnvironmentFacts.

(** * Payloads are valid JSON *)

Section TrimFacts.
Import JS.
Local Open Scope list_scope.

Lemma substring_all (s : string) : substring 0 (String.length s) s = s.
Proof. induction s as [|c s IH]; [reflexivity|]. simpl. rewrite IH. reflexivity. Qed.

Lemma prefix_split (w s : string) :
  String.prefix w s = true ->
  s = w +:+ substring (String.length w) (String.length s - String.length w) s.
Proof.
  revert s. induction w as [|a w IH]; intros s H.
  - change ("" +:+ substring (String.length "") (String.length s - String.length "") s)
      with (substring 0 (String.length s - 0) s).
    rewrite Nat.sub_0_r, substring_all. reflexivity.
  - destruct s as [|b s]; [discriminate H|].
    change (String.prefix (String a w) (String b s))
      with (if ascii_dec a b then String.prefix w s else false) in H.
    destruct (ascii_dec a b) as [<-|]; [|discriminate H].
    rewrite append_cons. f_equal. apply (IH s H).
Qed.

Lemma strip_first_split (table : list string) (s rest : string) :
  strip_first table s = Some rest -> exists w, In w table /\ s = w +:+ rest.
Proof.
  induction table as [|w table IH]; [discriminate|]. cbn [strip_first].
  destruct (String.prefix w s) eqn:Hw.
  - intros [= <-]. exists w. split; [left; reflexivity|apply prefix_split, Hw].
  - intros H. destruct (IH H) as (w' & Hin & E). exists w'. split; [right|]; assumption.
Qed.

Lemma strip_all_keeps (c : ascii) (table : list string) (fuel : nat) (s : string) :
  (forall w, In w table -> Spec.occurs c w = false) ->
  Spec.occurs c (strip_all table fuel s) = Spec.occurs c s.
Proof.
  intros Htable. revert s. induction fuel as [|fuel IH]; intros s; [reflexivity|].
  cbn [strip_all]. destruct (strip_first table s) as [rest|] eqn:E; [|reflexivity].
  destruct (strip_first_split _ _ _ E) as (w & Hw & ->).
  rewrite IH, occurs_append, (Htable w Hw). reflexivity.
Qed.

Lemma occurs_rev_app (c : ascii) (s t : string) :
  Spec.occurs c (String.rev_app s t) = Spec.occurs c s || Spec.occurs c t.
Proof.
  revert t. induction s as [|d s IH]; intros t; [reflexivity|].
  cbn [String.rev_app Spec.occurs]. rewrite IH. cbn [Spec.occurs].
  destruct (Ascii.eqb c d), (Spec.occurs c s); reflexivity.
Qed.

Lemma occurs_rev (c : ascii) (s : string) : Spec.occurs c (String.rev s) = Spec.occurs c s.
Proof. unfold String.rev. rewrite occurs_rev_app. apply orb_false_r. Qed.

Lemma visible_not_white_space (c : ascii) :
  Text.visible c = true ->
  forallb (fun w => negb (Spec.occurs c w)) white_space = true.
Proof.
  destruct c as [b0 b1 b2 b3 b4 b5 b6 b7].
  destruct b0, b1, b2, b3, b4, b5, b6, b7; intros H;
    try discriminate H; vm_compute; reflexivity.
Qed.

(** [trim] removes no visible ASCII character. *)
Lemma trim_keeps (c : ascii) (s : string) :
  Text.visible c = true -> Spec.occurs c (trim s) = Spec.occurs c s.
Proof.
  intros Hc. pose proof (visible_not_white_space c Hc) as Hws.
  rewrite forallb_forall in Hws.
  unfold trim, trimEnd, trimStart.
  rewrite occurs_rev, strip_all_keeps, occurs_rev, strip_all_keeps.
  - reflexivity.
  - intros w Hw. apply negb_true_iff, Hws, Hw.
  - intros w Hw. apply in_map_iff in Hw as (w' & <- & Hw').
    rewrite occurs_rev. apply negb_true_iff, Hws, Hw'.
Qed.

Lemma digit_visible (c : ascii) :
  c = "-"%char \/ is_digit c = true -> Text.visible c = true.
Proof.
  intros [->|H]; [reflexivity|].
  destruct c as [b0 b1 b2 b3 b4 b5 b6 b7].
  destruct b0, b1, b2, b3, b4, b5, b6, b7; try discriminate H; reflexivity.
Qed.
End TrimFacts.

Section PayloadFacts.
Import JS JSON.
Context {number : Type}.
Variable number_text : number -> string.
Variable number_value : string -> number.

Lemma text_head_visible (x : JSValue number) :
  Spec.serializable number_text number_value x ->
  exists c t, Spec.text_of number_text x = String c t /\ Text.visible c = true.
Proof.
  destruct x as [| |b|n|s|es|ps]; intros Hx.
  - contradiction.
  - exists "n"%char, "ull". split; reflexivity.
  - destruct b; [exists "t"%char, "rue"|exists "f"%char, "alse"]; split; reflexivity.
  - destruct Hx as [Hlex _].
    destruct (lex_number_head _ _ _ Hlex) as (c & t & Ht & Hc).
    exists c, t. split; [exact Ht|apply digit_visible, Hc].
  - eexists dquote, _. split; reflexivity.
  - eexists "["%char, _. split; reflexivity.
  - eexists "{"%char, _. split; reflexivity.
Qed.

(** The text of a value that comes back from the round trip as it is
    is accepted by [isValidJson]: it is not blank and it parses. *)
Lemma serializable_isValidJson (x : JSValue number) :
  Spec.serializable number_text number_value x ->
  exists text,
    RequestBuilder.buildPayload number_text x = Ok (Some text)
    /\ ResponseValidator.isValidJson number_value text = true
    /\ ResponseValidator.isvalidJson number_value text = true.
Proof.
  intros Hx. exists (Spec.text_of number_text x).
  assert (Hvalid : ResponseValidator.isValidJson number_value (Spec.text_of number_text x)
                   = true).
  { unfold ResponseValidator.isValidJson.
    rewrite (parse_text number_text number_value x Hx).
    destruct (text_head_visible x Hx) as (c & t & Htext & Hc).
    pose proof (trim_keeps c (Spec.text_of number_text x) Hc) as Htrim.
    rewrite Htext in *. cbn [Spec.occurs] in Htrim.
    rewrite Ascii.eqb_refl in Htrim.
    destruct (trim (String c t)); [discriminate Htrim|reflexivity]. }
  split; [|split; [exact Hvalid|exact Hvalid]].
  unfold RequestBuilder.buildPayload, JSON.stringify.
  rewrite (serialize_text number_text number_value x Hx). reflexivity.
Qed.

Lemma occurs_skip_ws (c : ascii) (s : string) :
  Spec.occurs c (skip_ws s) = true -> Spec.occurs c s = true.
Proof.
  induction s as [|d s IH]; [discriminate|]. cbn [skip_ws].
  destruct (is_ws d); [|auto]. intros H. cbn [Spec.occurs].
  rewrite (IH H). apply orb_true_r.
Qed.

(** A text that parses holds a visible character. *)
Lemma parse_value_visible fuel (s : string) v (rest : string) :
  parse_value number_value fuel s = Some (v, rest) ->
  exists c, Text.visible c = true /\ Spec.occurs c s = true.
Proof.
  destruct fuel as [|fuel]; [discriminate|]. cbn [parse_value].
  destruct (skip_ws s) as [|c r] eqn:Hskip; [discriminate|].
  assert (Hc : Spec.occurs c s = true).
  { apply occurs_skip_ws. rewrite Hskip. cbn [Spec.occurs].
    rewrite Ascii.eqb_refl. reflexivity. }
  destruct (Ascii.eqb_spec c "{") as [->|_]; [intros _; exists "{"%char; auto|].
  destruct (Ascii.eqb_spec c "[") as [->|_]; [intros _; exists "["%char; auto|].
  destruct (Ascii.eqb_spec c dquote) as [->|_]; [intros _; exists dquote; auto|].
  destruct (Ascii.eqb_spec c "t") as [->|_]; [intros _; exists "t"%char; auto|].
  destruct (Ascii.eqb_spec c "f") as [->|_]; [intros _; exists "f"%char; auto|].
  destruct (Ascii.eqb_spec c "n") as [->|_]; [intros _; exists "n"%char; auto|].
  destruct (lex_number (String c r)) as [[literal rest']|] eqn:Hlex; [|discriminate].
  intros _. destruct (lex_number_head _ _ _ Hlex) as (c' & t & [= <- <-] & Hd).
  exists c. split; [apply digit_visible, Hd|exact Hc].
Qed.

(** X25. [isValidJson] accepts exactly the texts [JSON.parse] accepts:
    the test for a blank text rejects nothing that would parse. On a text
    it accepts [parseJsonSafely] returns the parsed value, and on a text it
    rejects [parseJsonSafely] returns [null] and does not throw. *)
Theorem isValidJson_iff_parses (text : string) :
  (ResponseValidator.isValidJson number_value text = true
   <-> exists v, JSON.parse number_value text = Ok v)
  /\ (forall v, JSON.parse number_value text = Ok v ->
        ResponseValidator.parseJsonSafely number_value text = v)
  /\ (ResponseValidator.isValidJson number_value text = false ->
      ResponseValidator.parseJsonSafely number_value text = JNull).
Proof.
  assert (Hblank : forall v, JSON.parse number_value text = Ok v ->
            String.eqb text "" || String.eqb (trim text) "" = false).
  { intros v Hparse. unfold JSON.parse in Hparse.
    destruct (parse_value number_value _ text) as [[v' rest]|] eqn:Hv;
      [|discriminate Hparse].
    destruct (parse_value_visible _ _ _ _ Hv) as (c & Hc & Hocc).
    pose proof (trim_keeps c text Hc) as Htrim. rewrite Hocc in Htrim.
    destruct text; [discriminate Hocc|].
    destruct (trim _); [discriminate Htrim|reflexivity]. }
  unfold ResponseValidator.isValidJson, ResponseValidator.parseJsonSafely.
  destruct (JSON.parse number_value text) as [v|e] eqn:Hparse.
  - rewrite (Hblank v eq_refl). split; [split; eauto|].
    split; [intros v' [= <-]; reflexivity|discriminate].
  - split; [|split; [discriminate|reflexivity]].
    split; [|intros [v H]; discriminate H].
    destruct (_ || _); discriminate.
Qed.
End PayloadFacts.

(** * Payloads over the doubles *)

Section DoubleFacts.
Import JS JSON.
Local Open Scope list_scope.
Implicit Types (x e : JSValue float) (es : list (JSValue float))
  (p : string * JSValue float) (ps : list (string * JSValue float)).
#[local] Abbreviation serializable := (Spec.serializable Number.json_text Number.value).
#[local] Abbreviation serialize := (JSON.serialize Number.json_text).

Lemma every_array (P : JSValue float -> Prop) es :
  Spec.every P (JArray es) <-> P (JArray es) /\ Forall (Spec.every P) es.
Proof.
  change (Spec.every P (JArray es)) with
    (P (JArray es)
     /\ (fix all (l : list (JSValue float)) : Prop :=
           match l with
           | [] => True
           | e :: l' => Spec.every P e /\ all l'
           end) es).
  apply and_iff_compat_l.
  induction es as [|e es IH].
  - split; [constructor|intros _; exact I].
  - rewrite Forall_cons, <- IH. reflexivity.
Qed.

Lemma every_object (P : JSValue float -> Prop) ps :
  Spec.every P (JObject ps)
  <-> P (JObject ps) /\ Forall (fun p => Spec.every P p.2) ps.
Proof.
  change (Spec.every P (JObject ps)) with
    (P (JObject ps)
     /\ (fix all (l : list (string * JSValue float)) : Prop :=
           match l with
           | [] => True
           | p :: l' => Spec.every P p.2 /\ all l'
           end) ps).
  apply and_iff_compat_l.
  induction ps as [|p ps IH].
  - split; [constructor|intros _; exact I].
  - rewrite Forall_cons, <- IH. reflexivity.
Qed.

Lemma every_head (P : JSValue float -> Prop) x : Spec.every P x -> P x.
Proof. destruct x; intros [H _]; exact H. Qed.

(** A finite number other than the negative zero is written as a literal
    that denotes it. *)
Lemma number_round_trips (n : float) :
  Number.is_finite n = true -> Spec.negative_zero n = false ->
  Spec.number_round_trips Number.json_text Number.value n.
Proof.
  intros Hfinite Hzero. unfold Spec.number_round_trips, Number.json_text.
  rewrite Hfinite. apply toString_round_trip; [exact Hfinite|].
  unfold Spec.negative_zero in Hzero. intros E. rewrite E in Hzero. discriminate Hzero.
Qed.

Lemma json_text_zero (n : float) :
  Number.is_finite n = true -> Spec.negative_zero n = true ->
  Number.json_text n = Number.json_text 0.
Proof.
  intros Hfinite Hzero. unfold Number.json_text. rewrite Hfinite.
  unfold Number.toString, Spec.negative_zero in *.
  destruct (Prim2SF n) as [[|]| | |]; try discriminate Hzero. reflexivity.
Qed.

Lemma serialize_array es :
  serialize (JArray es)
  = Some ("[" +:+ join (map (fun e => default "null" (serialize e)) es) "," +:+ "]").
Proof. reflexivity. Qed.

Lemma serialize_object ps :
  serialize (JObject ps)
  = Some ("{" +:+ join (omap (fun p => text ← serialize p.2;
                                       Some (QuoteJSONString p.1 +:+ ":" +:+ text)) ps) ","
          +:+ "}").
Proof. reflexivity. Qed.

Lemma image_array es : Spec.image (JArray es) = JArray (map Spec.image es).
Proof. reflexivity. Qed.

Lemma image_object ps :
  Spec.image (JObject ps)
  = JObject (omap (fun p => match p.2 with
                            | JUndefined => None
                            | _ => Some (p.1, Spec.image p.2)
                            end) ps).
Proof. reflexivity. Qed.

(** A value and its image have the same text. *)
Lemma image_text x :
  serialize x = match x with JUndefined => None | _ => serialize (Spec.image x) end.
Proof.
  induction x as [| |b|n|s|es IH|ps IH] using JSValue_induction; try reflexivity.
  - cbn [Spec.image]. destruct (Number.is_finite n) eqn:Hfinite.
    + destruct (Spec.negative_zero n) eqn:Hzero; [|reflexivity].
      cbn [JSON.serialize]. rewrite (json_text_zero n Hfinite Hzero). reflexivity.
    + cbn [JSON.serialize]. unfold Number.json_text. rewrite Hfinite. reflexivity.
  - rewrite image_array, !serialize_array.
    assert (Hmap : map (fun e => default "null" (serialize e)) es
                   = map (fun e => default "null" (serialize e)) (map Spec.image es)).
    { rewrite map_map. induction IH as [|e es He _ IHes]; [reflexivity|].
      cbn [map]. rewrite IHes, He. destruct e; reflexivity. }
    rewrite Hmap. reflexivity.
  - rewrite image_object, !serialize_object.
    set (member := fun p : string * JSValue float =>
           text ← serialize p.2; Some (QuoteJSONString p.1 +:+ ":" +:+ text)).
    set (kept := fun p : string * JSValue float =>
           match p.2 with JUndefined => None | _ => Some (p.1, Spec.image p.2) end).
    assert (Hmap : omap member ps = omap member (omap kept ps)).
    { induction IH as [|[k v] ps Hv _ IHps]; [reflexivity|].
      cbn [omap list_omap]. fold (omap member ps). fold (omap kept ps).
      rewrite IHps. unfold member at 1, kept at 2. cbn [fst snd] in *. rewrite Hv.
      destruct v; try reflexivity;
        cbn [omap list_omap]; fold (omap member (omap kept ps));
        unfold member at 2; cbn [fst snd]; reflexivity. }
    rewrite Hmap. reflexivity.
Qed.

Lemma image_defined x : x <> JUndefined -> serialize x = serialize (Spec.image x).
Proof. intros Hx. rewrite image_text. destruct x; try reflexivity. contradiction. Qed.

Lemma enumeration_omap (f : string * JSValue float -> option (string * JSValue float)) ps :
  (forall p q, f p = Some q -> q.1 = p.1) ->
  Spec.enumeration ps -> Spec.enumeration (omap f ps).
Proof.
  intros Hf [Hnd Horder]. split.
  - clear Horder. induction ps as [|p ps IH]; [constructor|].
    cbn [map] in Hnd. apply NoDup_cons in Hnd as [Hp Hnd].
    cbn [omap list_omap]. fold (omap f ps).
    destruct (f p) as [q|] eqn:Hq; [|apply IH, Hnd].
    cbn [map]. apply NoDup_cons. split; [|apply IH, Hnd].
    rewrite (Hf _ _ Hq). intros Hin. apply Hp.
    apply list_elem_of_fmap in Hin as (q' & -> & Hq').
    apply list_elem_of_omap in Hq' as (p' & Hp' & Hfp').
    rewrite (Hf _ _ Hfp'). apply list_elem_of_fmap. exists p'. split; [reflexivity|exact Hp'].
  - rewrite <- (entries_omap f ps Hf), Horder. reflexivity.
Qed.

(** The image of a value comes back from the round trip as it is. *)
Lemma image_serializable x :
  Spec.every Spec.enumerated x -> serializable (Spec.image x).
Proof.
  induction x as [| |b|n|s|es IH|ps IH] using JSValue_induction; intros Hx;
    try exact I.
  - cbn [Spec.image]. destruct (Number.is_finite n) eqn:Hfinite; [|exact I].
    destruct (Spec.negative_zero n) eqn:Hzero.
    + apply number_round_trips; reflexivity.
    + apply number_round_trips; assumption.
  - rewrite image_array. apply serializable_array.
    apply every_array in Hx as [_ Hes]. apply Forall_map.
    apply Forall_forall. intros e He.
    apply (proj1 (Forall_forall _ _) IH e He), (proj1 (Forall_forall _ _) Hes e He).
  - rewrite image_object. apply serializable_object.
    apply every_object in Hx as [Henum Hps]. split.
    + apply enumeration_omap; [|exact Henum].
      intros [k v] q. cbn [fst snd]. destruct v; try discriminate; intros [= <-]; reflexivity.
    + apply Forall_forall. intros q Hq.
      apply list_elem_of_omap in Hq as ([k v] & Hp & Hq). cbn [fst snd] in Hq.
      pose proof (proj1 (Forall_forall _ _) IH _ Hp) as IHv.
      pose proof (proj1 (Forall_forall _ _) Hps _ Hp) as Hv. cbn [snd] in IHv, Hv.
      destruct v; try discriminate Hq; injection Hq as <-; cbn [snd]; apply IHv, Hv.
Qed.

(** A value without [undefined], without a number that is not finite and
    without the negative zero is its own image. *)
Lemma image_fixed x :
  Spec.every Spec.defined_and_finite x -> Spec.every Spec.not_negative_zero x ->
  Spec.image x = x.
Proof.
  induction x as [| |b|n|s|es IH|ps IH] using JSValue_induction; intros Hd Hz;
    try reflexivity.
  - destruct Hd as [[] _].
  - apply every_head in Hd, Hz. cbn in Hd, Hz. cbn [Spec.image].
    rewrite Hd, Hz. reflexivity.
  - rewrite image_array. f_equal.
    apply every_array in Hd as [_ Hd]. apply every_array in Hz as [_ Hz].
    induction IH as [|e es He _ IHes]; [reflexivity|].
    apply Forall_cons in Hd as [Hde Hd]. apply Forall_cons in Hz as [Hze Hz].
    cbn [map]. rewrite (He Hde Hze), (IHes Hd Hz). reflexivity.
  - rewrite image_object. f_equal.
    apply every_object in Hd as [_ Hd]. apply every_object in Hz as [_ Hz].
    induction IH as [|[k v] ps Hv _ IHps]; [reflexivity|].
    apply Forall_cons in Hd as [Hdv Hd]. apply Forall_cons in Hz as [Hzv Hz].
    cbn [omap list_omap fst snd] in *. fold (omap (fun p : string * JSValue float =>
      match p.2 with JUndefined => None | _ => Some (p.1, Spec.image p.2) end) ps).
    rewrite (IHps Hd Hz), (Hv Hdv Hzv).
    destruct v; try reflexivity. destruct Hdv as [[] _].
Qed.

(** C8, as the code has it. For every value [x] but [undefined],
    [buildPayload(x)] returns a text and [parseJsonSafely] of that text
    returns the image of [x] under JSON: [x] with [null] for its numbers
    that are not finite and for the [undefined] elements of its arrays,
    without the properties that are [undefined], and with zero for the
    negative zero. So the round trip gives [x] back when [x] holds no
    [undefined], no number that is not finite and no negative zero. *)
Theorem parseJsonSafely_buildPayload x :
  Spec.every Spec.enumerated x -> x <> JUndefined ->
  exists text,
    RequestBuilder.buildPayload Number.json_text x = Ok (Some text)
    /\ ResponseValidator.parseJsonSafely Number.value text = Spec.image x
    /\ (Spec.every Spec.defined_and_finite x -> Spec.every Spec.not_negative_zero x ->
        ResponseValidator.parseJsonSafely Number.value text = x).
Proof.
  intros Henum Hx.
  pose proof (image_serializable x Henum) as Himage.
  exists (Spec.text_of Number.json_text (Spec.image x)).
  assert (Hparse : ResponseValidator.parseJsonSafely Number.value
                     (Spec.text_of Number.json_text (Spec.image x))
                   = Spec.image x).
  { unfold ResponseValidator.parseJsonSafely.
    rewrite (parse_text Number.json_text Number.value _ Himage). reflexivity. }
  split; [|split; [exact Hparse|]].
  - unfold RequestBuilder.buildPayload, JSON.stringify.
    rewrite (image_defined x Hx), (serialize_text _ _ _ Himage). reflexivity.
  - intros Hd Hz. rewrite Hparse. apply image_fixed; assumption.
Qed.

(** X24. What [buildPayload] returns for a value other than [undefined] is
    accepted by [isValidJson] and by its alias: it is not blank and it
    parses, to the image of the value, whatever numbers the value holds and
    with [undefined] allowed inside it. *)
Theorem buildPayload_isValidJson x :
  Spec.every Spec.enumerated x -> x <> JUndefined ->
  exists text,
    RequestBuilder.buildPayload Number.json_text x = Ok (Some text)
    /\ JSON.parse Number.value text = Ok (Spec.image x)
    /\ trim text <> ""
    /\ ResponseValidator.isValidJson Number.value text = true
    /\ ResponseValidator.isvalidJson Number.value text = true.
Proof.
  intros Henum Hx.
  pose proof (image_serializable x Henum) as Himage.
  destruct (serializable_isValidJson Number.json_text Number.value (Spec.image x) Himage)
    as (text & Htext & Hvalid & Halias).
  exists text.
  assert (Htext' : text = Spec.text_of Number.json_text (Spec.image x)).
  { unfold RequestBuilder.buildPayload, JSON.stringify in Htext.
    rewrite (serialize_text _ _ _ Himage) in Htext. injection Htext as <-. reflexivity. }
  split; [|split; [|split; [|split; assumption]]].
  - unfold RequestBuilder.buildPayload, JSON.stringify in *.
    rewrite (image_defined x Hx). exact Htext.
  - rewrite Htext'. apply parse_text, Himage.
  - intros Hblank. unfold ResponseValidator.isValidJson in Hvalid.
    rewrite Hblank in Hvalid. rewrite orb_true_r in Hvalid. discriminate Hvalid.
Qed.
End DoubleFacts.

Section DoubleExamples.
Import JS.
Local Open Scope list_scope.

Lemma document_enumerated : Spec.every Spec.enumerated Sample.document.
Proof.
  repeat split; try (apply (bool_decide_unpack _); vm_compute; exact I).
Qed.

Lemma parseJsonSafely_buildPayload_witness :
  exists text,
    RequestBuilder.buildPayload Number.json_text Sample.document = Ok (Some text)
    /\ ResponseValidator.parseJsonSafely Number.value text = Sample.document.
Proof.
  destruct (parseJsonSafely_buildPayload Sample.document document_enumerated
              ltac:(discriminate)) as (text & Htext & _ & Hback).
  exists text. split; [exact Htext|].
  apply Hback; repeat split; vm_compute; reflexivity.
Defined.

(** C8 as stated fails: the negative zero is a finite number, and it comes
    back from the round trip as zero. *)
Lemma negative_zero_is_not_restored :
  ~ (forall x : JSValue float,
        Spec.json_serializable x ->
        exists text,
          RequestBuilder.buildPayload Number.json_text x = Ok (Some text)
          /\ ResponseValidator.parseJsonSafely Number.value text = x).
Proof.
  intros H.
  destruct (H (JNumber (-0)%float)) as (text & Htext & Hparse).
  - split; split; try exact I. vm_compute. reflexivity.
  - vm_compute in Htext. injection Htext as <-.
    apply (f_equal (fun v => match v with
                             | JNumber n => Prim2SF n
                             | _ => S754_nan
                             end)) in Hparse.
    vm_compute in Hparse. discriminate Hparse.
Qed.

Lemma buildPayload_isValidJson_witness :
  exists text,
    RequestBuilder.buildPayload Number.json_text
      (JObject [("a", JNumber (-0)%float); ("b", JUndefined);
                ("c", JArray [JUndefined; JNumber nan; JNumber infinity])])
    = Ok (Some text)
    /\ ResponseValidator.isValidJson Number.value text = true
    /\ ResponseValidator.isvalidJson Number.value text = true.
Proof.
  destruct (buildPayload_isValidJson
              (JObject [("a", JNumber (-0)%float); ("b", JUndefined);
                        ("c", JArray [JUndefined; JNumber nan; JNumber infinity])]))
    as (text & Htext & _ & _ & Hvalid & Halias).
  - repeat split; try (apply (bool_decide_unpack _); vm_compute; exact I).
  - discriminate.
  - exists text. repeat split; assumption.
Defined.
End DoubleExamples.

(** * The further properties at inputs of the test suite *)

Section MoreExamples.
Import JS Constants ResponseValidator RequestBuilder.
Local Open Scope list_scope.

Lemma validateRequiredFields_stricter_witness :
  hasRequiredFields Sample.realm (JObject [("id", JNumber 1%Z); ("name", JString "John")])
    ["id"; "name"]
  = Ok {| Fields.valid := true; Fields.missing := [] |}.
Proof.
  apply (validateRequiredFields_stricter Sample.realm
           (JObject [("id", JNumber 1%Z); ("name", JString "John")]) ["id"; "name"]
           {| valid := true;
              message := Some "All required fields present and valid";
              details := Some (FieldDetails [] []) |}).
  - vm_compute. reflexivity.
  - reflexivity.
Defined.


Lemma constructor_contract_witness :
  exists this h',
    new Sample.url_parses "https://api.example.com/" empty_heap = (Ok this, h')
    /\ getBaseUrl this h' = (Ok "https://api.example.com", h').
Proof.
  destruct (proj2 (constructor_contract Sample.url_parses "https://api.example.com/"
                     empty_heap) eq_refl)
    as (this & h' & Hnew & _ & _ & Hstem & _).
  exists this, h'. split; [exact Hnew|].
  apply (Hstem "https://api.example.com"). reflexivity.
Defined.

Lemma removeHeader_contract_witness :
  exists h' m',
    removeHeader Sample.builder "Accept" Sample.store = (Ok Sample.builder, h')
    /\ getHeaders Sample.builder h' = (Ok m', h')
    /\ m' !! "Accept" = None
    /\ m' !! "Content-Type" = Some ContentType.JSON.
Proof.
  destruct (removeHeader_contract Sample.builder "Accept" Sample.store Sample.instance
              default_headers eq_refl eq_refl)
    as (h' & m' & Hrun & Hget & Hgone & Hothers & _).
  exists h', m'. split; [exact Hrun|]. split; [exact Hget|]. split; [exact Hgone|].
  rewrite (Hothers "Content-Type"); [reflexivity|discriminate].
Defined.

Lemma setHeader_removeHeader_witness :
  exists h',
    (_ ← setHeader Sample.builder "X-Request-ID" (Val "12345");
     _ ← removeHeader Sample.builder "X-Request-ID";
     getHeaders Sample.builder) Sample.store
    = (Ok (delete "X-Request-ID" default_headers), h').
Proof.
  destruct (setHeader_removeHeader Sample.builder "X-Request-ID" "12345" Sample.store
              Sample.instance default_headers (not_blank "X-Request-ID" eq_refl)
              eq_refl eq_refl)
    as (h' & Hrun & _).
  exists h'. exact Hrun.
Defined.


Lemma setHeaders_stops_at_first_rejected_witness :
  exists h' m',
    setHeaders Sample.builder
      [("X-B", Val "2"); ("7", Val "seven"); ("__proto__", Val "x"); ("X-C", Null);
       ("X-D", Val "4")] Sample.store
    = (Throw (Spec.InvalidHeaderValue "X-C"), h')
    /\ getHeaders Sample.builder h' = (Ok m', h')
    /\ m' !! "7" = Some "seven"
    /\ m' !! "X-B" = Some "2"
    /\ m' !! "__proto__" = None
    /\ m' !! "X-D" = None
    /\ m' !! "Accept" = Some "application/json".
Proof.
  destruct (setHeaders_stops_at_first_rejected Sample.builder
              [("X-B", Val "2"); ("7", Val "seven"); ("__proto__", Val "x"); ("X-C", Null);
               ("X-D", Val "4")] Sample.store
              Sample.instance default_headers eq_refl eq_refl)
    as (h' & m' & Hrun & Hget & Hlookup & _).
  exists h', m'. split; [exact Hrun|]. split; [exact Hget|].
  rewrite !Hlookup. repeat split; vm_compute; reflexivity.
Defined.

Lemma authorization_headers_witness :
  exists h',
    setBearerToken Sample.builder Null Sample.store = (Ok Sample.builder, h')
    /\ getHeaders Sample.builder h'
       = (Ok (<["Authorization" := "Bearer null"]> default_headers), h').
Proof.
  exact (proj1 (proj2 (authorization_headers Sample.builder Sample.store Sample.instance
                         default_headers eq_refl eq_refl))).
Defined.

Lemma clone_contract_witness :
  exists copy h1,
    clone Sample.url_parses Sample.builder Sample.store = (Ok copy, h1)
    /\ copy <> Sample.builder
    /\ getHeaders copy h1 = (Ok default_headers, h1)
    /\ getBaseUrl copy h1 = (Ok "https://api.example.com", h1).
Proof.
  destruct (proj2 (clone_contract Sample.url_parses Sample.builder Sample.store
                     Sample.instance default_headers eq_refl eq_refl) eq_refl)
    as (copy & h1 & Hclone & Hne & _ & Hcopy & _ & _ & _ & Hbase & _).
  exists copy, h1. split; [exact Hclone|]. split; [exact Hne|].
  split; [exact Hcopy|]. apply Hbase. reflexivity.
Defined.

Lemma buildUrl_normalises_witness :
  buildUrl Sample.builder "/posts" None Sample.store
  = buildUrl Sample.builder "posts" None Sample.store.
Proof.
  exact (proj1 (proj2 (buildUrl_normalises Sample.builder Sample.store "posts" None))
           eq_refl).
Defined.

Lemma query_string_separators_witness :
  (exists query,
      buildUrl Sample.builder "/search"
        (Some [("q", Val "a&b=c"); ("skip", Null); ("page", Val "2")]) Sample.store
      = (Ok ("https://api.example.com" +:+ "/search" +:+ "?" +:+ query), Sample.store)
      /\ Calls.count "=" query = 2
      /\ Calls.count "&" query = 1)
  /\ buildUrl Sample.builder "/search"
       (Some [("q", Val (bytes [97; 237; 160; 128])); ("page", Val "2")]) Sample.store
     = (Throw URIError, Sample.store).
Proof.
  split.
  - destruct (proj1 (query_string_separators Sample.builder Sample.store Sample.instance
                       "/search"
                       [("q", Val "a&b=c"); ("skip", Null); ("page", Val "2")] eq_refl
                       ltac:(discriminate)) eq_refl)
      as (query & Hrun & _ & Heq & Hamp & _).
    exists query. split; [exact Hrun|]. split; [exact Heq|].
    injection Hamp as Hamp. exact Hamp.
  - exact (proj2 (query_string_separators Sample.builder Sample.store Sample.instance
                    "/search"
                    [("q", Val (bytes [97; 237; 160; 128])); ("page", Val "2")] eq_refl
                    ltac:(discriminate)) eq_refl).
Defined.

Lemma validateThresholds_rejects_spaces_witness :
  Validator.validateThresholds ["p(95) < 500"; "p(99) < 1000"] = false.
Proof.
  apply (validateThresholds_rejects_spaces ["p(95) < 500"; "p(99) < 1000"] "p(95) < 500").
  - left. reflexivity.
  - reflexivity.
Defined.

Lemma logger_levels_witness :
  Logger.info (fun _ : list (string * JSValue Z) => "{ }")
    {| Logger.context := "Test"; Logger.logLevel := Logger.INFO |}
    "2024-01-01T00:00:00.000Z" "Started" (Some [("user", JNumber 1%Z)])
  = [Logger.Line "[2024-01-01T00:00:00.000Z] [INFO] [Test] Started";
     Logger.Labelled "Context:" "{ }"]
  /\ Logger.info (fun _ : list (string * JSValue Z) => "{ }")
       {| Logger.context := "Test"; Logger.logLevel := Logger.INFO |}
       "2024-01-01T00:00:00.000Z" "Started" (Some [])
     = [Logger.Line "[2024-01-01T00:00:00.000Z] [INFO] [Test] Started"]
  /\ Logger.debug (fun _ : list (string * JSValue Z) => "{ }")
       {| Logger.context := "Test"; Logger.logLevel := Logger.INFO |}
       "2024-01-01T00:00:00.000Z" "Debug message" None
     = [].
Proof.
  pose proof (proj1 (logger_levels (fun _ : list (string * JSValue Z) => "{ }")
                       (fun _ => "0.00")
                       {| Logger.context := "Test"; Logger.logLevel := Logger.INFO |}))
    as Hlog.
  split; [|split].
  - exact (Hlog {| Logger.level := Logger.INFO; Logger.message := "Started";
                   Logger.timestamp := "2024-01-01T00:00:00.000Z";
                   Logger.entry_context := Some [("user", JNumber 1%Z)] |}).
  - exact (Hlog {| Logger.level := Logger.INFO; Logger.message := "Started";
                   Logger.timestamp := "2024-01-01T00:00:00.000Z";
                   Logger.entry_context := Some [] |}).
  - exact (Hlog {| Logger.level := Logger.DEBUG; Logger.message := "Debug message";
                   Logger.timestamp := "2024-01-01T00:00:00.000Z";
                   Logger.entry_context := None |}).
Defined.

Lemma getEnvironmentConfig_overrides_persist_witness :
  exists config table',
    Environment.getEnvironmentConfig (<["BASE_URL" := "https://custom.example.com"]> ∅)
      (Val Environment.STAGING) Environment.environmentConfigs
    = (Ok (Some config), table')
    /\ Environment.baseUrl config = "https://custom.example.com"
    /\ Environment.getEnvironmentConfig ∅ (Val Environment.STAGING) table'
       = (Ok (Some config), table').
Proof.
  destruct (getEnvironmentConfig_overrides_persist Sample.realm
              (<["BASE_URL" := "https://custom.example.com"]> ∅)
              (Val Environment.STAGING) Environment.environmentConfigs
              {| Environment.name := Environment.STAGING;
                 Environment.baseUrl := "https://staging-api.example.com";
                 Environment.timeout := 30000; Environment.retryAttempts := 3;
                 Environment.logLevel := "INFO"; Environment.enableMetrics := true;
                 Environment.apiKey := None; Environment.customHeaders := None |}
              eq_refl eq_refl)
    as (table' & Hrun & Hurl & _ & Hlater).
  eexists _, table'. split; [exact Hrun|].
  split; [apply Hurl; reflexivity|].
  apply (Hlater ∅ (Val Environment.STAGING)); reflexivity.
Defined.

Lemma unknown_environment_witness :
  Environment.getBaseUrl (<["ENVIRONMENT" := "qa"]> ∅) Environment.environmentConfigs
  = (Throw TypeError, Environment.environmentConfigs).
Proof.
  exact (proj2 (unknown_environment Sample.realm (<["ENVIRONMENT" := "qa"]> ∅)
                  Environment.environmentConfigs eq_refl eq_refl)).
Defined.

Lemma table_invariant_witness :
  match
    Runs.after
      [(<["BASE_URL" := "https://custom.example.com"]> ∅, Val Environment.STAGING);
       (<["LOG_LEVEL" := "ERROR"]> ∅, Undefined)]
      Environment.environmentConfigs !! Environment.STAGING,
    Environment.environmentConfigs !! Environment.STAGING
  with
  | Some c, Some c0 =>
      Environment.isValidEnvironment Environment.STAGING = true
      /\ Environment.name c = Environment.STAGING
      /\ Environment.timeout c = 30000%Z
      /\ Environment.retryAttempts c = Environment.retryAttempts c0
      /\ (1 <= Environment.retryAttempts c <= 3)%Z
      /\ Environment.enableMetrics c = true
  | None, None => Environment.isValidEnvironment Environment.STAGING = false
  | _, _ => False
  end.
Proof.
  apply (table_invariant Sample.realm
           [(<["BASE_URL" := "https://custom.example.com"]> ∅, Val Environment.STAGING);
            (<["LOG_LEVEL" := "ERROR"]> ∅, Undefined)]).
  repeat constructor.
Defined.

Lemma validateResponse_valid_iff_witness :
  (exists result,
      validateResponse Sample.realm 200 (JObject [("id", JNumber 1%Z)]) (Some ["id"]) None
      = Ok result
      /\ valid result = true)
  /\ (exists result,
        validateResponse Sample.realm 404 (JObject [("id", JNumber 1%Z)]) (Some ["id"]) None
        = Ok result
        /\ valid result = false).
Proof.
  split.
  - destruct (validateResponse_valid_iff Sample.realm 200 (JObject [("id", JNumber 1%Z)])
                (Some ["id"]) None) as (result & Hresult & Hvalid).
    exists result. split; [exact Hresult|]. apply Hvalid.
    split; [lia|]. split.
    + intros [H|[H|[(s & H & _)|[H|H]]]]; discriminate H.
    + split; [right; eexists; reflexivity|].
      intros f [<-|[]]. vm_compute. eauto.
  - destruct (validateResponse_valid_iff Sample.realm 404 (JObject [("id", JNumber 1%Z)])
                (Some ["id"]) None) as (result & Hresult & Hvalid).
    exists result. split; [exact Hresult|].
    destruct (valid result); [|reflexivity].
    destruct (proj1 Hvalid eq_refl) as [Hstatus _]. lia.
Defined.
End MoreExamples.
